(** * Model composition and multi-position fitting (hyperspy.model, eelslab Edge)

    A shallow embedding of [Model] (src/hyperspy/model.py) and of the
    construction of [Edge] (src/eelslab/components/edge.py).

    Spectra are one-dimensional arrays over an arbitrary carrier [R] with a
    zero, an addition, a subtraction and a multiplication ([Arith]); no
    algebraic law of the carrier is assumed anywhere, so every statement also
    covers arithmetic in which addition is not associative.  Python
    exceptions are values of [exn] and a computation that may raise has type
    [result]. *)

From Stdlib Require Import ZArith Lia Ascii.
From stdpp Require Import base option list gmap strings pretty.


Set Warnings "-register-all".

(** ** Exceptions *)

Inductive exn : Type :=
  | ValueError
  | IndexError
  | TypeError
  | ZeroDivisionError
  | IOError
  | SystemExit (message : string)
  | FitError.

Inductive result (A : Type) : Type :=
  | Ok (a : A)
  | Raise (e : exn).
Arguments Ok {A} a.
Arguments Raise {A} e.

#[global] Instance result_ret : MRet result := fun _ a => Ok a.
#[global] Instance result_bind : MBind result := fun _ _ f r =>
  match r with Ok a => f a | Raise e => Raise e end.

(** [for x in l: s = body(s, x)], stopping at the first exception. *)
Fixpoint for_each {A S : Type} (body : S -> A -> result S) (l : list A) (s : S)
  : result S :=
  match l with
  | [] => Ok s
  | x :: l' => s' ← body s x; for_each body l' s'
  end.

(** [x] when the attribute holds an object, [TypeError] when it is [None]
    and the code calls it or takes its length. *)
Definition not_none {A} (o : option A) : result A :=
  match o with Some a => Ok a | None => Raise TypeError end.

(** ** The carrier of the samples *)

Class Arith (R : Type) : Type := {
  R0 : R;
  Radd : R -> R -> R;
  Rsub : R -> R -> R;
  Rmul : R -> R -> R
}.

(** ** One-dimensional numpy arrays *)

Section Arrays.
Context {R : Type} `{Arith R}.

(** [np.zeros(n)] *)
Definition np_zeros (n : nat) : list R := replicate n R0.

(** [x op y] on one-dimensional arrays: equal lengths, or one operand of
    length one is stretched; anything else is a [ValueError]. *)
Definition broadcast (op : R -> R -> R) (x y : list R) : result (list R) :=
  if decide (length x = length y) then Ok (zip_with op x y)
  else match x, y with
       | [a], _ => Ok (map (op a) y)
       | _, [b] => Ok (map (fun a => op a b) x)
       | _, _ => Raise ValueError
       end.

(** [np.add(x, y, x)]: the sum is written into [x], whose shape is kept;
    [y] has the length of [x] or length one. *)
Definition np_add_out (x y : list R) : result (list R) :=
  if decide (length y = length x) then Ok (zip_with Radd x y)
  else match y with
       | [b] => Ok (map (fun a => Radd a b) x)
       | _ => Raise ValueError
       end.

(** [v[switches]] with a boolean array of the length of [v]. *)
Fixpoint select (switches : list bool) (v : list R) : list R :=
  match switches, v with
  | b :: switches', x :: v' =>
      if b then x :: select switches' v' else select switches' v'
  | _, _ => []
  end.

Definition getitem_mask (v : list R) (switches : list bool) : result (list R) :=
  if decide (length switches = length v) then Ok (select switches v)
  else Raise IndexError.

(** sum of products of two equally long windows, accumulated left to right *)
Definition dot (xs ys : list R) : R :=
  foldl (fun acc xy => Radd acc (Rmul (fst xy) (snd xy))) R0 (zip xs ys).

(** [np.convolve(a, v, mode="valid")]: the operands are swapped so that the
    longer one comes first, empty operands are refused, and sample [k] is
    the sum of [a[k+j] * v[len(v)-1-j]] over the fully overlapping lags. *)
Definition correlate_valid (a w : list R) : list R :=
  map (fun k => dot (take (length w) (drop k a)) w)
      (seq 0 (length a - length w + 1)).

Definition np_convolve_valid (a v : list R) : result (list R) :=
  let '(a, v) := if decide (length a < length v) then (v, a) else (a, v) in
  match a, v with
  | [], _ => Raise ValueError
  | _, [] => Raise ValueError
  | _, _ => Ok (correlate_valid a (reverse v))
  end.

End Arrays.

(** number of [True] entries of a boolean array *)
Definition count_true (switches : list bool) : nat :=
  length (filter (fun b => b = true) switches).

(** ** Data model: Parameter, Component, axes, Model *)

Section DataModel.
Context {R : Type} `{Arith R}.

(** [param.value]: a number, or a Python list of numbers
    ([isinstance(param.value, list)]). *)
Inductive PValue : Type :=
  | Scalar (x : R)
  | Vector (l : list R).

(** The live values of all parameters of a model, component by component.
    Evaluators ([function], [grad]) are bound methods that read the live
    values of the component they belong to; here they receive the table. *)
Definition Values : Type := list (list PValue).

(** What [param._bounds] holds: a pair [(bmin, bmax)] for a parameter of one
    element, a list of such pairs otherwise. *)
Inductive Bounds : Type :=
  | BoundsPair (lo hi : option R)
  | BoundsList (pairs : list (option R * option R)).

(** What [parameter.grad(x)] hands back: the very array [x] it was called
    with, or an array of its own.  The class Parameter is missing from the
    sources; a gradient is taken to hand back no other array that the
    model holds. *)
Inductive GradResult : Type :=
  | SameArray
  | NewArray (samples : list R).

(** The samples of the array that [g] is, when it was handed back for the
    array with the samples [x]. *)
Definition array_of (x : list R) (g : GradResult) : list R :=
  match g with
  | SameArray => x
  | NewArray samples => samples
  end.

(** The class Parameter ([Parameter] is reserved by the proof assistant). *)
Inductive Param : Type := mkParameter {
  name : string;
  value : PValue;
  free : bool;
  _number_of_elements : nat;
  bmin : option R;
  bmax : option R;
  _bounds : Bounds;
  grad : Values -> list R -> GradResult;
  _twins : list Param;
  (** [parameter.connect(self.update_plot)] has been called *)
  connected : bool;
  connection_active : bool;
  (** [param.map], indexed by navigation position *)
  map_ : gmap (list nat) PValue
}.

Record Component : Type := mkComponent {
  comp_name : string;
  active : bool;
  convolved : bool;
  parameters : list Param;
  function : Values -> list R -> list R
}.

(** [self.axis]: the samples [axis.axis] and the traits used by
    [set_convolution_axis]. *)
Record DataAxis : Type := mkDataAxis {
  axis : list R;
  size : nat;
  scale : R;
  offset : R
}.

(** The low-loss spectrum: [low_loss(axes_manager)] is the response at the
    current navigation position, [ll_size] the size of its signal axis and
    [ll_value2index0] is [ll_axis.value2index(0)]. *)
Record LowLoss : Type := mkLowLoss {
  ll_call : list nat -> list R;
  ll_size : nat;
  ll_value2index0 : nat
}.

(** One element of the list [free_parameters_boundaries]. *)
Inductive BoundEntry : Type :=
  | EntryPair (lo hi : option R)
  | EntryList (pairs : list (option R * option R))
  | EntryAtom (b : option R).

(** One dictionary of [mpfit_parinfo]. *)
Record ParInfo : Type := mkParInfo {
  limited : bool * bool;
  limits : R * R
}.

Record Model : Type := mkModel {
  components : list Component;
  model_convolved : bool;
  auto_update_plot : bool;
  model_axis : DataAxis;
  navigation_shape : list nat;
  _indexes : list nat;
  channel_switches : list bool;
  _low_loss : option LowLoss;
  convolution_axis : option (list R);
  free_parameters_boundaries : option (list BoundEntry);
  mpfit_parinfo : option (list ParInfo);
  p0 : option (list R);
  (** [spectrum._plot]: [None], or a plot together with whether redrawing its
      lines succeeds *)
  spectrum_plot : option bool
}.

(** *** Attribute assignments *)

Definition with_value (v : PValue) (p : Param) : Param :=
  mkParameter (name p) v (free p) (_number_of_elements p) (bmin p) (bmax p)
    (_bounds p) (grad p) (_twins p) (connected p) (connection_active p) (map_ p).

Definition with_connection_active (b : bool) (p : Param) : Param :=
  mkParameter (name p) (value p) (free p) (_number_of_elements p) (bmin p)
    (bmax p) (_bounds p) (grad p) (_twins p) (connected p) b (map_ p).

Definition with_connected (b : bool) (p : Param) : Param :=
  mkParameter (name p) (value p) (free p) (_number_of_elements p) (bmin p)
    (bmax p) (_bounds p) (grad p) (_twins p) b (connection_active p) (map_ p).

Definition with_map (mp : gmap (list nat) PValue) (p : Param) : Param :=
  mkParameter (name p) (value p) (free p) (_number_of_elements p) (bmin p)
    (bmax p) (_bounds p) (grad p) (_twins p) (connected p)
    (connection_active p) mp.

Definition with_parameters (ps : list Param) (c : Component) : Component :=
  mkComponent (comp_name c) (active c) (convolved c) ps (function c).

Definition with_components (cs : list Component) (m : Model) : Model :=
  mkModel cs (model_convolved m) (auto_update_plot m) (model_axis m)
    (navigation_shape m) (_indexes m) (channel_switches m) (_low_loss m)
    (convolution_axis m) (free_parameters_boundaries m) (mpfit_parinfo m)
    (p0 m) (spectrum_plot m).

(** [self.axis.axis] with other samples: what writing into that array
    leaves. *)
Definition with_axis_samples (samples : list R) (m : Model) : Model :=
  mkModel (components m) (model_convolved m) (auto_update_plot m)
    (mkDataAxis samples (size (model_axis m)) (scale (model_axis m))
       (offset (model_axis m)))
    (navigation_shape m) (_indexes m) (channel_switches m) (_low_loss m)
    (convolution_axis m) (free_parameters_boundaries m) (mpfit_parinfo m)
    (p0 m) (spectrum_plot m).

Definition with_auto_update_plot (b : bool) (m : Model) : Model :=
  mkModel (components m) (model_convolved m) b (model_axis m)
    (navigation_shape m) (_indexes m) (channel_switches m) (_low_loss m)
    (convolution_axis m) (free_parameters_boundaries m) (mpfit_parinfo m)
    (p0 m) (spectrum_plot m).

Definition with_indexes (index : list nat) (m : Model) : Model :=
  mkModel (components m) (model_convolved m) (auto_update_plot m)
    (model_axis m) (navigation_shape m) index (channel_switches m)
    (_low_loss m) (convolution_axis m) (free_parameters_boundaries m)
    (mpfit_parinfo m) (p0 m) (spectrum_plot m).

Definition with_low_loss (ll : option LowLoss) (conv_axis : option (list R))
    (conv : bool) (m : Model) : Model :=
  mkModel (components m) conv (auto_update_plot m) (model_axis m)
    (navigation_shape m) (_indexes m) (channel_switches m) ll conv_axis
    (free_parameters_boundaries m) (mpfit_parinfo m) (p0 m) (spectrum_plot m).

Definition with_boundaries (b : list BoundEntry) (m : Model) : Model :=
  mkModel (components m) (model_convolved m) (auto_update_plot m)
    (model_axis m) (navigation_shape m) (_indexes m) (channel_switches m)
    (_low_loss m) (convolution_axis m) (Some b) (mpfit_parinfo m) (p0 m)
    (spectrum_plot m).

Definition with_parinfo (i : list ParInfo) (m : Model) : Model :=
  mkModel (components m) (model_convolved m) (auto_update_plot m)
    (model_axis m) (navigation_shape m) (_indexes m) (channel_switches m)
    (_low_loss m) (convolution_axis m) (free_parameters_boundaries m) (Some i)
    (p0 m) (spectrum_plot m).

Definition with_p0 (p : list R) (m : Model) : Model :=
  mkModel (components m) (model_convolved m) (auto_update_plot m)
    (model_axis m) (navigation_shape m) (_indexes m) (channel_switches m)
    (_low_loss m) (convolution_axis m) (free_parameters_boundaries m)
    (mpfit_parinfo m) (Some p) (spectrum_plot m).

(** *** The Component interface used by Model *)

Definition live_values (cs : list Component) : Values :=
  map (fun c => map value (parameters c)) cs.

(** Modelled from the spec: the class Component is missing from the sources;
    [component.free_parameters] is the ordered sequence of the component's
    Parameters with [free=True]. *)
Definition free_parameters (c : Component) : list Param :=
  filter (fun p => free p = true) (parameters c).

(** Modelled from the spec: the class Component is missing from the sources;
    [component._nfree_param] is the number of Parameters with [free=True],
    expanded by each parameter's element count. *)
Definition _nfree_param (c : Component) : nat :=
  sum_list_with _number_of_elements (free_parameters c).

(** Modelled from the spec: the class Component is missing from the sources;
    [component.charge(values, onlyfree)] assigns an ordered sequence of
    values into the component's Parameters (the free ones when [onlyfree]):
    a parameter of one element takes the next value, any other takes the
    next [_number_of_elements] values as a list. *)
Fixpoint charge_parameters (ps : list Param) (p : list R) (onlyfree : bool)
  : result (list Param) :=
  match ps with
  | [] => Ok []
  | q :: ps' =>
      if onlyfree && negb (free q) then
        rest ← charge_parameters ps' p onlyfree; Ok (q :: rest)
      else
        let n := _number_of_elements q in
        v ← (if decide (n = 1)
             then match p with x :: _ => Ok (Scalar x) | [] => Raise IndexError end
             else Ok (Vector (take n p)));
        rest ← charge_parameters ps' (drop n p) onlyfree;
        Ok (with_value v q :: rest)
  end.

Definition component_charge (c : Component) (p : list R) (onlyfree : bool)
  : result Component :=
  ps ← charge_parameters (parameters c) p onlyfree; Ok (with_parameters ps c).

End DataModel.

Arguments PValue R : clear implicits.
Arguments Values R : clear implicits.
Arguments Bounds R : clear implicits.
Arguments GradResult R : clear implicits.
Arguments Param R : clear implicits.
Arguments Component R : clear implicits.
Arguments DataAxis R : clear implicits.
Arguments LowLoss R : clear implicits.
Arguments BoundEntry R : clear implicits.
Arguments ParInfo R : clear implicits.
Arguments Model R : clear implicits.

(** ** Model: convolution axis and evaluation *)

Section Evaluation.
Context {R : Type} `{Arith R}.

(** Modelled from the spec: [hyperspy.axes.generate_axis] is missing from the
    sources.  The derived axis has [dimension] samples spaced by [step], the
    sample number [knot_position] being [origin]; a negative number of
    samples is refused. *)
Definition shift (x step : R) (k : Z) : R :=
  match k with
  | Z0 => x
  | Zpos n => Pos.iter (fun y => Rsub y step) x n
  | Zneg n => Pos.iter (fun y => Radd y step) x n
  end.

Fixpoint ramp (start step : R) (n : nat) : list R :=
  match n with
  | O => []
  | S n' => start :: ramp (Radd start step) step n'
  end.

Definition generate_axis (origin step : R) (dimension knot_position : Z)
  : result (list R) :=
  if decide (dimension < 0)%Z then Raise ValueError
  else Ok (ramp (shift origin step knot_position) step (Z.to_nat dimension)).

Definition set_convolution_axis (m : Model R) : result (Model R) :=
  ll ← not_none (_low_loss m);
  let dimension := (Z.of_nat (size (model_axis m)) + Z.of_nat (ll_size ll) - 1)%Z in
  let step := scale (model_axis m) in
  let knot_position :=
    (Z.of_nat (ll_size ll) - Z.of_nat (ll_value2index0 ll) - 1)%Z in
  conv ← generate_axis (offset (model_axis m)) step dimension knot_position;
  Ok (with_low_loss (_low_loss m) (Some conv) (model_convolved m) m).

(** The setter of the property [low_loss]. *)
Definition set_low_loss (value : option (LowLoss R)) (m : Model R)
  : result (Model R) :=
  match value with
  | Some ll =>
      m' ← set_convolution_axis
             (with_low_loss (Some ll) (convolution_axis m) (model_convolved m) m);
      Ok (with_low_loss (_low_loss m') (convolution_axis m') true m')
  | None => Ok (with_low_loss None None false m)
  end.

(** [self.low_loss(self.axes_manager)] *)
Definition low_loss_here (m : Model R) : result (list R) :=
  ll ← not_none (_low_loss m); Ok (ll_call ll (_indexes m)).

(** One turn of the loop of the convolved branch of [Model.__call__]: the
    component adds its output over the convolution axis to [sum_convolved]
    when it is convolved, over the plain axis to [sum_] otherwise, and
    [counter] advances. *)
Definition add_component (vals : Values R) (conv_axis plain_axis : list R)
    (component : Component R) (st : nat * list R * list R)
  : result (nat * list R * list R) :=
  let '(counter, sum_convolved, sum_) := st in
  if convolved component then
    s ← np_add_out sum_convolved (function component vals conv_axis);
    Ok (counter + _nfree_param component, s, sum_)
  else
    s ← np_add_out sum_ (function component vals plain_axis);
    Ok (counter + _nfree_param component, sum_convolved, s).

(** [Model.__call__(non_convolved, onlyactive)].  The state of the loop of
    the convolved branch is [(counter, sum_convolved, sum_)]. *)
Definition __call__ (m : Model R) (non_convolved onlyactive : bool)
  : result (list R) :=
  let vals := live_values (components m) in
  if negb (model_convolved m) || non_convolved then
    axis ← getitem_mask (axis (model_axis m)) (channel_switches m);
    let sum_ := np_zeros (length axis) in
    if onlyactive then
      for_each (fun sum_ component =>
                  if active component
                  then np_add_out sum_ (function component vals axis)
                  else Ok sum_)
               (components m) sum_
    else
      for_each (fun sum_ component =>
                  np_add_out sum_ (function component vals axis))
               (components m) sum_
  else
    conv_axis ← not_none (convolution_axis m);
    let sum_convolved := np_zeros (length conv_axis) in
    let sum_ := np_zeros (length (axis (model_axis m))) in
    '(counter, sum_convolved, sum_) ←
      for_each (fun st component =>
                  if onlyactive then
                    if active component
                    then add_component vals conv_axis (axis (model_axis m))
                           component st
                    else Ok st
                  else add_component vals conv_axis (axis (model_axis m))
                         component st)
               (components m) (0, sum_convolved, sum_);
    response ← low_loss_here m;
    conv ← np_convolve_valid response sum_convolved;
    to_return ← broadcast Radd sum_ conv;
    getitem_mask to_return (channel_switches m).

(** *** The composition rule of the specification

    The elementwise sum of [function] over an axis for a selection of
    components, and the two-stage combination of the convolved case. *)
Definition accumulate (vals : Values R) (x : list R) (cs : list (Component R))
    (acc : list R) : result (list R) :=
  for_each (fun acc c => np_add_out acc (function c vals x)) cs acc.

Definition sum_of_functions (vals : Values R) (x : list R)
    (cs : list (Component R)) : result (list R) :=
  accumulate vals x cs (np_zeros (length x)).

Definition convolved_composition (m : Model R) : result (list R) :=
  let vals := live_values (components m) in
  conv_axis ← not_none (convolution_axis m);
  convolved_sum ←
    sum_of_functions vals conv_axis
      (filter (fun c => active c = true /\ convolved c = true) (components m));
  plain_sum ←
    sum_of_functions vals (axis (model_axis m))
      (filter (fun c => active c = true /\ convolved c = false) (components m));
  response ← low_loss_here m;
  conv ← np_convolve_valid response convolved_sum;
  total ← broadcast Radd plain_sum conv;
  getitem_mask total (channel_switches m).

(** The convolution axis spans model-axis-length + response-length - 1
    samples. *)
Definition convolution_axis_spans (m : Model R) : Prop :=
  forall conv_axis response,
    convolution_axis m = Some conv_axis ->
    low_loss_here m = Ok response ->
    length conv_axis = length (axis (model_axis m)) + length response - 1.

(** The contract of [function]: one output sample per point of the axis. *)
Definition functions_pointwise (m : Model R) : Prop :=
  forall c x, c ∈ components m ->
    length (function c (live_values (components m)) x) = length x.

End Evaluation.

(** ** Model: the free-parameter vector, boundaries and parameter info *)

Section FreeParameters.
Context {R : Type} `{Arith R}.

(** One turn of the inner loop of [_set_p0]: [p0] is [None] until the first
    free parameter is met; a value that is not a list is wrapped in a list
    of one element before it is appended. *)
Definition p0_append (p0 : option (list R)) (param : Param R)
  : option (list R) :=
  match p0 with
  | Some l =>
      Some (match value param with
            | Scalar x => l ++ [x]
            | Vector v => l ++ v
            end)
  | None =>
      Some (match value param with
            | Scalar x => [x]
            | Vector v => v
            end)
  end.

(** [Model._set_p0]; [tuple(None)] is a [TypeError]. *)
Definition _set_p0 (m : Model R) : result (Model R) :=
  let p0 :=
    foldl (fun p0 component =>
             if active component
             then foldl p0_append p0 (free_parameters component)
             else p0)
          None (components m) in
  match p0 with
  | Some l => Ok (with_p0 l m)
  | None => Raise TypeError
  end.

(** The scalar slots of a value: vector values are flattened. *)
Definition slots (v : PValue R) : list R :=
  match v with
  | Scalar x => [x]
  | Vector l => l
  end.

(** The free parameters of the active components, in component order then
    parameter order, and the concatenation of their current values. *)
Definition active_free_parameters (m : Model R) : list (Param R) :=
  c ← filter (fun c => active c = true) (components m); free_parameters c.

Definition free_parameter_vector (m : Model R) : list R :=
  p ← active_free_parameters m; slots (value p).

(** [_number_of_elements] counts the scalar slots of the value. *)
Definition element_counts_consistent (m : Model R) : Prop :=
  forall c p, c ∈ components m -> p ∈ parameters c ->
    _number_of_elements p = length (slots (value p)).

(** [Model.set_boundaries] *)
Definition set_boundaries (m : Model R) : Model R :=
  let boundaries :=
    foldl (fun acc component =>
             if active component then
               foldl (fun acc param =>
                        if decide (_number_of_elements param = 1) then
                          acc ++ [match _bounds param with
                                  | BoundsPair lo hi => EntryPair lo hi
                                  | BoundsList l => EntryList l
                                  end]
                        else
                          acc ++ match _bounds param with
                                 | BoundsPair lo hi => [EntryAtom lo; EntryAtom hi]
                                 | BoundsList l =>
                                     map (fun b => EntryPair (fst b) (snd b)) l
                                 end)
                     acc (free_parameters component)
             else acc)
          [] (components m) in
  with_boundaries boundaries m.

(** [Model.set_mpfit_parameters_info] *)
Definition set_mpfit_parameters_info (m : Model R) : Model R :=
  let parinfo :=
    foldl (fun acc component =>
             if active component then
               foldl (fun acc param =>
                        if decide (_number_of_elements param = 1) then
                          let limited := (false, false) in
                          let limits := (R0, R0) in
                          let '(limited, limits) :=
                            match bmin param with
                            | Some b => ((true, snd limited), (b, snd limits))
                            | None => (limited, limits)
                            end in
                          let '(limited, limits) :=
                            match bmax param with
                            | Some b => ((fst limited, true), (fst limits, b))
                            | None => (limited, limits)
                            end in
                          acc ++ [mkParInfo limited limits]
                        else acc)
                     acc (free_parameters component)
             else acc)
          [] (components m) in
  with_parinfo parinfo m.

End FreeParameters.

(** ** Model: the jacobian *)

Section Jacobian.
Context {R : Type} `{Arith R}.

(** [mapM]: the results of [f] on the elements of [l], in order, or the
    first exception. *)
Fixpoint traverse {A B : Type} (f : A -> result B) (l : list A)
  : result (list B) :=
  match l with
  | [] => Ok []
  | x :: l' => y ← f x; ys ← traverse f l'; Ok (y :: ys)
  end.

(** The array [grad] of [_jacobian]: one-dimensional until the first
    [np.vstack], two-dimensional afterwards. *)
Inductive GradArray : Type :=
  | Grad1 (row : list R)
  | Grad2 (rows : list (list R)).

(** [np.vstack((grad, par_grad))]: the new row has as many columns as the
    rows stacked so far. *)
Definition np_vstack (g : GradArray) (par_grad : list R) : result GradArray :=
  match g with
  | Grad1 row =>
      if decide (length row = length par_grad) then Ok (Grad2 [row; par_grad])
      else Raise ValueError
  | Grad2 rows =>
      if decide (length (default [] (head rows)) = length par_grad)
      then Ok (Grad2 (rows ++ [par_grad]))
      else Raise ValueError
  end.

(** [grad[1:, columns]]: two indices on a one-dimensional array are an
    [IndexError]. *)
Definition getitem_rows_from_1 (g : GradArray)
    (columns : list R -> result (list R)) : result (list (list R)) :=
  match g with
  | Grad1 _ => Raise IndexError
  | Grad2 rows => traverse columns (drop 1 rows)
  end.

(** [matrix * weights], or [matrix] when [weights is None]. *)
Definition times_weights (weights : option (list R)) (matrix : list (list R))
  : result (list (list R)) :=
  match weights with
  | None => Ok matrix
  | Some w => traverse (fun row => broadcast Rmul row w) matrix
  end.

(** One turn of [for parameter in parameter._twins]:
    [np.add(par_grad, parameter.grad(axis), par_grad)] writes the sum into
    the array [par_grad].  When [par_grad] is the array that
    [parameter.grad] was called with ([own] is [SameArray]), it is that
    array - the axis - whose samples are overwritten, and with it the array
    [grad] as long as [grad] is still that very array ([grad_is_axis],
    before the first [np.vstack]).  The state is [(axis, grad, par_grad)]. *)
Definition add_twin (eval : list R -> Param R -> result (GradResult R))
    (own : GradResult R) (grad_is_axis : bool)
    (state : list R * GradArray * list R) (parameter : Param R)
  : result (list R * GradArray * list R) :=
  let '(axis, grad_array, par_grad) := state in
  g ← eval axis parameter;
  sum ← np_add_out par_grad (array_of axis g);
  match own with
  | SameArray =>
      Ok (sum,
          match grad_array with
          | Grad1 _ => if grad_is_axis then Grad1 sum else grad_array
          | Grad2 _ => grad_array
          end,
          sum)
  | NewArray _ => Ok (axis, grad_array, sum)
  end.

(** The loop over [component.free_parameters] of [_jacobian]; [eval axis]
    is [parameter.grad] over the array with the samples [axis], convolved
    with the response in the branch of the convolved components.  The
    state is [(axis, grad)]: the samples of the array handed to
    [parameter.grad], which the sums of the twins may overwrite, and the
    array [grad]; [np.vstack] copies the rows it stacks. *)
Definition stack_parameter_rows
    (eval : list R -> Param R -> result (GradResult R)) (grad_is_axis : bool)
    (params : list (Param R)) (state : list R * GradArray)
  : result (list R * GradArray) :=
  for_each (fun '(axis, grad_array) parameter =>
              own ← eval axis parameter;
              '(axis, grad_array, par_grad) ←
                match _twins parameter with
                | [] => Ok (axis, grad_array, array_of axis own)
                | twins =>
                    for_each (add_twin eval own grad_is_axis) twins
                      (axis, grad_array, array_of axis own)
                end;
              grad_array ← np_vstack grad_array par_grad;
              Ok (axis, grad_array))
           params state.

(** [for component in self] of [_jacobian]: [charged] are the components
    already visited, [todo] the remaining ones; an active component is
    charged in place from its slice of [param] before its rows are built. *)
Fixpoint jacobian_loop
    (eval : Values R -> Component R -> list R -> Param R
            -> result (GradResult R))
    (grad_is_axis : bool)
    (param : list R) (charged todo : list (Component R)) (counter : nat)
    (state : list R * GradArray)
  : result (list (Component R) * (list R * GradArray)) :=
  match todo with
  | [] => Ok (charged, state)
  | component :: rest =>
      if active component then
        component' ←
          component_charge component
            (take (_nfree_param component) (drop counter param)) true;
        let vals := live_values (charged ++ component' :: rest) in
        state ← stack_parameter_rows (eval vals component') grad_is_axis
                  (free_parameters component') state;
        jacobian_loop eval grad_is_axis param (charged ++ [component']) rest
          (counter + _nfree_param component') state
      else jacobian_loop eval grad_is_axis param (charged ++ [component]) rest
             counter state
  end.

(** [parameter.grad] as evaluated in the convolved model: over the
    convolution axis and convolved with the response - [np.convolve] makes
    a new array - when the component of the loop is convolved, over
    [self.axis.axis], whose samples are [axis], otherwise. *)
Definition grad_convolved_model (m : Model R) (vals : Values R)
    (component : Component R) (axis : list R) (parameter : Param R)
  : result (GradResult R) :=
  if convolved component then
    conv_axis ← not_none (convolution_axis m);
    response ← low_loss_here m;
    par_grad ← np_convolve_valid
                 (array_of conv_axis (grad parameter vals conv_axis)) response;
    Ok (NewArray par_grad)
  else Ok (grad parameter vals axis).

(** [Model._jacobian(param, y, weights)]; [grad_array] is the local array
    [grad], and the result comes with the model as the call leaves it: its
    components charged and, in a convolved model, [self.axis.axis] with the
    samples written into it.  In a model without convolution the array
    handed to the gradients is the local copy [axis], and [grad] starts as
    that very array. *)
Definition _jacobian (m : Model R) (param : list R) (weights : option (list R))
  : result (list (list R) * Model R) :=
  if model_convolved m then
    let grad_array := Grad1 (np_zeros (length (axis (model_axis m)))) in
    '(cs, (axis, grad_array)) ←
      jacobian_loop (grad_convolved_model m) false param [] (components m) 0
        (axis (model_axis m), grad_array);
    matrix ← getitem_rows_from_1 grad_array
               (fun row => getitem_mask row (channel_switches m));
    matrix ← times_weights weights matrix;
    Ok (matrix, with_axis_samples axis (with_components cs m))
  else
    axis ← getitem_mask (axis (model_axis m)) (channel_switches m);
    let grad_array := Grad1 axis in
    '(cs, (_, grad_array)) ←
      jacobian_loop (fun vals _ axis parameter => Ok (grad parameter vals axis))
        true param [] (components m) 0 (axis, grad_array);
    matrix ← getitem_rows_from_1 grad_array (fun row => Ok row);
    matrix ← times_weights weights matrix;
    Ok (matrix, with_components cs m).

(** *** The rows of the specification

    The gradient of a parameter evaluated for a row owned by a convolved or
    a plain component, the row of a parameter with its direct twins added,
    and the rows of all the free parameters of the active components, in
    the order of [p0], each built from the live values in force once its
    component has been charged. *)
Definition evaluated_gradient (m : Model R) (plain_axis : list R)
    (vals : Values R) (owner_convolved : bool) (p : Param R)
  : result (list R) :=
  if owner_convolved then
    conv_axis ← not_none (convolution_axis m);
    response ← low_loss_here m;
    np_convolve_valid (array_of conv_axis (grad p vals conv_axis)) response
  else Ok (array_of plain_axis (grad p vals plain_axis)).

(** The parameter's own gradient plus, elementwise and one after the other,
    the gradient of each of its direct twins, all evaluated by [eval]. *)
Definition coupled_row (eval : Param R -> result (list R)) (p : Param R)
  : result (list R) :=
  own ← eval p;
  for_each (fun acc twin => g ← eval twin; np_add_out acc g) (_twins p) own.

Definition twin_coupled_row (m : Model R) (plain_axis : list R)
    (vals : Values R) (owner_convolved : bool) (p : Param R)
  : result (list R) :=
  coupled_row (evaluated_gradient m plain_axis vals owner_convolved) p.

Fixpoint charged_rows (m : Model R) (plain_axis : list R) (param : list R)
    (charged todo : list (Component R)) (counter : nat)
  : result (list (Component R) * list (Param R * list R)) :=
  match todo with
  | [] => Ok (charged, [])
  | c :: rest =>
      if active c then
        c' ← component_charge c (take (_nfree_param c) (drop counter param)) true;
        let vals := live_values (charged ++ c' :: rest) in
        rows ← traverse
                 (fun p =>
                    row ← twin_coupled_row m plain_axis vals
                            (model_convolved m && convolved c') p;
                    Ok (p, row))
                 (free_parameters c');
        '(cs, more) ← charged_rows m plain_axis param (charged ++ [c']) rest
                        (counter + _nfree_param c');
        Ok (cs, rows ++ more)
      else charged_rows m plain_axis param (charged ++ [c]) rest counter
  end.

(** A parameter with twins whose gradient never hands back the array it is
    given: the sums of the twins are then written into an array of their
    own, and no axis is overwritten. *)
Definition own_gradient_array (p : Param R) : Prop :=
  _twins p <> [] -> forall vals x, grad p vals x <> SameArray.

Definition gradients_unshared (m : Model R) : Prop :=
  forall c p, c ∈ components m -> p ∈ parameters c -> own_gradient_array p.

(** What the evaluation handed to the loop of [_jacobian] has to do with
    the gradients of the specification: the same samples, and the array
    of the axis only when the gradient hands it back. *)
Definition evaluates_gradients (m : Model R)
    (eval : Values R -> Component R -> list R -> Param R
            -> result (GradResult R)) : Prop :=
  (forall vals c x p,
     (r ← eval vals c x p; Ok (array_of x r))
     = evaluated_gradient m x vals (model_convolved m && convolved c) p)
  /\ (forall vals c x p,
        eval vals c x p = Ok SameArray -> grad p vals x = SameArray).

(** The jacobian in the words of the specification: every row evaluated
    over the whole axis of its component, the columns restricted to
    [channel_switches] afterwards, then the weights. *)
Definition jacobian_of_the_spec (m : Model R) (param : list R)
    (weights : option (list R)) : result (list (list R)) :=
  '(_, prs) ← charged_rows m (axis (model_axis m)) param [] (components m) 0;
  restricted ← traverse (fun row => getitem_mask row (channel_switches m))
                  (map snd prs);
  times_weights weights restricted.

(** The axis over which the plain gradients are evaluated: the axis
    restricted to [channel_switches] in a model without convolution (the
    restriction precedes the evaluation), the whole axis in a convolved
    model (the restriction follows). *)
Definition evaluation_axis (m : Model R) : list R :=
  if model_convolved m then axis (model_axis m)
  else select (channel_switches m) (axis (model_axis m)).

(** Restriction of the columns to [channel_switches], then the weights. *)
Definition restrict_and_weigh (m : Model R) (weights : option (list R))
    (rows : list (list R)) : result (list (list R)) :=
  restricted ← (if model_convolved m
                then traverse (fun row => getitem_mask row (channel_switches m))
                       rows
                else Ok rows);
  times_weights weights restricted.

(** What [np.vstack] has built once [rows] have been stacked on [g]. *)
Definition stacked (g : GradArray) (rows : list (list R)) : GradArray :=
  match g, rows with
  | Grad1 row, [] => Grad1 row
  | Grad1 row, _ => Grad2 (row :: rows)
  | Grad2 rs, _ => Grad2 (rs ++ rows)
  end.

(** The number of columns of the array [grad]. *)
Definition grad_width (g : GradArray) : nat :=
  match g with
  | Grad1 row => length row
  | Grad2 rows => length (default [] (head rows))
  end.

(** A two-dimensional [grad] has at least one row. *)
Definition grad_nonempty (g : GradArray) : Prop :=
  match g with
  | Grad2 [] => False
  | _ => True
  end.

End Jacobian.

Arguments GradArray R : clear implicits.

(** ** Effects: messages, files, the optimizer *)

(** [s.lower()] on the ASCII letters, [s.replace(' ', '_')], [s.endswith(t)]
    and [s[:-4]]. *)
Definition lower_ascii (a : Ascii.ascii) : Ascii.ascii :=
  let n := Ascii.nat_of_ascii a in
  if decide (65 <= n <= 90) then Ascii.ascii_of_nat (n + 32) else a.

Fixpoint lower (s : string) : string :=
  match s with
  | EmptyString => EmptyString
  | String a s' => String (lower_ascii a) (lower s')
  end.

Fixpoint replace_spaces (s : string) : string :=
  match s with
  | EmptyString => EmptyString
  | String a s' =>
      String (if Ascii.eqb a " "%char then "_"%char else a) (replace_spaces s')
  end.

Definition endswith (s suffix : string) : bool :=
  String.eqb
    (String.substring (String.length s - String.length suffix)
       (String.length suffix) s)
    suffix
  && (String.length suffix <=? String.length s).

Definition drop_last_4 (s : string) : string :=
  String.substring 0 (String.length s - 4) s.

(** Whether the character [_] occurs in a string. *)
Fixpoint has_underscore (s : string) : bool :=
  match s with
  | EmptyString => false
  | String a s' => Ascii.eqb a "_"%char || has_underscore s'
  end.

(** [np.ndindex(shape)]: all index tuples, the last index varying fastest. *)
Fixpoint ndindex (shape : list nat) : list (list nat) :=
  match shape with
  | [] => [[]]
  | n :: shape' => i ← seq 0 n; (fun index => i :: index) <$> ndindex shape'
  end.

(** A boolean array over the navigation positions. *)
Record Mask : Type := mkMask {
  mask_shape : list nat;
  mask_at : list nat -> bool
}.

(** [mask.sum()] *)
Definition mask_sum (mask : Mask) : nat :=
  length (filter (fun index => mask_at mask index = true)
                 (ndindex (mask_shape mask))).

Section Effects.
Context {R : Type} `{Arith R}.

(** An archive written by [np.savez]: one array per key. *)
Local Abbreviation Archive := (gmap string (gmap (list nat) (PValue R))).

Inductive FileContent : Type :=
  | EmptyFile
  | Npz (archive : Archive).

(** What the model does to the outside, in the order it happens. *)
Inductive Event : Type :=
  | UpdatePlot
  | Printed (text : string)
  | Information (text : string)
  | FatalWarning (text : string)
  | BoundariesSet
  | ParinfoSet
  | Charged (index : list nat) (only_fixed : bool)
  | FitCalled (index : list nat) (fitter : string) (grad_ : bool)
      (bounded : option bool)
  | Progress (i : nat)
  | ProgressFinished
  | Saved (path : string) (archive : Archive)
  | Removed (path : string).

(** The model together with the files, the names [tempfile.mkstemp] will
    choose ([cwd], [temp_token]) and the events so far. *)
Record World : Type := mkWorld {
  model : Model R;
  files : gmap string FileContent;
  cwd : string;
  temp_token : string;
  log : list Event
}.

Definition with_model (m : Model R) (w : World) : World :=
  mkWorld m (files w) (cwd w) (temp_token w) (log w).

Definition with_files (f : gmap string FileContent) (w : World) : World :=
  mkWorld (model w) f (cwd w) (temp_token w) (log w).

Definition with_log (l : list Event) (w : World) : World :=
  mkWorld (model w) (files w) (cwd w) (temp_token w) l.

(** A method with effects: it returns or raises, and leaves a world. *)
Definition M (A : Type) : Type := World -> result A * World.

#[global] Instance M_ret : MRet M := fun _ a w => (Ok a, w).
#[global] Instance M_bind : MBind M := fun _ _ f ma w =>
  match ma w with
  | (Ok a, w') => f a w'
  | (Raise e, w') => (Raise e, w')
  end.

Definition get_model : M (Model R) := fun w => (Ok (model w), w).
Definition put_model (m : Model R) : M unit := fun w => (Ok (), with_model m w).
Definition emit (e : Event) : M unit :=
  fun w => (Ok (), with_log (log w ++ [e]) w).
Definition raise {A : Type} (e : exn) : M A := fun w => (Raise e, w).
Definition lift {A : Type} (r : result A) : M A := fun w => (r, w).

(** [for x in l] with a loop state [s], in a method with effects. *)
Fixpoint for_each_M {A S : Type} (body : S -> A -> M S) (l : list A) (s : S)
  : M S :=
  match l with
  | [] => mret s
  | x :: l' => s' ← body s x; for_each_M body l' s'
  end.

(** [P] holds of the world at the start of every turn of the loop. *)
Fixpoint holds_during {A S : Type} (P : World -> Prop) (body : S -> A -> M S)
    (l : list A) (s : S) (w : World) : Prop :=
  match l with
  | [] => True
  | x :: l' =>
      P w /\ match body s x w with
             | (Ok s', w') => holds_during P body l' s' w'
             | (Raise _, _) => True
             end
  end.

(** [Q] holds of the loop state and the world at the end of every turn of
    the loop that returns. *)
Fixpoint holds_after {A S : Type} (Q : S -> World -> Prop)
    (body : S -> A -> M S) (l : list A) (s : S) (w : World) : Prop :=
  match l with
  | [] => True
  | x :: l' =>
      match body s x w with
      | (Ok s', w') => Q s' w' /\ holds_after Q body l' s' w'
      | (Raise _, _) => True
      end
  end.

(** Modelled from the spec: the module [messages] is missing from the
    sources.  [messages.information] reports a text to the user;
    [messages.warning_exit] reports a configuration error and leaves the
    operation at once. *)
Definition information (text : string) : M unit := emit (Information text).

Definition warning_exit {A : Type} (text : string) : M A :=
  _ ← emit (FatalWarning text); raise (SystemExit text).

(** [tempfile.mkstemp(prefix, dir, suffix)]: an empty file with a new name is
    created and its absolute path returned. *)
Definition mkstemp (prefix dir suffix : string) : M string := fun w =>
  let path := ((cwd w +:+ "/" +:+ prefix +:+ temp_token w) +:+ suffix)%string in
  (Ok path, with_files (<[path := EmptyFile]> (files w)) w).

(** [np.savez(filename, **kwds)]: [.npz] is appended to a name that does not
    end with it. *)
Definition savez_path (filename : string) : string :=
  if endswith filename ".npz" then filename else (filename +:+ ".npz")%string.

Definition np_savez (filename : string) (kwds : Archive) : M unit := fun w =>
  let path := savez_path filename in
  (Ok (), with_log (log w ++ [Saved path kwds])
            (with_files (<[path := Npz kwds]> (files w)) w)).

(** [os.remove(path)] *)
Definition os_remove (path : string) : M unit := fun w =>
  match files w !! path with
  | Some _ =>
      (Ok (), with_log (log w ++ [Removed path])
                (with_files (delete path (files w)) w))
  | None => (Raise IOError, w)
  end.

End Effects.

Abbreviation Archive R := (gmap string (gmap (list nat) (PValue R))).
Arguments FileContent R : clear implicits.
Arguments Event R : clear implicits.
Arguments World R : clear implicits.
Arguments M R A : clear implicits.

(** The mix-in [Optimizers] and the preferences: [fit] is the single-position
    fit, which returns the fitted model or raises. *)
Class Optimizers (R : Type) : Type := {
  fit : string -> bool -> option bool -> Model R -> result (Model R);
  default_fitter : string
}.

(** ** Model: plot connections, charge and store *)

Section Batches.
Context {R : Type} `{Arith R}.

Definition map_parameters (f : Param R -> Param R) (m : Model R) : Model R :=
  with_components
    (map (fun c => with_parameters (map f (parameters c)) c) (components m)) m.

(** [Model.connect_parameters2update_plot] *)
Definition connect_parameters2update_plot (m : Model R) : Model R :=
  map_parameters
    (fun p =>
       with_connection_active false
         (match spectrum_plot m with
          | Some _ => with_connected true p
          | None => p
          end))
    m.

(** [Model.set_auto_update_plot(tof)] *)
Definition set_auto_update_plot (tof : bool) (m : Model R) : Model R :=
  with_auto_update_plot tof (map_parameters (with_connection_active tof) m).

(** [Model.disconnect_parameters2update_plot] *)
Definition disconnect_parameters2update_plot (m : Model R) : Model R :=
  set_auto_update_plot false
    (map_parameters
       (fun p => with_connection_active false (with_connected false p)) m).

(** [Model.update_plot]: the lines of the plot are redrawn; when the redraw
    raises, the parameters are disconnected. *)
Definition update_plot : M R unit :=
  _ ← emit UpdatePlot;
  m ← get_model;
  match spectrum_plot m with
  | Some redraw_succeeds =>
      if redraw_succeeds then mret ()
      else put_model (disconnect_parameters2update_plot m)
  | None => mret ()
  end.

(** The parameter number [j] of the component number [i]. *)
Definition get_parameter (i j : nat) : M R (Param R) :=
  m ← get_model;
  match components m !! i with
  | Some c =>
      match parameters c !! j with
      | Some p => mret p
      | None => raise IndexError
      end
  | None => raise IndexError
  end.

Definition put_parameter (i j : nat) (p : Param R) : M R unit :=
  m ← get_model;
  match components m !! i with
  | Some c =>
      put_model
        (with_components
           (<[i := with_parameters (<[j := p]> (parameters c)) c]> (components m))
           m)
  | None => raise IndexError
  end.

(** Modelled from the spec: the class Parameter is missing from the
    sources.  Assigning [parameter.value] is a parameter change: the
    registered observer (the connected [update_plot]) is told, unless the
    connection of the parameter is suspended. *)
Definition assign_value (i j : nat) (v : PValue R) : M R unit :=
  p ← get_parameter i j;
  _ ← put_parameter i j (with_value v p);
  if connected p && connection_active p then update_plot else mret ().

(** Modelled from the spec: the class Component is missing from the
    sources.  [component.charge_value_from_map(indexes, only_fixed)] copies
    the Parameter values from [map[indexes]] into the live values, only
    those of the parameters that are not free when [only_fixed]. *)
Definition charge_value_from_map (indexes : list nat) (only_fixed : bool)
    (i : nat) : M R unit :=
  m ← get_model;
  match components m !! i with
  | Some c =>
      for_each_M (fun _ j =>
                    p ← get_parameter i j;
                    if only_fixed && free p then mret ()
                    else
                      match map_ p !! indexes with
                      | Some v => assign_value i j v
                      | None => raise IndexError
                      end)
                 (seq 0 (length (parameters c))) ()
  | None => raise IndexError
  end.

(** Modelled from the spec: the class Component is missing from the
    sources.  [component.store_current_parameters_in_map(indexes)] copies
    the live value of every Parameter into [map[indexes]]. *)
Definition store_current_parameters_in_map (indexes : list nat) (i : nat)
  : M R unit :=
  m ← get_model;
  match components m !! i with
  | Some c =>
      for_each_M (fun _ j =>
                    p ← get_parameter i j;
                    put_parameter i j
                      (with_map (<[indexes := value p]> (map_ p)) p))
                 (seq 0 (length (parameters c))) ()
  | None => raise IndexError
  end.

(** The loop [for component in self] of [Model.charge]. *)
Definition charge_components (only_fixed : bool) : M R unit :=
  m ← get_model;
  for_each_M (fun _ i => charge_value_from_map (_indexes m) only_fixed i)
             (seq 0 (length (components m))) ().

(** [Model.charge(only_fixed)] *)
Definition charge (only_fixed : bool) : M R unit :=
  m ← get_model;
  let switch_aap := auto_update_plot m in
  _ ← (if switch_aap then put_model (set_auto_update_plot false m) else mret ());
  _ ← charge_components only_fixed;
  if switch_aap then
    m ← get_model;
    _ ← put_model (set_auto_update_plot true m);
    update_plot
  else mret ().

(** The loop [for component in self] of [Model.set]. *)
Definition store_components : M R unit :=
  m ← get_model;
  for_each_M (fun _ i => store_current_parameters_in_map (_indexes m) i)
             (seq 0 (length (components m))) ().

(** [Model.set] *)
Definition set : M R unit := store_components.

(** Every connection is suspended. *)
Definition all_suspended (w : World R) : Prop :=
  forall c p, c ∈ components (model w) -> p ∈ parameters c ->
    connection_active p = false.

(** The connection flags of all parameters, component by component. *)
Definition connection_flags (m : Model R) : list (list bool) :=
  map (fun c => map connection_active (parameters c)) (components m).

(** With automatic updates switched off no connection is active: this is
    how [set_auto_update_plot], [connect_parameters2update_plot] and
    [disconnect_parameters2update_plot] leave the model. *)
Definition flags_consistent (m : Model R) : Prop :=
  auto_update_plot m = false ->
  forall c p, c ∈ components m -> p ∈ parameters c ->
    connection_active p = false.

(** What a batch may not touch: the connection flags, the switch, the
    events and the files. *)
Definition batch_frame (flags : list (list bool)) (switch : bool)
    (events : list (Event R)) (fs : gmap string (FileContent R))
    (w : World R) : Prop :=
  connection_flags (model w) = flags
  /\ auto_update_plot (model w) = switch
  /\ log w = events
  /\ files w = fs.

(** [I] is kept by the method [ma], whether it returns or raises. *)
Definition stable {A : Type} (I : World R -> Prop) (ma : M R A) : Prop :=
  forall w r w', I w -> ma w = (r, w') -> I w'.

(** The world in which the loop of [Model.charge] starts. *)
Definition charge_loop_start (w : World R) : World R :=
  if auto_update_plot (model w)
  then with_model (set_auto_update_plot false (model w)) w
  else w.

(** The observers are suspended for the whole duration of the charge batch,
    respectively of the store batch, over all components. *)
Definition suspended_during_charge (only_fixed : bool) (w : World R) : Prop :=
  let w1 := charge_loop_start w in
  holds_during all_suspended
    (fun _ i => charge_value_from_map (_indexes (model w1)) only_fixed i)
    (seq 0 (length (components (model w1)))) () w1.

Definition suspended_during_store (w : World R) : Prop :=
  holds_during all_suspended
    (fun _ i => store_current_parameters_in_map (_indexes (model w)) i)
    (seq 0 (length (components (model w)))) () w.

(** The number of notifications among some events. *)
Definition is_notification (e : Event R) : bool :=
  match e with UpdatePlot => true | _ => false end.

Definition notifications (events : list (Event R)) : nat :=
  length (filter (fun e => is_notification e = true) events).

End Batches.

(** ** Model: saving the parameter maps and the dataset-wide fit *)

(** [str(l)] for a list of naturals and [np.cumprod(shape)[-1]]. *)
Fixpoint join_with (sep : string) (l : list string) : string :=
  match l with
  | [] => ""
  | [x] => x
  | x :: l' => x +:+ sep +:+ join_with sep l'
  end.

Definition str_list (l : list nat) : string :=
  "[" +:+ join_with ", " (pretty <$> l) +:+ "]".

Definition cumprod_last (shape : list nat) : result nat :=
  match shape with
  | [] => Raise IndexError
  | _ => Ok (foldl Nat.mul 1 shape)
  end.

Section Multifit.
Context {R : Type} `{Arith R} `{Optimizers R}.

(** The key ['%s_%s.%s' % (i, cname, pname)] of a parameter map. *)
Definition archive_key (i : nat) (component_name parameter_name : string)
  : string :=
  pretty i +:+ "_" +:+ replace_spaces (lower component_name)
  +:+ "." +:+ replace_spaces (lower parameter_name).

(** The dictionary [kwds] of [save_parameters2file]; the loop state is
    [(i, kwds)]. *)
Definition parameter_archive (m : Model R) : Archive R :=
  snd (foldl (fun '(i, kwds) component =>
                (i + 1,
                 foldl (fun kwds param =>
                          <[archive_key i (comp_name component) (name param)
                            := map_ param]> kwds)
                       kwds (parameters component)))
             (0, ∅) (components m)).

(** [Model.save_parameters2file(filename)] *)
Definition save_parameters2file (filename : string) : M R unit :=
  m ← get_model; np_savez filename (parameter_archive m).

(** The first lines of [multifit]: the default fitter and, with autosaving,
    the temporary file; the result is [(fitter, autosave_fn)]. *)
Definition multifit_start (fitter : option string) (autosave : bool)
    (autosave_every : nat) : M R (string * string) :=
  fitter ← match fitter with
           | None =>
               _ ← emit (Printed ("Fitter: " +:+ default_fitter));
               mret default_fitter
           | Some f => mret f
           end;
  autosave_fn ←
    (if autosave then
       path ← mkstemp "hyperspy_autosave-" "." ".npz";
       let autosave_fn := drop_last_4 path in
       _ ← information ("Autosaving each " +:+ pretty autosave_every
                        +:+ " pixels to " +:+ autosave_fn +:+ ".npz");
       _ ← information "When multifit finishes its job the file will be deleted";
       mret autosave_fn
     else mret "");
  mret (fitter, autosave_fn).

(** The check of the shape of the mask. *)
Definition check_mask (mask : option Mask) : M R unit :=
  m ← get_model;
  match mask with
  | Some mk =>
      if decide (mask_shape mk <> navigation_shape m) then
        warning_exit
          ("The mask must be an array with the same espatial dimensions as the"
           +:+ "navigation shape, " +:+ str_list (navigation_shape m))
      else mret ()
  | None => mret ()
  end.

(** The text of the advice given when the fitter does not support bounds. *)
Definition bounding_advisory : string :=
  "The chosen fitter does not suppport bounding."
  +:+ "If you require boundinig please select one of the following"
  +:+ "fitters instead: mpfit, tnc, l_bfgs_b".

(** The choice of the bounding mode: the value of [bounded] handed to [fit]
    is [None] once the boundaries or the parameter info are in place,
    [False] otherwise. *)
Definition select_bounding (fitter : string) (bounded : bool)
  : M R (option bool) :=
  if bounded then
    if decide (fitter = "mpfit") then
      m ← get_model;
      _ ← put_model (set_mpfit_parameters_info m);
      _ ← emit ParinfoSet;
      mret None
    else if decide (fitter = "tnc" \/ fitter = "l_bfgs_b") then
      m ← get_model;
      _ ← put_model (set_boundaries m);
      _ ← emit BoundariesSet;
      mret None
    else
      _ ← information bounding_advisory;
      mret (Some false)
  else mret (Some false).

(** [self.fit(fitter, grad, bounded)] at the current position. *)
Definition fit_here (index : list nat) (fitter : string) (grad_ : bool)
    (bounded : option bool) : M R unit :=
  _ ← emit (FitCalled index fitter grad_ bounded);
  m ← get_model;
  m' ← lift (fit fitter grad_ bounded m);
  put_model m'.

(** Modelled from the spec: the axes manager is missing from the sources;
    [set_not_slicing_indexes(index)] makes [index] the current position of
    the navigation cursor. *)
Definition set_not_slicing_indexes (index : list nat) : M R unit :=
  m ← get_model; put_model (with_indexes index m).

(** One turn of the loop over the positions; [i] counts the fitted ones. *)
Definition fit_position (mask : option Mask) (fitter : string)
    (charge_only_fixed grad_ autosave : bool) (autosave_every : nat)
    (bounded : option bool) (autosave_fn : string) (i : nat)
    (index : list nat) : M R nat :=
  i ← (if match mask with None => true | Some mk => negb (mask_at mk index) end
       then
         _ ← set_not_slicing_indexes index;
         _ ← emit (Charged index charge_only_fixed);
         _ ← charge charge_only_fixed;
         _ ← fit_here index fitter grad_ bounded;
         let i := i + 1 in
         _ ← emit (Progress i);
         mret i
       else mret i);
  _ ← (if autosave then
         if decide (autosave_every = 0) then raise ZeroDivisionError
         else if decide (i mod autosave_every = 0)
              then save_parameters2file autosave_fn
              else mret ()
       else mret ());
  mret i.

(** [Model.multifit] *)
Definition multifit (mask : option Mask) (fitter : option string)
    (charge_only_fixed grad_ autosave : bool) (autosave_every : nat)
    (bounded : bool) : M R unit :=
  '(fitter, autosave_fn) ← multifit_start fitter autosave autosave_every;
  _ ← check_mask mask;
  m ← get_model;
  let masked_elements :=
    match mask with None => 0 | Some mk => mask_sum mk end in
  maxval ← lift (total ← cumprod_last (navigation_shape m);
                 Ok (total - masked_elements));
  bounded ← select_bounding fitter bounded;
  _ ← for_each_M (fit_position mask fitter charge_only_fixed grad_ autosave
                    autosave_every bounded autosave_fn)
         (ndindex (navigation_shape m)) 0;
  _ ← emit ProgressFinished;
  if autosave then
    _ ← information ("Deleting the temporary file " +:+ autosave_fn +:+ "npz"
                     +:+ " pixels");
    os_remove (autosave_fn +:+ ".npz")
  else mret ().

(** The fitter kinds that support bounds, the fitter [multifit] uses, the
    value of [bounded] it hands to [fit] and the events of its choice. *)
Definition supports_bounds (fitter : string) : Prop :=
  fitter = "mpfit" \/ fitter = "tnc" \/ fitter = "l_bfgs_b".

Definition resolve_fitter (fitter : option string) : string :=
  default default_fitter fitter.

Definition chosen_bounding (fitter : string) (bounded : bool) : option bool :=
  if bounded then
    if decide (fitter = "mpfit") then None
    else if decide (fitter = "tnc" \/ fitter = "l_bfgs_b") then None
    else Some false
  else Some false.

Definition bounding_events (fitter : string) (bounded : bool)
  : list (Event R) :=
  if bounded then
    if decide (fitter = "mpfit") then [ParinfoSet]
    else if decide (fitter = "tnc" \/ fitter = "l_bfgs_b") then [BoundariesSet]
    else [Information bounding_advisory]
  else [].

(** The events of the lines of [multifit] that precede the choice of the
    bounding mode, and those that follow the loop. *)
Definition message_event (e : Event R) : Prop :=
  match e with
  | Printed _ | Information _ | FatalWarning _ => True
  | _ => False
  end.

Definition finish_event (e : Event R) : Prop :=
  match e with
  | ProgressFinished | Information _ | Removed _ => True
  | _ => False
  end.

(** An invariant that does not look at the model and survives the events
    of the class [E]. *)
Definition closed_under (E : Event R -> Prop) (I : World R -> Prop) : Prop :=
  (forall w m, I w -> I (with_model m w))
  /\ (forall w e, E e -> I w -> I (with_log (log w ++ [e]) w)).

(** Since the events [before], only events of the class [E] happened. *)
Definition logged (E : Event R -> Prop) (before : list (Event R))
    (w : World R) : Prop :=
  exists new, log w = before ++ new /\ Forall E new.

(** The events of the loop over the positions, for the given arguments of
    [fit] and the given checkpoint file. *)
Definition position_event (fitter : string) (grad_ : bool)
    (bounded : option bool) (checkpoint : string) (e : Event R) : Prop :=
  match e with
  | UpdatePlot | Charged _ _ | Progress _ => True
  | FitCalled _ f g b => f = fitter /\ g = grad_ /\ b = bounded
  | Saved path _ => path = checkpoint
  | _ => False
  end.

(** The events that tell the bounding mode was set up. *)
Definition bounding_event (e : Event R) : bool :=
  match e with
  | BoundariesSet | ParinfoSet => true
  | _ => false
  end.

(** The events of a position that is charged or fitted. *)
Definition charge_or_fit_event (e : Event R) : bool :=
  match e with
  | Charged _ _ | FitCalled _ _ _ _ => true
  | _ => false
  end.

(** The path of the temporary file of [multifit] and the name handed to
    [save_parameters2file]. *)
Definition checkpoint_name (w : World R) : string :=
  cwd w +:+ "/" +:+ "hyperspy_autosave-" +:+ temp_token w.

Definition checkpoint_path (w : World R) : string :=
  checkpoint_name w +:+ ".npz".

(** The names of the parameters of a component, as they appear in the
    keys of the archive, are pairwise different. *)
Definition distinct_parameter_names (c : Component R) : Prop :=
  NoDup ((fun p => replace_spaces (lower (name p))) <$> parameters c).

End Multifit.

(** ** Edge: construction (src/eelslab/components/edge.py) *)

(** [s.split('_')] *)
Fixpoint split_underscore_go (s current : string) : list string :=
  match s with
  | EmptyString => [String.rev current]
  | String a s' =>
      if Ascii.eqb a "_"%char
      then String.rev current :: split_underscore_go s' ""
      else split_underscore_go s' (String a current)
  end.

Definition split_underscore (s : string) : list string :=
  split_underscore_go s "".

Definition newline : string := String (Ascii.ascii_of_nat 10) "".

(** [str(keys)] for a list of strings *)
Definition str_keys (keys : list string) : string :=
  "[" +:+ join_with ", " ((fun k => "'" +:+ k +:+ "'") <$> keys) +:+ "]".

(** [os.path.join(directory, filename)] *)
Definition os_path_join (directory filename : string) : string :=
  if String.prefix "/" filename then filename
  else if endswith directory "/" || String.eqb directory "" then
         directory +:+ filename
       else directory +:+ "/" +:+ filename.

Section EdgeConstruction.
Context {R : Type}.

(** One subshell of [edges_dict[element]['subshells']]. *)
Record Subshell : Type := mkSubshell {
  onset_energy : R;
  factor : R;
  filename : string
}.

(** What the construction reads from outside: [defaults.GOS_dir], the
    database [edges_dict] (element, then subshell) and the files. *)
Record EdgeEnvironment : Type := mkEdgeEnvironment {
  GOS_dir : string;
  edges_dict : gmap string (gmap string Subshell);
  gos_files : gmap string string
}.

(** What the sources do not show of the construction.  [component_init] is
    [Component.__init__]; [initial_values] stands for the assignments of the
    initial values (lines 72 to 92): whether assigning [fs_state] and
    [fs_emax] runs the setters of the properties of Edge, and so
    [setfslist] before [knots_factor] and [edgeenergy] exist, hangs on the
    base class, which is missing; [parse_gos] reads the tabulated cross
    section out of the text of the file and [integrategos] integrates it.
    Each of them returns or raises. *)
Class EdgeBase : Type := {
  GosTable : Type;
  component_init : list string -> result unit;
  initial_values : string -> string -> R -> R -> result unit;
  parse_gos : string -> result GosTable;
  integrategos : GosTable -> R -> R -> result GosTable
}.

Context `{EdgeBase}.

Record Edge : Type := mkEdge {
  edge_name : string;
  element : string;
  subshell : string;
  edgeenergy : R;
  subshell_factor : R;
  gos : GosTable
}.

(** Modelled from the spec: the module [messages] is missing from the
    sources; [messages.warning_exit] reports a configuration error and
    leaves at once. *)
Definition edge_warning_exit {A : Type} (text : string) : result A :=
  Raise (SystemExit text).

Definition gos_dir_message : string :=
  "The path to the GOS files could not be found." +:+ newline
  +:+ "Please define a valid GOS folder location in the configuration"
  +:+ " file.".

(** The subshell in the nomenclature of the tables. *)
Definition gatan_subshell (subshell : string) : string :=
  if String.eqb subshell "K" then "K1" else subshell.

(** [Edge.readgosfile]: the result is the onset energy, the factor of the
    subshell and the table read from the file. *)
Definition readgosfile (env : EdgeEnvironment) (element subshell : string)
  : result (R * R * GosTable) :=
  let subshell := gatan_subshell subshell in
  entry ←
    match edges_dict env !! element with
    | None =>
        edge_warning_exit
          ("The given element " +:+ element +:+ " is not in the database.")
    | Some subshells =>
        match subshells !! subshell with
        | None =>
            edge_warning_exit
              ("The given subshell " +:+ subshell
               +:+ " is not in the database." +:+ newline
               +:+ "The available subshells are:" +:+ newline
               +:+ str_keys (fst <$> map_to_list subshells))
        | Some entry => Ok entry
        end
    end;
  let file := os_path_join (GOS_dir env) (filename entry) in
  text ← match gos_files env !! file with
         | Some text => Ok text
         | None => Raise IOError
         end;
  table ← parse_gos text;
  Ok (onset_energy entry, factor entry, table).

(** [Edge.__init__(element_subshell, intensity, delta)] *)
Definition Edge_init (env : EdgeEnvironment) (element_subshell : string)
    (intensity delta : R) : result Edge :=
  _ ← (if String.eqb (GOS_dir env) "None"
       then edge_warning_exit gos_dir_message
       else Ok ());
  _ ← component_init ["delta"; "intensity"; "fslist"; "effective_angle"];
  '(element, subshell) ←
    match split_underscore element_subshell with
    | [element; subshell] => Ok (element, subshell)
    | _ => Raise ValueError
    end;
  _ ← initial_values element subshell intensity delta;
  '(edgeenergy, subshell_factor, table) ← readgosfile env element subshell;
  table ← integrategos table edgeenergy delta;
  Ok (mkEdge element_subshell element subshell edgeenergy subshell_factor table).

End EdgeConstruction.

Arguments Subshell R : clear implicits.
Arguments EdgeEnvironment R : clear implicits.
Arguments EdgeBase R : clear implicits.

(** ** A small model over the integers

    The two-component model of the specification - an offset [c] and a
    linear term [a*x] - with a third, inactive component, a twin of [a], a
    response of two samples and three navigation positions. *)

#[global] Instance Z_arith : Arith Z :=
  {| R0 := 0%Z; Radd := Z.add; Rsub := Z.sub; Rmul := Z.mul |}.

Module Example.

(** the live scalar value of parameter [j] of component [i] *)
Definition scalar_at (vals : Values Z) (i j : nat) : Z :=
  match vals !! i with
  | Some row => match row !! j with Some (Scalar x) => x | _ => 0%Z end
  | None => 0%Z
  end.

Definition maps_of (a b c : Z) : gmap (list nat) (PValue Z) :=
  {[ [0] := Scalar a; [1] := Scalar b; [2] := Scalar c ]}.

(** a twin of [a]: its gradient is twice the axis *)
Definition twin_t : Param Z :=
  mkParameter "t" (Scalar 6%Z) false 1 None None (BoundsPair None None)
    (fun _ x => NewArray (map (fun xi => 2 * xi)%Z x)) [] false false
    (maps_of 6 6 6).

Definition param_c : Param Z :=
  mkParameter "c" (Scalar 5%Z) true 1 None None (BoundsPair None None)
    (fun _ x => NewArray (map (fun _ => 1%Z) x)) [] false false
    (maps_of 5 7 9).

Definition param_a : Param Z :=
  mkParameter "a" (Scalar 3%Z) true 1 (Some 0%Z) None
    (BoundsPair (Some 0%Z) None)
    (fun _ x => NewArray x) [twin_t] false false (maps_of 3 4 5).

Definition param_w : Param Z :=
  mkParameter "w" (Vector [1%Z; 2%Z]) true 2 None None
    (BoundsList [(None, None); (None, None)])
    (fun _ x => NewArray (map (fun _ => 0%Z) x)) [] false false
    (maps_of 0 0 0).

Definition offset_component : Component Z :=
  mkComponent "Offset" true false [param_c]
    (fun vals x => map (fun _ => scalar_at vals 0 0) x).

Definition line_component : Component Z :=
  mkComponent "Line" true true [param_a; twin_t]
    (fun vals x => map (fun xi => scalar_at vals 1 0 * xi)%Z x).

Definition idle_component : Component Z :=
  mkComponent "Idle" false false [param_w]
    (fun _ x => map (fun _ => 100%Z) x).

Definition model_axis0 : DataAxis Z := mkDataAxis [0; 1; 2; 3]%Z 4 1%Z 0%Z.

(** the model before a low-loss spectrum is attached *)
Definition plain_model : Model Z :=
  mkModel [offset_component; line_component; idle_component] false false
    model_axis0 [3] [0] [true; true; false; true] None None None None None None.

Definition response : LowLoss Z := mkLowLoss (fun _ => [1; 2]%Z) 2 0.

(** the same model with the response attached through the setter *)
Definition convolved_model : Model Z :=
  match set_low_loss (Some response) plain_model with
  | Ok m => m
  | Raise _ => plain_model
  end.

(** a model whose only active component has no free parameter *)
Definition fixed_model : Model Z :=
  mkModel [mkComponent "Fixed" true false [twin_t] (fun _ x => x);
           idle_component]
    false false model_axis0 [3] [0] [true; true; true; true]
    None None None None None None.

(** the model once it is plotted with automatic updates *)
Definition plotted_model : Model Z :=
  set_auto_update_plot true
    (connect_parameters2update_plot
       (mkModel [offset_component; line_component; idle_component] false false
          model_axis0 [3] [0] [true; true; false; true] None None None None
          None (Some true))).

Definition world_of (m : Model Z) : World Z := mkWorld m ∅ "/data" "k3x9qa" [].

(** a mask that skips the middle position, and one of a wrong shape *)
Definition skip_middle : Mask :=
  mkMask [3] (fun index => bool_decide (index = [1])).

Definition wrong_mask : Mask := mkMask [2; 2] (fun _ => false).

(** the optimizer used in the examples assembles [p0]; the fitter named
    [broken] fails *)
#[global] Instance optimizers : Optimizers Z := {|
  fit := fun fitter _ _ m =>
           if String.eqb fitter "broken" then Raise FitError else _set_p0 m;
  default_fitter := "leastsq"
|}.

(** a database with iron and its subshell L3 *)
Definition environment : EdgeEnvironment Z :=
  mkEdgeEnvironment "/gos"
    {[ "Fe" := {[ "L3" := mkSubshell 708%Z 1%Z "Fe.L3" ]} ]}
    {[ "/gos/Fe.L3" := "table" ]}.

Definition unset_environment : EdgeEnvironment Z :=
  mkEdgeEnvironment "None" ∅ ∅.

#[global] Instance edge_base : EdgeBase Z := {|
  GosTable := list Z;
  component_init := fun _ => Ok ();
  initial_values := fun _ _ _ _ => Ok ();
  parse_gos := fun _ => Ok [];
  integrategos := fun table _ _ => Ok table
|}.

End Example.

(** ** Model: the range of channels used by the fit *)

Section DataRange.
Context {R : Type} `{Arith R}.

Definition with_channel_switches (switches : list bool) (m : Model R)
  : Model R :=
  mkModel (components m) (model_convolved m) (auto_update_plot m)
    (model_axis m) (navigation_shape m) (_indexes m) switches (_low_loss m)
    (convolution_axis m) (free_parameters_boundaries m) (mpfit_parinfo m)
    (p0 m) (spectrum_plot m).

(** One end of the slice [i1:i2] over [n] elements: [None] is the default
    end, a negative index counts from the end, and both are clipped to the
    array. *)
Definition slice_bound (default : nat) (i : option Z) (n : nat) : nat :=
  match i with
  | None => default
  | Some i =>
      if decide (i < 0)%Z then Z.to_nat (i + Z.of_nat n)
      else Nat.min (Z.to_nat i) n
  end.

Definition slice_start (i1 : option Z) (n : nat) : nat := slice_bound 0 i1 n.
Definition slice_stop (i2 : option Z) (n : nat) : nat := slice_bound n i2 n.

(** [a[i1:i2] = v] for a boolean array and a scalar [v]. *)
Definition setitem_slice (i1 i2 : option Z) (v : bool) (a : list bool)
  : list bool :=
  let n := length a in
  imap (fun k b =>
          if decide (slice_start i1 n <= k < slice_stop i2 n) then v else b)
       a.

(** The common end of the methods that change the range. *)
Definition update_plot_if_auto : M R unit :=
  m ← get_model;
  if auto_update_plot m then update_plot else mret ().

(** [Model.set_data_range_in_pixels(i1, i2)]; the result is the copy kept
    in [backup_channel_switches]. *)
Definition set_data_range_in_pixels (i1 i2 : option Z) : M R (list bool) :=
  m ← get_model;
  let backup_channel_switches := channel_switches m in
  let switches := setitem_slice None None false (channel_switches m) in
  let switches := setitem_slice i1 i2 true switches in
  _ ← put_model (with_channel_switches switches m);
  _ ← update_plot_if_auto;
  mret backup_channel_switches.

(** [Model.remove_data_range_in_pixels(i1, i2)] *)
Definition remove_data_range_in_pixels (i1 i2 : option Z) : M R unit :=
  m ← get_model;
  _ ← put_model
        (with_channel_switches (setitem_slice i1 i2 false (channel_switches m))
           m);
  update_plot_if_auto.

(** [Model.add_data_range_in_pixels(i1, i2)] *)
Definition add_data_range_in_pixels (i1 i2 : option Z) : M R unit :=
  m ← get_model;
  _ ← put_model
        (with_channel_switches (setitem_slice i1 i2 true (channel_switches m))
           m);
  update_plot_if_auto.

(** [Model.reset_data_range] *)
Definition reset_data_range : M R (list bool) :=
  set_data_range_in_pixels None None.

(** [Model.reset_the_data_range] *)
Definition reset_the_data_range : M R unit :=
  m ← get_model;
  _ ← put_model
        (with_channel_switches
           (setitem_slice None None true (channel_switches m)) m);
  update_plot_if_auto.

(** The channels [start <= k < stop] of the slice [i1:i2] over [n]. *)
Definition in_slice (i1 i2 : option Z) (n k : nat) : bool :=
  bool_decide (slice_start i1 n <= k < slice_stop i2 n).

(** The events of a change of the range. *)
Definition range_events (m : Model R) : list (Event R) :=
  if auto_update_plot m then [UpdatePlot] else [].

End DataRange.

(** ** Model: the list of components *)

(** What the sources do not show of Component: [create_arrays] allocates the
    maps for a navigation shape and [set_axes] binds the axes manager, given
    here by the navigation shape and the current position.  Each returns
    the component as it leaves it, or raises. *)
Class ComponentArrays (R : Type) : Type := {
  create_arrays : list nat -> Component R -> result (Component R);
  set_axes : list nat -> list nat -> Component R -> result (Component R)
}.

Section Components.
Context {R : Type} `{Arith R} `{ComponentArrays R}.

(** [Model._touch] *)
Definition _touch (m : Model R) : Model R := connect_parameters2update_plot m.

(** The two calls that [append], [insert] and [extend] make on an object
    before it enters the list. *)
Definition prepare (m : Model R) (object : Component R)
  : result (Component R) :=
  object ← create_arrays (navigation_shape m) object;
  set_axes (navigation_shape m) (_indexes m) object.

(** [Model.append(object)] *)
Definition append (object : Component R) (m : Model R) : result (Model R) :=
  object ← prepare m object;
  Ok (_touch (with_components (components m ++ [object]) m)).

(** [Model.extend(iterable)] *)
Definition extend (iterable : list (Component R)) (m : Model R)
  : result (Model R) :=
  objects ← traverse (prepare m) iterable;
  Ok (_touch (with_components (components m ++ objects) m)).

(** The position that an integer index names in a list of [n] elements. *)
Definition list_index (index : Z) (n : nat) : result nat :=
  let i := if decide (index < 0)%Z then (index + Z.of_nat n)%Z else index in
  if decide (0 <= i < Z.of_nat n)%Z then Ok (Z.to_nat i) else Raise IndexError.

(** [Model.__delitem__(index)] for an integer index. *)
Definition __delitem__ (index : Z) (m : Model R) : result (Model R) :=
  i ← list_index index (length (components m));
  Ok (_touch (with_components (delete i (components m)) m)).

(** No parameter of the model is connected to the plot. *)
Definition none_connected (m : Model R) : Prop :=
  forall c p, c ∈ components m -> p ∈ parameters c ->
    connected p = false /\ connection_active p = false.

End Components.

(** ** Model: what the bounded fitters are handed *)

Section BoundsInfo.
Context {R : Type} `{Arith R}.

(** The dictionary that [set_mpfit_parameters_info] builds for a parameter:
    a limit is set where the parameter has a bound, and is [0] otherwise. *)
Definition parameter_info (p : Param R) : ParInfo R :=
  mkParInfo (bool_decide (is_Some (bmin p)), bool_decide (is_Some (bmax p)))
            (default R0 (bmin p), default R0 (bmax p)).

(** What [set_boundaries] adds to the list for a parameter: [_bounds] is
    appended for a parameter of one element, and its items otherwise. *)
Definition boundary_entries (p : Param R) : list (BoundEntry R) :=
  if decide (_number_of_elements p = 1) then
    [match _bounds p with
     | BoundsPair lo hi => EntryPair lo hi
     | BoundsList l => EntryList l
     end]
  else
    match _bounds p with
    | BoundsPair lo hi => [EntryAtom lo; EntryAtom hi]
    | BoundsList l => map (fun b => EntryPair (fst b) (snd b)) l
    end.

(** [_bounds] of a free parameter of several elements is a list with one
    pair per element. *)
Definition bounds_per_element (m : Model R) : Prop :=
  forall p, p ∈ active_free_parameters m -> _number_of_elements p <> 1 ->
    exists l, _bounds p = BoundsList l /\ length l = _number_of_elements p.

End BoundsInfo.

(** ** Exceptions beyond those of [exn] *)

(** The operations below also fail where an attribute, a key or a local
    variable is missing. *)
Inductive error : Type :=
  | Builtin (e : exn)
  | AttributeError
  | KeyError
  | UnboundLocalError.

Inductive outcome (A : Type) : Type :=
  | Returns (a : A)
  | Fails (e : error).
Arguments Returns {A} a.
Arguments Fails {A} e.

#[global] Instance outcome_ret : MRet outcome := fun _ a => Returns a.
#[global] Instance outcome_bind : MBind outcome := fun _ _ f r =>
  match r with Returns a => f a | Fails e => Fails e end.

Definition of_result {A : Type} (r : result A) : outcome A :=
  match r with Ok a => Returns a | Raise e => Fails (Builtin e) end.

(** Reading an attribute that has to have been assigned before. *)
Definition getattr {A : Type} (o : option A) : outcome A :=
  match o with Some a => Returns a | None => Fails AttributeError end.

(** ** Model: charging the vector of the free parameters *)

Section ChargeP0.
Context {R : Type} `{Arith R}.

(** [seq[counter : counter + n]] *)
Definition slice_from (counter n : nat) (l : list R) : list R :=
  take n (drop counter l).

(** The loop of [Model._charge_p0(p_std)]: [charged] are the components
    already visited and [handed_std] the slices of [p_std] handed to the
    active ones so far; [p0] is read when an active component is met. *)
Fixpoint charge_p0_loop (p0 p_std : option (list R))
    (charged todo : list (Component R)) (counter : nat)
    (handed_std : list (option (list R)))
  : outcome (list (Component R) * list (option (list R))) :=
  match todo with
  | [] => Returns (charged, handed_std)
  | component :: rest =>
      if active component then
        let comp_p_std :=
          slice_from counter (_nfree_param component) <$> p_std in
        p ← getattr p0;
        component' ←
          of_result
            (component_charge component
               (slice_from counter (_nfree_param component) p) true);
        charge_p0_loop p0 p_std (charged ++ [component']) rest
          (counter + _nfree_param component') (handed_std ++ [comp_p_std])
      else charge_p0_loop p0 p_std (charged ++ [component]) rest counter
             handed_std
  end.

(** [Model._charge_p0(p_std)]; the result is the model with its components
    charged, and the standard deviations each active component was handed. *)
Definition _charge_p0 (p_std : option (list R)) (m : Model R)
  : outcome (Model R * list (option (list R))) :=
  '(cs, handed_std) ← charge_p0_loop (p0 m) p_std [] (components m) 0 [];
  Returns (with_components cs m, handed_std).

(** The value of a parameter has the shape its element count tells: a
    number for one element, a list of that many numbers otherwise. *)
Definition value_shaped (p : Param R) : Prop :=
  match value p with
  | Scalar _ => _number_of_elements p = 1
  | Vector l => _number_of_elements p <> 1 /\ length l = _number_of_elements p
  end.

Definition values_shaped (m : Model R) : Prop :=
  forall c p, c ∈ components m -> p ∈ parameters c -> value_shaped p.

End ChargeP0.

(** ** Model: the function handed to the optimizers *)

(** What the sources do not show of Component: calling a component with a
    sequence of values and an axis, [component(p, x)].  The call sees the
    live values of the model and returns an array, leaving the component as
    the second result, or raises. *)
Class ComponentCall (R : Type) `{Arith R} : Type := {
  component_call :
    Values R -> Component R -> list R -> list R ->
    result (list R * Component R)
}.

Section ModelFunction.
Context {R : Type} `{Arith R} `{!ComponentCall R}.

(** The loop of the convolved branch of [_model_function]; the state is
    [(counter, sum_convolved, sum)] and [charged] are the components
    already visited. *)
Fixpoint model_function_convolved_loop (param conv_axis plain_axis : list R)
    (charged todo : list (Component R)) (st : nat * list R * list R)
  : result (list (Component R) * (nat * list R * list R)) :=
  match todo with
  | [] => Ok (charged, st)
  | component :: rest =>
      if active component then
        let '(counter, sum_convolved, sum) := st in
        let vals := live_values (charged ++ component :: rest) in
        let p := slice_from counter (_nfree_param component) param in
        if convolved component then
          '(y, component') ← component_call vals component p conv_axis;
          s ← np_add_out sum_convolved y;
          model_function_convolved_loop param conv_axis plain_axis
            (charged ++ [component']) rest
            (counter + _nfree_param component', s, sum)
        else
          '(y, component') ← component_call vals component p plain_axis;
          s ← np_add_out sum y;
          model_function_convolved_loop param conv_axis plain_axis
            (charged ++ [component']) rest
            (counter + _nfree_param component', sum_convolved, s)
      else
        model_function_convolved_loop param conv_axis plain_axis
          (charged ++ [component]) rest st
  end.

(** The loop of the other branch; the state is [(counter, sum)], where
    [sum] is unassigned ([None]) exactly as long as [first] is [True]. *)
Fixpoint model_function_plain_loop (param axis : list R)
    (charged todo : list (Component R)) (st : nat * option (list R))
  : result (list (Component R) * (nat * option (list R))) :=
  match todo with
  | [] => Ok (charged, st)
  | component :: rest =>
      if active component then
        let '(counter, sum) := st in
        let vals := live_values (charged ++ component :: rest) in
        let p := slice_from counter (_nfree_param component) param in
        '(y, component') ← component_call vals component p axis;
        s ← match sum with
            | None => Ok y
            | Some s => np_add_out s y
            end;
        model_function_plain_loop param axis (charged ++ [component']) rest
          (counter + _nfree_param component', Some s)
      else
        model_function_plain_loop param axis (charged ++ [component]) rest st
  end.

(** [Model._model_function(param)]; the second result is the model with
    the components as the calls have left them. *)
Definition _model_function (m : Model R) (param : list R)
  : outcome (list R * Model R) :=
  if model_convolved m then
    conv_axis ← of_result (not_none (convolution_axis m));
    let sum_convolved := np_zeros (length conv_axis) in
    let sum := np_zeros (length (axis (model_axis m))) in
    '(cs, (counter, sum_convolved, sum)) ←
      of_result
        (model_function_convolved_loop param conv_axis (axis (model_axis m))
           [] (components m) (0, sum_convolved, sum));
    response ← of_result (low_loss_here m);
    conv ← of_result (np_convolve_valid response sum_convolved);
    total ← of_result (broadcast Radd sum conv);
    to_return ← of_result (getitem_mask total (channel_switches m));
    Returns (to_return, with_components cs m)
  else
    axis ← of_result (getitem_mask (axis (model_axis m)) (channel_switches m));
    '(cs, (counter, sum)) ←
      of_result (model_function_plain_loop param axis [] (components m) (0, None));
    match sum with
    | Some s => Returns (s, with_components cs m)
    | None => Fails UnboundLocalError
    end.

(** [Model._function4odr(param, x)] and [Model._jacobian4odr(param, x)] *)
Definition _function4odr (m : Model R) (param x : list R)
  : outcome (list R * Model R) :=
  _model_function m param.

Definition _jacobian4odr (m : Model R) (param x : list R)
  : result (list (list R) * Model R) :=
  _jacobian m param None.

End ModelFunction.

(** ** Model: loading the parameter maps *)

Section Loading.
Context {R : Type} `{Arith R}.

(** A method with effects that may also fail with an [error]. *)
Definition MX (A : Type) : Type := World R -> outcome A * World R.

#[global] Instance MX_ret : MRet MX := fun _ a w => (Returns a, w).
#[global] Instance MX_bind : MBind MX := fun _ _ f ma w =>
  match ma w with
  | (Returns a, w') => f a w'
  | (Fails e, w') => (Fails e, w')
  end.

Definition of_M {A : Type} (ma : M R A) : MX A := fun w =>
  match ma w with (r, w') => (of_result r, w') end.

Definition fail {A : Type} (e : error) : MX A := fun w => (Fails e, w).

Fixpoint for_each_MX {A S : Type} (body : S -> A -> MX S) (l : list A) (s : S)
  : MX S :=
  match l with
  | [] => mret s
  | x :: l' => s' ← body s x; for_each_MX body l' s'
  end.

(** [np.load(filename)]: the name is opened as it is given; a file that is
    missing or that holds no archive is an [IOError]. *)
Definition np_load (filename : string) : MX (Archive R) := fun w =>
  match files w !! filename with
  | Some (Npz archive) => (Returns archive, w)
  | Some EmptyFile => (Fails (Builtin IOError), w)
  | None => (Fails (Builtin IOError), w)
  end.

(** The inner loop of [load_parameters_from_file]: every parameter of the
    component number [i] gets the array stored under its key. *)
Definition load_component_maps (f : Archive R) (i : nat) : MX unit :=
  m ← of_M get_model;
  match components m !! i with
  | Some c =>
      for_each_MX
        (fun _ j =>
           p ← of_M (get_parameter i j);
           match f !! archive_key i (comp_name c) (name p) with
           | Some mp => of_M (put_parameter i j (with_map mp p))
           | None => fail KeyError
           end)
        (seq 0 (length (parameters c))) ()
  | None => fail (Builtin IndexError)
  end.

(** [Model.load_parameters_from_file(filename)] *)
Definition load_parameters_from_file (filename : string) : MX unit :=
  f ← np_load filename;
  m ← of_M get_model;
  _ ← for_each_MX (fun _ i => load_component_maps f i)
        (seq 0 (length (components m))) ();
  of_M (charge false).

End Loading.

Arguments MX R A : clear implicits.

(** ** Model: the positions that the dataset-wide fit visits *)

Section FittedPositions.
Context {R : Type} `{Arith R}.

(** The positions for which [fit] has been called, in the order of the
    calls. *)
Definition fitted_positions (events : list (Event R)) : list (list nat) :=
  omap (fun e => match e with
                 | FitCalled index _ _ _ => Some index
                 | _ => None
                 end) events.

(** [mask is None or not mask[index]] *)
Definition is_unmasked (mask : option Mask) (index : list nat) : bool :=
  match mask with None => true | Some mk => negb (mask_at mk index) end.

(** The positions of a navigation shape that the mask lets through, in the
    order of [np.ndindex]. *)
Definition unmasked_positions (mask : option Mask) (shape : list nat)
  : list (list nat) :=
  filter (fun index => is_unmasked mask index = true) (ndindex shape).

End FittedPositions.

(** ** Lines of a spectrum figure (src/hyperspy/drawing/spectrum.py) *)

Section Drawing.
(** [Colour], [Axis], [Manager] and [Axes] are the colours, the axis arrays,
    the axes managers and the matplotlib axes; [Data] is what a line's
    [data_function] is. *)
Context {Colour Axis Manager Axes Data : Type}.

(** A value of the dictionary [line_properties]. *)
Inductive PropertyValue : Type :=
  | Text (s : string)
  | Number (n : Z)
  | NoValue
  | AColour (c : Colour).

(** [SpectrumLine]; an attribute that has not been assigned is [None]. *)
Record SpectrumLine : Type := mkSpectrumLine {
  data_function : option Data;
  line_axis : option Axis;
  line_axes_manager : option Manager;
  auto_update : bool;
  line_properties : gmap string PropertyValue;
  line_autoscale : bool;
  line_ax : option Axes;
  line_blit : option bool
}.

(** [SpectrumLine.__init__] *)
Definition SpectrumLine_init : SpectrumLine :=
  mkSpectrumLine None None None true ∅ true None None.

Definition with_line_properties (lp : gmap string PropertyValue)
    (l : SpectrumLine) : SpectrumLine :=
  mkSpectrumLine (data_function l) (line_axis l) (line_axes_manager l)
    (auto_update l) lp (line_autoscale l) (line_ax l) (line_blit l).

(** [SpectrumLine.line_properties_helper(color, type)] *)
Definition line_properties_helper (color : Colour) (type : string)
    (l : SpectrumLine) : SpectrumLine :=
  let lp := line_properties l in
  if String.eqb type "scatter" then
    let lp := <["marker" := Text "o"]> lp in
    let lp := <["linestyle" := Text "None"]> lp in
    let lp := <["markersize" := Number 1]> lp in
    let lp := <["markeredgecolor" := AColour color]> lp in
    with_line_properties lp l
  else if String.eqb type "line" then
    let lp := <["color" := AColour color]> lp in
    let lp := <["linestyle" := Text "-"]> lp in
    let lp := <["marker" := NoValue]> lp in
    with_line_properties lp l
  else if String.eqb type "step" then
    let lp := <["color" := AColour color]> lp in
    let lp := <["drawstyle" := Text "steps"]> lp in
    with_line_properties lp l
  else l.

(** The keys that [line_properties_helper] assigns for a type. *)
Definition assigned_properties (type : string) : list string :=
  if String.eqb type "scatter"
  then ["marker"; "linestyle"; "markersize"; "markeredgecolor"]
  else if String.eqb type "line" then ["color"; "linestyle"; "marker"]
  else if String.eqb type "step" then ["color"; "drawstyle"]
  else [].

End Drawing.

Arguments PropertyValue Colour : clear implicits.
Arguments SpectrumLine Colour Axis Manager Axes Data : clear implicits.

(** ** Model: the curve handed to the plot *)

Section ModelToPlot.
Context {R : Type} `{Arith R}.

(** The items of [a] where [mask] is on replaced, in order, by the items
    of [v]. *)
Fixpoint scatter (mask : list bool) (a v : list R) : list R :=
  match mask, a with
  | b :: mask', x :: a' =>
      if b then
        match v with
        | y :: v' => y :: scatter mask' a' v'
        | [] => x :: scatter mask' a' []
        end
      else x :: scatter mask' a' v
  | _, _ => a
  end.

(** [a[mask] = v] with a boolean array [mask] of the length of [a]: [v] has
    one item for each item to replace, or a single item for all of them. *)
Definition setitem_mask (a : list R) (mask : list bool) (v : list R)
  : result (list R) :=
  if decide (length mask = length a) then
    if decide (length v = count_true mask) then Ok (scatter mask a v)
    else match v with
         | [x] => Ok (scatter mask a (replicate (count_true mask) x))
         | _ => Raise ValueError
         end
  else Raise IndexError.

(** The axes manager of a model is its navigation shape and its current
    position. *)
Definition with_axes_manager (manager : list nat * list nat) (m : Model R)
  : Model R :=
  mkModel (components m) (model_convolved m) (auto_update_plot m)
    (model_axis m) (fst manager) (snd manager) (channel_switches m)
    (_low_loss m) (convolution_axis m) (free_parameters_boundaries m)
    (mpfit_parinfo m) (p0 m) (spectrum_plot m).

(** [Model._model2plot(axes_manager, out_of_range2nans)]; [axes_manager] is
    [None] when it is the axes manager of the model itself, and [nan] is
    [np.nan]. *)
Definition _model2plot (nan : R) (axes_manager : option (list nat * list nat))
    (out_of_range2nans : bool) : M R (list R) :=
  m ← get_model;
  old_axes_manager ←
    match axes_manager with
    | Some manager =>
        _ ← put_model (with_axes_manager manager m);
        _ ← charge false;
        mret (Some (navigation_shape m, _indexes m))
    | None => mret None
    end;
  m ← get_model;
  s ← lift (__call__ m false true);
  _ ← match old_axes_manager with
      | Some manager =>
          m ← get_model;
          _ ← put_model (with_axes_manager manager m);
          charge false
      | None => mret ()
      end;
  if out_of_range2nans then
    m ← get_model;
    let ns := replicate (length (axis (model_axis m))) nan in
    lift (setitem_mask ns (channel_switches m) s)
  else mret s.

End ModelToPlot.

(** ** Edge: the fine structure (src/eelslab/components/edge.py) *)

(** Division, the conversion of an integer and [int(round(x))] on the
    carrier; each may raise, as in Python. *)
Class Numeric (R : Type) : Type := {
  Rdiv : R -> R -> result R;
  of_int : Z -> R;
  round_int : R -> result Z
}.

Section FineStructure.
Context {R : Type} `{Arith R} `{Numeric R}.

(** A numpy array of any dimension: its shape and its items. *)
Record NdArray : Type := mkNdArray {
  nd_shape : list Z;
  nd_item : list Z -> R
}.

(** [np.zeros(shape)]: a negative dimension is refused. *)
Definition np_zeros_nd (shape : list Z) : result NdArray :=
  if decide (Forall (fun d => 0 <= d)%Z shape)
  then Ok (mkNdArray shape (fun _ => R0))
  else Raise ValueError.

(** [np.linspace(start, stop, num)]: nothing for [num <= 0], [start] alone
    for [num = 1], and otherwise [num] samples [k * step + start], the last
    one being replaced by [stop]. *)
Definition np_linspace (start stop : R) (num : Z) : result (list R) :=
  if decide (num <= 0)%Z then Ok []
  else if decide (num = 1)%Z then Ok [start]
  else
    step ← Rdiv (Rsub stop start) (of_int (num - 1));
    Ok (map (fun k => Radd (Rmul (of_int (Z.of_nat k)) step) start)
            (seq 0 (Z.to_nat num - 1))
        ++ [stop]).

(** [a[2:-2]] *)
Definition inner_items (a : list R) : list R :=
  take (length a - 4) (drop 2 a).

(** The attributes of an Edge that the fine structure uses.  [fs_emax] is
    what reading [self.fs_emax] gives, [fslist_*] are the attributes of the
    Parameter [fslist], and [knots] is [self.__knots], unassigned until
    [calculate_knots] has run. *)
Record FineStructure : Type := mkFineStructure {
  fs_edgeenergy : R;
  fs_delta_value : R;
  fs_emax : R;
  fs_knots_factor : R;
  fs_dispersion : R;
  fslist_number_of_elements : Z;
  fslist_bmin : option R;
  fslist_bmax : option R;
  fslist_value : list R;
  fslist_map : option NdArray;
  fslist_std_map : option NdArray;
  knots : option (list R)
}.

(** [Edge.edge_position] *)
Definition edge_position (e : FineStructure) : R :=
  Radd (fs_edgeenergy e) (fs_delta_value e).

(** [Edge.calculate_knots] *)
Definition calculate_knots (e : FineStructure) : result FineStructure :=
  let start := Radd (fs_edgeenergy e) (fs_delta_value e) in
  let stop := Radd start (fs_emax e) in
  samples ← np_linspace start stop (fslist_number_of_elements e);
  Ok (mkFineStructure (fs_edgeenergy e) (fs_delta_value e) (fs_emax e)
        (fs_knots_factor e) (fs_dispersion e) (fslist_number_of_elements e)
        (fslist_bmin e) (fslist_bmax e) (fslist_value e) (fslist_map e)
        (fslist_std_map e)
        (Some (replicate 4 start ++ inner_items samples ++ replicate 4 stop))).

(** [Edge.setfslist] *)
Definition setfslist (e : FineStructure) : result FineStructure :=
  x ← Rdiv (Rmul (fs_knots_factor e) (fs_emax e)) (fs_dispersion e);
  rounded ← round_int x;
  let n := (rounded + 4)%Z in
  value ← (if decide (n < 0)%Z then Raise ValueError
           else Ok (replicate (Z.to_nat n) R0));
  e ← calculate_knots
        (mkFineStructure (fs_edgeenergy e) (fs_delta_value e) (fs_emax e)
           (fs_knots_factor e) (fs_dispersion e) n None None value
           (fslist_map e) (fslist_std_map e) (knots e));
  match fslist_map e with
  | Some mp =>
      let xy_shape := take 2 (nd_shape mp) in
      new_map ← np_zeros_nd (xy_shape ++ [n]);
      new_std_map ← np_zeros_nd (xy_shape ++ [n]);
      Ok (mkFineStructure (fs_edgeenergy e) (fs_delta_value e) (fs_emax e)
            (fs_knots_factor e) (fs_dispersion e)
            (fslist_number_of_elements e) (fslist_bmin e) (fslist_bmax e)
            (fslist_value e) (Some new_map) (Some new_std_map) (knots e))
  | None => Ok e
  end.

(** What [np.loadtxt] returns for a column of numbers: the result is
    squeezed, so a single number comes back as an array without dimension;
    a file without data is an [IOError]. *)
Inductive Loaded : Type :=
  | Unsized (x : R)
  | Column (values : list R).

Definition np_loadtxt (files : gmap string (list R)) (filename : string)
  : result Loaded :=
  match files !! filename with
  | None => Raise IOError
  | Some [] => Raise IOError
  | Some [x] => Ok (Unsized x)
  | Some values => Ok (Column values)
  end.

(** [Edge.fslist_to_txt(filename)]: [np.savetxt] writes one value a line. *)
Definition fslist_to_txt (filename : string) (e : FineStructure)
    (files : gmap string (list R)) : gmap string (list R) :=
  <[(filename +:+ ".dat")%string := fslist_value e]> files.

(** The text of the error of [txt_to_fslist]. *)
Definition fine_structure_message : string :=
  "The provided fine structure file "
  +:+ "doesn't match the size of the current fine structure".

(** [Edge.txt_to_fslist(filename)] *)
Definition txt_to_fslist (filename : string) (files : gmap string (list R))
    (e : FineStructure) : result FineStructure :=
  fs ← np_loadtxt files filename;
  e ← calculate_knots e;
  current ← not_none (knots e);
  values ← match fs with
           | Unsized _ => Raise TypeError
           | Column values => Ok values
           end;
  if decide (length values = length current) then
    Ok (mkFineStructure (fs_edgeenergy e) (fs_delta_value e) (fs_emax e)
          (fs_knots_factor e) (fs_dispersion e) (fslist_number_of_elements e)
          (fslist_bmin e) (fslist_bmax e) values (fslist_map e)
          (fslist_std_map e) (knots e))
  else edge_warning_exit fine_structure_message.

End FineStructure.

Arguments NdArray R : clear implicits.
Arguments FineStructure R : clear implicits.
Arguments Loaded R : clear implicits.

(** The number of characters [_] in a string. *)
Fixpoint count_underscores (s : string) : nat :=
  match s with
  | EmptyString => 0
  | String a s' =>
      (if Ascii.eqb a "_"%char then 1 else 0) + count_underscores s'
  end.

(** ** Further small models over the integers *)

Module Cases.

(** the plotted model of [Example] when redrawing its lines fails *)
Definition failing_plot_model : Model Z :=
  set_auto_update_plot true
    (connect_parameters2update_plot
       (mkModel [Example.offset_component; Example.line_component;
                 Example.idle_component]
          false false Example.model_axis0 [3] [0] [true; true; false; true]
          None None None None None (Some false))).

(** a model with an active free parameter of two elements *)
Definition wide_component : Component Z :=
  mkComponent "Wide" true false [Example.param_w]
    (fun _ x => map (fun _ => 0%Z) x).

Definition wide_model : Model Z :=
  mkModel [Example.offset_component; wide_component] false false
    Example.model_axis0 [3] [0] [true; true; true; true]
    None None None None None None.

(** a model none of whose components is active *)
Definition idle_model : Model Z :=
  mkModel [Example.idle_component] false false Example.model_axis0 [3] [0]
    [true; true; false; true] None None None None None None.

(** calling a component charges its free parameters, then evaluates it *)
#[global] Instance component_calls : ComponentCall Z := {|
  component_call := fun vals c p x =>
    c' ← component_charge c p true; Ok (function c' vals x, c')
|}.

(** integer division, as Python has it on integers, and an edge whose fine
    structure spans 30 eV with a dispersion of 10 *)
#[global] Instance Z_numeric : Numeric Z := {|
  Rdiv := fun x y =>
    if decide (y = 0%Z) then Raise ZeroDivisionError else Ok (x / y)%Z;
  of_int := fun k => k;
  round_int := fun x => Ok x
|}.

Definition fine_structure : FineStructure Z :=
  mkFineStructure 708%Z 0%Z 30%Z 1%Z 10%Z 0%Z None None [] None None None.

(** a model whose only component returns an array of a wrong length *)
Definition ragged_model : Model Z :=
  mkModel [mkComponent "Ragged" true false [Example.param_c]
             (fun _ _ => [1; 2]%Z)]
    false false Example.model_axis0 [3] [0] [true; true; true; true]
    None None None None None None.

(** a component two of whose parameters have the same name once it is
    put in lower case with underscores for spaces *)
Definition clashing_model : Model Z :=
  mkModel
    [mkComponent "Peak" true false
       [mkParameter "A b" (Scalar 1%Z) true 1 None None (BoundsPair None None)
          (fun _ x => NewArray x) [] false false (Example.maps_of 1 1 1);
        mkParameter "a_b" (Scalar 2%Z) true 1 None None (BoundsPair None None)
          (fun _ x => NewArray x) [] false false (Example.maps_of 2 2 2)]
       (fun _ x => x)]
    false false Example.model_axis0 [3] [0] [true; true; true; true]
    None None None None None None.

(** a parameter whose gradient measures from the first channel it is
    given, with the twin [t], in a model without convolution whose first
    channel is switched off *)
Definition param_d : Param Z :=
  mkParameter "d" (Scalar 3%Z) true 1 None None (BoundsPair None None)
    (fun _ x => NewArray (map (fun xi => xi - default 0 (head x))%Z x))
    [Example.twin_t] false false (Example.maps_of 3 3 3).

Definition masked_model : Model Z :=
  mkModel [mkComponent "Ramp" true false [param_d; Example.twin_t]
             (fun _ x => x)]
    false false Example.model_axis0 [3] [0] [false; true; true; true]
    None None None None None None.

(** two parameters whose gradient is the axis itself, handed back as the
    very array it was given; the first has the twin [t] *)
Definition param_s : Param Z :=
  mkParameter "s" (Scalar 3%Z) true 1 None None (BoundsPair None None)
    (fun _ _ => SameArray) [Example.twin_t] false false
    (Example.maps_of 3 3 3).

Definition param_u : Param Z :=
  mkParameter "u" (Scalar 4%Z) true 1 None None (BoundsPair None None)
    (fun _ _ => SameArray) [] false false (Example.maps_of 4 4 4).

Definition shared_model : Model Z :=
  mkModel [mkComponent "Slopes" true false [param_s; param_u] (fun _ x => x)]
    false false Example.model_axis0 [3] [0] [true; true; true; true]
    None None None None None None.

(** the example model, plotted, with automatic updates off but every
    parameter connected and its connection active *)
Definition stray_model : Model Z :=
  map_parameters
    (fun p => with_connection_active true (with_connected true p))
    (mkModel [Example.offset_component; Example.line_component;
              Example.idle_component]
       false false Example.model_axis0 [3] [0] [true; true; false; true]
       None None None None None (Some true)).

End Cases.

(** * Properties *)

(** ** Shapes of one-dimensional arrays *)

Section ArrayShapes.
Context {R : Type} `{Arith R}.

Lemma length_np_zeros (n : nat) : length (np_zeros n) = n.
Proof. apply length_replicate. Qed.

Lemma np_add_out_length (x y s : list R) :
  np_add_out x y = Ok s -> length s = length x.
Proof.
  unfold np_add_out. case_decide as Hl.
  - intros [= <-]. rewrite length_zip_with. lia.
  - destruct y as [|b [|]]; try discriminate.
    intros [= <-]. apply length_map.
Qed.

Lemma np_add_out_same (x y : list R) :
  length y = length x -> np_add_out x y = Ok (zip_with Radd x y).
Proof. intros Hl. unfold np_add_out. by rewrite decide_True. Qed.

Lemma np_add_out_raises (x y : list R) (e : exn) :
  np_add_out x y = Raise e -> e = ValueError.
Proof.
  unfold np_add_out. case_decide; [done|].
  destruct y as [|b [|]]; congruence.
Qed.

Lemma select_length (switches : list bool) (v : list R) :
  length switches = length v ->
  length (select switches v) = count_true switches.
Proof.
  unfold count_true. revert v.
  induction switches as [|b sw IH]; intros [|x v]; try done.
  intros [= Hl]. destruct b; cbn [select].
  - rewrite filter_cons_True by done. cbn [length]. f_equal. by apply IH.
  - rewrite filter_cons_False by done. by apply IH.
Qed.

Lemma getitem_mask_length (v s : list R) (switches : list bool) :
  getitem_mask v switches = Ok s -> length s = count_true switches.
Proof.
  unfold getitem_mask. case_decide; [|done].
  intros [= <-]. by apply select_length.
Qed.

Lemma getitem_mask_same (v : list R) (switches : list bool) :
  length switches = length v -> getitem_mask v switches = Ok (select switches v).
Proof. intros Hl. unfold getitem_mask. by rewrite decide_True. Qed.

Lemma correlate_valid_length (a w : list R) :
  length (correlate_valid a w) = length a - length w + 1.
Proof. unfold correlate_valid. by rewrite length_map, length_seq. Qed.

Lemma np_convolve_valid_length (a v s : list R) :
  np_convolve_valid a v = Ok s ->
  length s = max (length a) (length v) - min (length a) (length v) + 1.
Proof.
  unfold np_convolve_valid. case_decide as Hl.
  - destruct v as [|y v]; [simpl in Hl; lia|].
    destruct a as [|x a]; [done|].
    intros [= <-]. rewrite correlate_valid_length, length_reverse. lia.
  - destruct a as [|x a]; [done|]. destruct v as [|y v]; [done|].
    intros [= <-]. rewrite correlate_valid_length, length_reverse. lia.
Qed.

Lemma np_convolve_valid_ok (a v : list R) :
  a <> [] -> v <> [] -> exists s, np_convolve_valid a v = Ok s.
Proof.
  intros Ha Hv. unfold np_convolve_valid.
  case_decide; destruct a, v; try done; eauto.
Qed.

Lemma broadcast_same (op : R -> R -> R) (x y : list R) :
  length x = length y -> broadcast op x y = Ok (zip_with op x y).
Proof. intros Hl. unfold broadcast. by rewrite decide_True. Qed.

Lemma broadcast_length (op : R -> R -> R) (x y s : list R) :
  broadcast op x y = Ok s -> length x = length y -> length s = length x.
Proof.
  intros Hb Hl. rewrite broadcast_same in Hb by done.
  injection Hb as <-. rewrite length_zip_with. lia.
Qed.

End ArrayShapes.

(** ** Evaluation of the model *)

Section EvaluationProperties.
Context {R : Type} `{Arith R}.

Lemma accumulate_raises vals x cs acc e :
  accumulate vals x cs acc = Raise e -> e = ValueError.
Proof.
  revert acc. induction cs as [|c cs IH]; intros acc; [done|].
  unfold accumulate in *. cbn [for_each].
  destruct (np_add_out acc (function c vals x)) as [s|e'] eqn:Hadd; cbn.
  - apply IH.
  - intros [= <-]. by eapply np_add_out_raises.
Qed.

Lemma accumulate_length vals x cs acc s :
  accumulate vals x cs acc = Ok s -> length s = length acc.
Proof.
  revert acc. induction cs as [|c cs IH]; intros acc.
  - by intros [= <-].
  - unfold accumulate in *. cbn [for_each].
    destruct (np_add_out acc (function c vals x)) as [s'|e'] eqn:Hadd; cbn; [|done].
    intros Hrest. rewrite (IH _ Hrest). by eapply np_add_out_length.
Qed.

End EvaluationProperties.

Section CallProperties.
Context {R : Type} `{Arith R}.
Implicit Types (m : Model R) (cs : list (Component R)) (vals : Values R).

(** The loop of the convolved branch, restricted to active components, is
    the pair of the two accumulations over the convolved and over the
    non-convolved active components. *)
Lemma convolved_loop_split vals conv_axis plain_axis cs counter sc s :
  for_each (fun st component =>
              if active component
              then add_component vals conv_axis plain_axis component st
              else Ok st)
           cs (counter, sc, s)
  = match accumulate vals conv_axis
            (filter (fun c => active c = true /\ convolved c = true) cs) sc,
          accumulate vals plain_axis
            (filter (fun c => active c = true /\ convolved c = false) cs) s
    with
    | Ok sc', Ok s' =>
        Ok (counter + sum_list_with _nfree_param
                        (filter (fun c => active c = true) cs), sc', s')
    | _, _ => Raise ValueError
    end.
Proof.
  revert counter sc s. induction cs as [|c cs IH]; intros counter sc s.
  - cbn. by rewrite Nat.add_0_r.
  - cbn [for_each]. destruct (active c) eqn:Hact.
    + rewrite (filter_cons_True (fun c => active c = true)) by done.
      unfold add_component. destruct (convolved c) eqn:Hconv.
      * rewrite (filter_cons_True (fun c => _ /\ convolved c = true)) by done.
        rewrite (filter_cons_False (fun c => _ /\ convolved c = false))
          by (intros [_ ?]; congruence).
        unfold accumulate at 1. cbn [for_each]. fold (accumulate vals conv_axis).
        destruct (np_add_out sc (function c vals conv_axis)) as [sc1|e] eqn:Hadd;
          cbn; [|by rewrite (np_add_out_raises _ _ _ Hadd)].
        rewrite IH. cbn [sum_list_with]. by rewrite Nat.add_assoc.
      * rewrite (filter_cons_False (fun c => _ /\ convolved c = true))
          by (intros [_ ?]; congruence).
        rewrite (filter_cons_True (fun c => _ /\ convolved c = false)) by done.
        unfold accumulate at 2. cbn [for_each]. fold (accumulate vals plain_axis).
        destruct (np_add_out s (function c vals plain_axis)) as [s1|e] eqn:Hadd;
          cbn.
        -- rewrite IH. cbn [sum_list_with]. by rewrite Nat.add_assoc.
        -- rewrite (np_add_out_raises _ _ _ Hadd).
           by destruct (accumulate vals conv_axis _ sc).
    + rewrite !filter_cons_False by first [congruence | intros [? _]; congruence].
      cbn. apply IH.
Qed.

(** C1.  When convolution is configured and evaluation is restricted to the
    active components, the model evaluation is: the elementwise sum of
    [function] over the plain axis of the active non-convolved components,
    plus the valid convolution of the instrument response with the
    elementwise sum of [function] over the convolution axis of the active
    convolved components, the total restricted to [channel_switches].  The
    equality includes the cases in which the evaluation raises. *)
Theorem call_convolved_composition m :
  model_convolved m = true ->
  __call__ m false true = convolved_composition m.
Proof.
  intros Hconv. unfold __call__, convolved_composition.
  rewrite Hconv. cbn [negb orb].
  destruct (convolution_axis m) as [conv_axis|]; [|done]. cbn.
  rewrite convolved_loop_split. unfold sum_of_functions.
  destruct (accumulate _ conv_axis _ _) as [sc|e1] eqn:Hsc; cbn.
  - destruct (accumulate _ (axis (model_axis m)) _ _) as [s|e2] eqn:Hs; cbn.
    + done.
    + by rewrite (accumulate_raises _ _ _ _ _ Hs).
  - by rewrite (accumulate_raises _ _ _ _ _ Hsc).
Qed.

End CallProperties.

(** ** Loops *)

Section Loops.
Context {A S : Type}.
Implicit Types (body : S -> A -> result S) (P : S -> Prop).

Lemma for_each_cons body x l s :
  for_each body (x :: l) s = (s' ← body s x; for_each body l s').
Proof. done. Qed.

Lemma for_each_invariant body P l s s' :
  (forall s x s', P s -> body s x = Ok s' -> P s') ->
  P s -> for_each body l s = Ok s' -> P s'.
Proof.
  intros Hstep. revert s. induction l as [|x l IH]; intros s Hs.
  - by intros [= <-].
  - cbn [for_each]. destruct (body s x) as [s1|e] eqn:Hb; cbn; [|done].
    apply IH. by eapply Hstep.
Qed.

Lemma for_each_total body P l s :
  (forall s x, x ∈ l -> P s -> exists s', body s x = Ok s' /\ P s') ->
  P s -> exists s', for_each body l s = Ok s' /\ P s'.
Proof.
  revert s. induction l as [|x l IH]; intros s Hstep Hs.
  - by exists s.
  - cbn [for_each].
    destruct (Hstep s x) as (s1 & -> & Hs1); [left|done|]. cbn.
    apply IH; [|done]. intros s2 y Hy. apply Hstep. by right.
Qed.

Lemma for_each_app body l1 l2 s :
  for_each body (l1 ++ l2) s = s' ← for_each body l1 s; for_each body l2 s'.
Proof.
  revert s. induction l1 as [|x l1 IH]; intros s; [done|].
  cbn [for_each app]. destruct (body s x); cbn; [apply IH|done].
Qed.

Lemma for_each_ext body1 body2 l s :
  (forall s x, body1 s x = body2 s x) ->
  for_each body1 l s = for_each body2 l s.
Proof.
  intros Hext. revert s. induction l as [|x l IH]; intros s; [done|].
  cbn [for_each]. rewrite Hext. destruct (body2 s x); cbn; [apply IH|done].
Qed.

End Loops.

Section CallShape.
Context {R : Type} `{Arith R}.
Implicit Types (m : Model R) (cs : list (Component R)) (vals : Values R).

Lemma add_component_shape vals conv_axis plain_axis c n sc s n' sc' s' :
  add_component vals conv_axis plain_axis c (n, sc, s) = Ok (n', sc', s') ->
  length sc' = length sc /\ length s' = length s.
Proof.
  unfold add_component. destruct (convolved c).
  - destruct (np_add_out sc _) as [r|] eqn:Hadd; cbn; [|done].
    intros [= _ <- <-]. split; [by eapply np_add_out_length|done].
  - destruct (np_add_out s _) as [r|] eqn:Hadd; cbn; [|done].
    intros [= _ <- <-]. split; [done|by eapply np_add_out_length].
Qed.

(** C2.  For a mask [channel_switches] over the spectral axis and a
    convolution axis of model-axis-length + response-length - 1 samples, the
    vector returned by the model evaluation, non-convolved or convolved, has
    as many samples as [channel_switches] has [True] entries; and the
    evaluation does return a vector when every component yields one sample
    per point and, in the convolved case, the axis and the response are not
    empty. *)
Theorem call_length m non_convolved onlyactive :
  length (channel_switches m) = length (axis (model_axis m)) ->
  convolution_axis_spans m ->
  (forall v, __call__ m non_convolved onlyactive = Ok v ->
             length v = count_true (channel_switches m))
  /\ (functions_pointwise m ->
      (model_convolved m = true -> non_convolved = false ->
       axis (model_axis m) <> [] /\
       exists conv_axis response,
         convolution_axis m = Some conv_axis /\
         low_loss_here m = Ok response /\ response <> []) ->
      exists v, __call__ m non_convolved onlyactive = Ok v).
Proof.
  intros Hmask Hspan. unfold __call__.
  destruct (negb (model_convolved m) || non_convolved) eqn:Hbranch.
  - (* plain evaluation over the selected channels *)
    rewrite getitem_mask_same by done. cbn.
    set (ax := select (channel_switches m) (axis (model_axis m))).
    assert (Hax : length ax = count_true (channel_switches m))
      by by apply select_length.
    split.
    + intros v Hv. rewrite <- Hax.
      rewrite <- (length_np_zeros (length ax)).
      destruct onlyactive.
      * eapply (for_each_invariant _ (fun s => length s = length (np_zeros (length ax))));
          [|done|exact Hv].
        intros s c s' Hs. cbn beta. destruct (active c).
        -- intros Hadd. by rewrite (np_add_out_length _ _ _ Hadd).
        -- by intros [= <-].
      * eapply (for_each_invariant _ (fun s => length s = length (np_zeros (length ax))));
          [|done|exact Hv].
        intros s c s' Hs Hadd. by rewrite (np_add_out_length _ _ _ Hadd).
    + intros Hfun _.
      destruct onlyactive.
      * edestruct (for_each_total
          (fun sum_ component =>
             if active component
             then np_add_out sum_ (function component (live_values (components m)) ax)
             else Ok sum_)
          (fun s => length s = length ax) (components m) (np_zeros (length ax)))
          as (v & Hv & _); [| apply length_np_zeros | by exists v].
        intros s c Hc Hs. destruct (active c); [|by exists s].
        rewrite np_add_out_same by (by rewrite Hfun, Hs).
        eexists; split; [done|]. rewrite length_zip_with, Hfun by done. lia.
      * edestruct (for_each_total
          (fun sum_ component =>
             np_add_out sum_ (function component (live_values (components m)) ax))
          (fun s => length s = length ax) (components m) (np_zeros (length ax)))
          as (v & Hv & _); [| apply length_np_zeros | by exists v].
        intros s c Hc Hs.
        rewrite np_add_out_same by (by rewrite Hfun, Hs).
        eexists; split; [done|]. rewrite length_zip_with, Hfun by done. lia.
  - (* convolved evaluation *)
    apply orb_false_iff in Hbranch as [Hconv ->].
    apply negb_false_iff in Hconv.
    split.
    + intros v. destruct (convolution_axis m) as [conv_axis|] eqn:Hca; [|done].
      cbn.
      destruct (for_each _ _ _) as [[[n sc] s]|] eqn:Hloop; cbn; [|done].
      destruct (low_loss_here m) as [response|] eqn:Hll; cbn; [|done].
      destruct (np_convolve_valid response sc) as [conv|] eqn:Hcv; cbn; [|done].
      destruct (broadcast Radd s conv) as [total|] eqn:Hb; cbn; [|done].
      apply getitem_mask_length.
    + intros Hfun Hne. destruct (Hne Hconv eq_refl)
        as (Hax & conv_axis & response & Hca & Hll & Hresp).
      rewrite Hca, Hll. cbn.
      set (N := length (axis (model_axis m))).
      assert (HN : 0 < N)
        by (subst N; destruct (axis (model_axis m)); [done|cbn; lia]).
      assert (HL : 0 < length response) by (destruct response; [done|cbn; lia]).
      pose proof (Hspan _ _ Hca Hll) as Hlen. fold N in Hlen.
      edestruct (for_each_total
        (fun st component =>
           if onlyactive then
             if active component
             then add_component (live_values (components m)) conv_axis
                    (axis (model_axis m)) component st
             else Ok st
           else add_component (live_values (components m)) conv_axis
                  (axis (model_axis m)) component st)
        (fun st => length (snd (fst st)) = length conv_axis /\
                   length (snd st) = N)
        (components m)
        (0, np_zeros (length conv_axis), np_zeros N))
        as ([[n sc] s] & Hloop & Hsc & Hs).
      { intros [[n sc] s] c Hc [Hsc Hs]. cbn in Hsc, Hs.
        assert (Hstep : exists st',
          add_component (live_values (components m)) conv_axis
            (axis (model_axis m)) c (n, sc, s) = Ok st' /\
          length (snd (fst st')) = length conv_axis /\ length (snd st') = N).
        { unfold add_component. destruct (convolved c).
          - rewrite np_add_out_same by (by rewrite Hfun, Hsc).
            eexists; split; [done|]. cbn.
            rewrite length_zip_with, Hfun by done. lia.
          - rewrite np_add_out_same by (by rewrite Hfun, Hs).
            eexists; split; [done|]. cbn.
            rewrite length_zip_with, Hfun by done. fold N. lia. }
        destruct onlyactive; [destruct (active c)|]; try done.
        by exists (n, sc, s). }
      { cbn. by rewrite !length_np_zeros. }
      cbn in Hsc, Hs. fold N. rewrite Hloop. cbn.
      destruct (np_convolve_valid_ok response sc) as [conv Hcv];
        [done|destruct sc; [cbn in Hsc; lia|done]|].
      rewrite Hcv. cbn.
      pose proof (np_convolve_valid_length _ _ _ Hcv) as Hcl.
      rewrite broadcast_same by lia. cbn.
      rewrite getitem_mask_same; [by eexists|].
      rewrite length_zip_with. fold N in Hmask. lia.
Qed.

End CallShape.

(** ** The free-parameter vector *)

Section FreeParameterVector.
Context {R : Type} `{Arith R}.
Implicit Types (m : Model R) (c : Component R) (p : Param R).

Lemma p0_append_some l p : p0_append (Some l) p = Some (l ++ slots (value p)).
Proof. unfold p0_append, slots. by destruct (value p). Qed.

Lemma p0_append_none p : p0_append None p = Some (slots (value p)).
Proof. unfold p0_append, slots. by destruct (value p). Qed.

Lemma foldl_p0_append_some (ps : list (Param R)) l :
  foldl p0_append (Some l) ps = Some (l ++ (p ← ps; slots (value p))).
Proof.
  revert l. induction ps as [|p ps IH]; intros l.
  - cbn. by rewrite app_nil_r.
  - cbn [foldl]. by rewrite p0_append_some, IH, bind_cons, app_assoc.
Qed.

Lemma foldl_p0_append_none (ps : list (Param R)) :
  foldl p0_append None ps =
  match ps with [] => None | _ => Some (p ← ps; slots (value p)) end.
Proof.
  destruct ps as [|p ps]; [done|]. cbn [foldl].
  by rewrite p0_append_none, foldl_p0_append_some, bind_cons.
Qed.

(** The accumulator of [_set_p0] after the components [cs], started from
    [acc]: the free parameters met so far decide between [None] and the
    concatenation. *)
Lemma set_p0_loop (cs : list (Component R)) (acc : option (list R)) :
  let ps := c ← filter (fun c => active c = true) cs; free_parameters c in
  foldl (fun (p0 : option (list R)) component =>
           if active component
           then foldl p0_append p0 (free_parameters component)
           else p0) acc cs
  = match acc with
    | Some l => Some (l ++ (p ← ps; slots (value p)))
    | None => match ps with [] => None | _ => Some (p ← ps; slots (value p)) end
    end.
Proof.
  cbn zeta. revert acc. induction cs as [|c cs IH]; intros acc.
  - cbn. destruct acc; [by rewrite app_nil_r|done].
  - cbn [foldl]. destruct (active c) eqn:Hact.
    + rewrite filter_cons_True by done. rewrite IH, bind_cons.
      destruct acc as [l|].
      * rewrite foldl_p0_append_some. rewrite bind_app. by rewrite app_assoc.
      * rewrite foldl_p0_append_none.
        destruct (free_parameters c) as [|p ps] eqn:Hfree; [done|].
        by rewrite bind_app.
    + rewrite filter_cons_False by congruence. apply IH.
Qed.

Lemma set_p0_cases m :
  _set_p0 m =
  match active_free_parameters m with
  | [] => Raise TypeError
  | _ => Ok (with_p0 (free_parameter_vector m) m)
  end.
Proof.
  unfold _set_p0. rewrite set_p0_loop. cbn zeta.
  unfold free_parameter_vector, active_free_parameters.
  by destruct (_ ← filter _ (components m); free_parameters _).
Qed.

Lemma length_free_parameter_vector m :
  length (free_parameter_vector m) =
  sum_list_with (fun p => length (slots (value p))) (active_free_parameters m).
Proof.
  unfold free_parameter_vector.
  induction (active_free_parameters m) as [|p ps IH]; [done|].
  rewrite bind_cons, length_app, IH. done.
Qed.

Lemma sum_active_nfree_param m :
  element_counts_consistent m ->
  sum_list_with (fun p => length (slots (value p))) (active_free_parameters m) =
  sum_list_with _nfree_param (filter (fun c => active c = true) (components m)).
Proof.
  unfold element_counts_consistent, active_free_parameters.
  induction (components m) as [|c cs IH]; intros Hcount; [done|].
  assert (Hcs : forall c' p, c' ∈ cs -> p ∈ parameters c' ->
                  _number_of_elements p = length (slots (value p)))
    by (intros c' p Hc'; apply Hcount; by right).
  destruct (active c) eqn:Hact.
  - rewrite filter_cons_True by done.
    rewrite bind_cons, sum_list_with_app. cbn [sum_list_with].
    rewrite (IH Hcs). f_equal. unfold _nfree_param.
    assert (Hfree : forall p, p ∈ free_parameters c ->
                      _number_of_elements p = length (slots (value p))).
    { intros p Hp. apply (Hcount c); [left|].
      unfold free_parameters in Hp. by apply list_elem_of_filter in Hp as [_ ?]. }
    induction (free_parameters c) as [|p ps IHp]; [done|].
    cbn [sum_list_with]. rewrite (Hfree p) by left.
    f_equal. apply IHp. intros q Hq. apply Hfree. by right.
  - rewrite filter_cons_False by congruence. by apply IH.
Qed.

Lemma active_free_parameters_nil m :
  active_free_parameters m = [] <->
  (forall c, c ∈ components m -> active c = true -> free_parameters c = []).
Proof.
  unfold active_free_parameters.
  induction (components m) as [|c cs IH].
  - split; [|done]. intros _ c Hc. by apply elem_of_nil in Hc.
  - destruct (active c) eqn:Hact.
    + rewrite filter_cons_True by done. rewrite bind_cons. split.
      * intros [Hc Hcs]%app_eq_nil c' [->|Hc']%elem_of_cons Hact'; [done|].
        by apply IH.
      * intros Hall.
        assert (free_parameters c = []) as -> by (apply Hall; [left|done]).
        cbn [app]. apply IH. intros c' Hc'. apply Hall. by right.
    + rewrite filter_cons_False by congruence. rewrite IH. split.
      * intros Hall c' [->|Hc']%elem_of_cons Hact'; [congruence|by apply Hall].
      * intros Hall c' Hc'. apply Hall. by right.
Qed.

(** C3.  After [_set_p0], [p0] is the concatenation, in component order then
    parameter order, of the current values of the free parameters of the
    active components, vector values being flattened into consecutive slots;
    its length is the sum of the element counts of those parameters, that
    is the sum of [_nfree_param] over the active components only, and
    nothing else of the model has changed. *)
Theorem set_p0_concatenation m m' :
  _set_p0 m = Ok m' ->
  p0 m' = Some (free_parameter_vector m)
  /\ components m' = components m
  /\ length (free_parameter_vector m) =
     sum_list_with (fun p => length (slots (value p))) (active_free_parameters m)
  /\ (element_counts_consistent m ->
      length (free_parameter_vector m) =
      sum_list_with _nfree_param
        (filter (fun c => active c = true) (components m))).
Proof.
  intros Hok.
  assert (m' = with_p0 (free_parameter_vector m) m) as ->.
  { rewrite set_p0_cases in Hok.
    destruct (active_free_parameters m); [done|]. by injection Hok. }
  repeat split.
  - apply length_free_parameter_vector.
  - intros Hcount. rewrite length_free_parameter_vector.
    by apply sum_active_nfree_param.
Qed.

(** C10.  If no active component has a free parameter, [_set_p0] raises (the
    accumulator is still [None] when it is converted to a tuple) instead of
    producing an empty vector; and whenever [_set_p0] succeeds, some active
    component has a free parameter. *)
Theorem set_p0_needs_free_parameter m :
  ((forall c, c ∈ components m -> active c = true -> free_parameters c = []) ->
   _set_p0 m = Raise TypeError)
  /\ (forall m', _set_p0 m = Ok m' ->
        exists c p, (c ∈ components m) /\ active c = true /\
                    (p ∈ free_parameters c)).
Proof.
  rewrite set_p0_cases. split.
  - intros Hnone. by apply active_free_parameters_nil in Hnone as ->.
  - intros m' Hok.
    destruct (active_free_parameters m) as [|p ps] eqn:Hps; [done|].
    assert (Hp : p ∈ active_free_parameters m) by (rewrite Hps; left).
    unfold active_free_parameters in Hp.
    apply list_elem_of_bind in Hp as (c & Hp & Hc).
    apply list_elem_of_filter in Hc as [Hact Hc]. by exists c, p.
Qed.

End FreeParameterVector.

(** ** The jacobian *)

Section JacobianProperties.
Context {R : Type} `{Arith R}.
Implicit Types (m : Model R) (c : Component R) (cs : list (Component R)).
Implicit Types (g : GradArray R) (rows : list (list R)).

Lemma stacked_nil g : stacked g [] = g.
Proof. destruct g; [done|]. cbn. by rewrite app_nil_r. Qed.

Lemma stacked_app g rows1 rows2 :
  stacked (stacked g rows1) rows2 = stacked g (rows1 ++ rows2).
Proof.
  destruct g as [row|rs].
  - destruct rows1 as [|r1 rows1]; [done|]. destruct rows2; cbn.
    + by rewrite !app_nil_r.
    + done.
  - cbn. by rewrite app_assoc.
Qed.

Lemma np_vstack_stacked g row g' :
  np_vstack g row = Ok g' -> g' = stacked g [row].
Proof.
  destruct g as [r|rs]; cbn; case_decide; intros [= <-]; done.
Qed.

Lemma traverse_app {A B : Type} (f : A -> result B) (l1 l2 : list A) :
  traverse f (l1 ++ l2) =
  ys1 ← traverse f l1; ys2 ← traverse f l2; Ok (ys1 ++ ys2).
Proof.
  induction l1 as [|x l1 IH]; cbn [traverse app].
  - cbn. by destruct (traverse f l2).
  - destruct (f x) as [y|e]; cbn; [|done]. rewrite IH.
    destruct (traverse f l1) as [ys1|]; cbn; [|done].
    by destruct (traverse f l2).
Qed.

Lemma traverse_length {A B : Type} (f : A -> result B) (l : list A) ys :
  traverse f l = Ok ys -> length ys = length l.
Proof.
  revert ys. induction l as [|x l IH]; intros ys; cbn [traverse].
  - by intros [= <-].
  - destruct (f x) as [y|]; cbn; [|done].
    destruct (traverse f l) as [ys'|]; cbn; [|done].
    intros [= <-]. cbn. f_equal. by apply IH.
Qed.

(** While the sum of the twins is written into an array of its own, the
    loop over the twins only accumulates. *)
Lemma add_twins_own (eval : list R -> Param R -> result (GradResult R))
    (samples : list R) (grad_is_axis : bool) (twins : list (Param R))
    (ax : list R) g (row : list R) :
  for_each (add_twin eval (NewArray samples) grad_is_axis) twins (ax, g, row)
  = (acc ← for_each (fun acc twin =>
                        v ← (x ← eval ax twin; Ok (array_of ax x));
                        np_add_out acc v)
                     twins row;
     Ok (ax, g, acc)).
Proof.
  revert row. induction twins as [|t twins IH]; intros row; [done|].
  cbn [for_each add_twin].
  destruct (eval ax t) as [x|]; cbn [mbind result_bind]; [|done].
  destruct (np_add_out row (array_of ax x)) as [sum|]; cbn [mbind result_bind];
    [|done].
  apply IH.
Qed.

(** One turn of the loop over the free parameters, for a parameter whose
    sum of twins is written into an array of its own. *)
Lemma parameter_turn_own (eval : list R -> Param R -> result (GradResult R))
    (grad_is_axis : bool) (p : Param R) (ax : list R) g :
  (_twins p <> [] -> eval ax p <> Ok SameArray) ->
  (own ← eval ax p;
   '(axis, grad_array, par_grad) ←
     match _twins p with
     | [] => Ok (ax, g, array_of ax own)
     | twins =>
         for_each (add_twin eval own grad_is_axis) twins
           (ax, g, array_of ax own)
     end;
   grad_array ← np_vstack grad_array par_grad;
   Ok (axis, grad_array))
  = (row ← coupled_row (fun q => x ← eval ax q; Ok (array_of ax x)) p;
     g' ← np_vstack g row;
     Ok (ax, g')).
Proof.
  intros Hown. unfold coupled_row.
  destruct (eval ax p) as [own|] eqn:Hrun; cbn [mbind result_bind]; [|done].
  destruct (_twins p) as [|t twins] eqn:Htwins; [done|].
  destruct own as [|samples]; [by destruct Hown|].
  rewrite add_twins_own. cbn [array_of].
  by destruct (for_each _ (t :: twins) samples).
Qed.

Lemma stack_parameter_rows_own
    (eval : list R -> Param R -> result (GradResult R)) (grad_is_axis : bool)
    (params : list (Param R)) (ax : list R) g :
  Forall (fun p => _twins p <> [] -> eval ax p <> Ok SameArray) params ->
  stack_parameter_rows eval grad_is_axis params (ax, g)
  = (g' ← for_each
            (fun g p =>
               row ← coupled_row (fun q => x ← eval ax q; Ok (array_of ax x)) p;
               np_vstack g row)
            params g;
     Ok (ax, g')).
Proof.
  unfold stack_parameter_rows. revert g.
  induction params as [|p params IH]; intros g Hown; [done|].
  apply Forall_cons in Hown as [Hp Hown].
  rewrite !(for_each_cons _ p). cbv beta iota.
  rewrite (parameter_turn_own eval grad_is_axis p ax g Hp).
  destruct (coupled_row _ p) as [row|]; cbn [mbind result_bind]; [|done].
  destruct (np_vstack g row) as [g1|]; cbn [mbind result_bind]; [|done].
  by apply IH.
Qed.

Lemma stack_parameter_rows_rows
    (eval : list R -> Param R -> result (GradResult R)) (grad_is_axis : bool)
    (params : list (Param R)) (ax ax' : list R) g g' :
  Forall (fun p => _twins p <> [] -> eval ax p <> Ok SameArray) params ->
  stack_parameter_rows eval grad_is_axis params (ax, g) = Ok (ax', g') ->
  ax' = ax
  /\ exists prs,
       traverse (fun p =>
                   row ← coupled_row
                           (fun q => x ← eval ax q; Ok (array_of ax x)) p;
                   Ok (p, row)) params = Ok prs
       /\ map fst prs = params
       /\ g' = stacked g (map snd prs).
Proof.
  intros Hown. rewrite stack_parameter_rows_own by done. clear Hown.
  destruct (for_each _ params g) as [g1|] eqn:Hloop; cbn [mbind result_bind];
    [|done].
  intros [= <- <-]. split; [done|].
  revert g Hloop. induction params as [|p params IH]; intros g.
  - intros [= <-]. exists []. by rewrite stacked_nil.
  - cbn [for_each traverse].
    destruct (coupled_row _ p) as [row|] eqn:Hrow; cbn [mbind result_bind];
      [|done].
    destruct (np_vstack g row) as [g2|] eqn:Hst; cbn [mbind result_bind];
      [|done].
    intros Hrest. destruct (IH _ Hrest) as (prs & -> & Hfst & ->).
    cbn [mbind result_bind]. eexists; split; [done|]. cbn [map fst snd].
    split; [by f_equal|].
    rewrite (np_vstack_stacked _ _ _ Hst). by rewrite stacked_app.
Qed.

Lemma traverse_ext {A B : Type} (f1 f2 : A -> result B) (l : list A) :
  (forall x, f1 x = f2 x) -> traverse f1 l = traverse f2 l.
Proof.
  intros Hext. induction l as [|x l IH]; [done|].
  cbn [traverse]. by rewrite Hext, IH.
Qed.

Lemma traverse_fst {A B : Type} (f : A -> result B) (l : list A) prs :
  traverse (fun p => row ← f p; Ok (p, row)) l = Ok prs -> map fst prs = l.
Proof.
  revert prs. induction l as [|x l IH]; intros prs; cbn [traverse].
  - by intros [= <-].
  - destruct (f x) as [y|]; cbn; [|done].
    destruct (traverse _ l) as [prs'|]; cbn; [|done].
    intros [= <-]. cbn. f_equal. by apply IH.
Qed.

Lemma component_charge_active c p onlyfree c' :
  component_charge c p onlyfree = Ok c' ->
  active c' = active c /\ convolved c' = convolved c.
Proof.
  unfold component_charge.
  destruct (charge_parameters _ _ _); cbn; [|done]. by intros [= <-].
Qed.

Lemma coupled_row_ext (eval1 eval2 : Param R -> result (list R)) (p : Param R) :
  (forall q, eval1 q = eval2 q) -> coupled_row eval1 p = coupled_row eval2 p.
Proof.
  intros Hext. unfold coupled_row. rewrite Hext.
  destruct (eval2 p) as [own|]; cbn; [|done].
  apply for_each_ext. intros acc t. by rewrite Hext.
Qed.

(** Charging a component keeps the gradients and the twins of its
    parameters. *)
Lemma charge_parameters_own_arrays (ps ps' : list (Param R)) (l : list R)
    (onlyfree : bool) :
  charge_parameters ps l onlyfree = Ok ps' ->
  Forall own_gradient_array ps -> Forall own_gradient_array ps'.
Proof.
  revert l ps'. induction ps as [|q ps IH]; intros l ps'; cbn [charge_parameters].
  - by intros [= <-].
  - intros Hrun [Hq Hps]%Forall_cons.
    destruct (onlyfree && negb (free q)).
    + destruct (charge_parameters ps l onlyfree) as [rest|] eqn:Hrest;
        cbn [mbind result_bind] in Hrun; [|done].
      injection Hrun as <-. apply Forall_cons. split; [done|by eapply IH].
    + match type of Hrun with
      | (?first ≫= _) = _ => destruct first as [v|]
      end; cbn [mbind result_bind] in Hrun; [|done].
      destruct (charge_parameters ps _ onlyfree) as [rest|] eqn:Hrest;
        cbn [mbind result_bind] in Hrun; [|done].
      injection Hrun as <-. apply Forall_cons. split; [exact Hq|by eapply IH].
Qed.

Lemma component_charge_own_arrays c (l : list R) (onlyfree : bool) c' :
  component_charge c l onlyfree = Ok c' ->
  Forall own_gradient_array (parameters c) ->
  Forall own_gradient_array (parameters c').
Proof.
  unfold component_charge.
  destruct (charge_parameters _ _ _) as [ps|] eqn:Hps; cbn [mbind result_bind];
    [|done].
  intros [= <-]. cbn [parameters with_parameters].
  by eapply charge_parameters_own_arrays.
Qed.

Lemma free_parameters_own vals c x
    (eval : Values R -> Component R -> list R -> Param R
            -> result (GradResult R)) m :
  evaluates_gradients m eval ->
  Forall own_gradient_array (parameters c) ->
  Forall (fun p => _twins p <> [] -> eval vals c x p <> Ok SameArray)
         (free_parameters c).
Proof.
  intros [_ Halias] Hown. apply Forall_forall. intros p Hp Htwins Hsame.
  apply list_elem_of_filter in Hp as [_ Hp].
  apply (proj1 (Forall_forall _ _) Hown p Hp Htwins vals x).
  by apply (Halias vals c).
Qed.

(** While no sum of twins is written into the axis, the loop of
    [_jacobian] stacks exactly the rows of [charged_rows], leaves the same
    charged components and does not touch the axis. *)
Lemma jacobian_loop_rows m
    (eval : Values R -> Component R -> list R -> Param R
            -> result (GradResult R))
    (grad_is_axis : bool) param charged todo counter ax g cs ax' g' :
  evaluates_gradients m eval ->
  Forall (fun c => Forall own_gradient_array (parameters c)) todo ->
  jacobian_loop eval grad_is_axis param charged todo counter (ax, g)
  = Ok (cs, (ax', g')) ->
  ax' = ax
  /\ exists prs,
       charged_rows m ax param charged todo counter = Ok (cs, prs)
       /\ g' = stacked g (map snd prs).
Proof.
  intros Heval. revert charged counter g cs g'.
  induction todo as [|c rest IH]; intros charged counter g cs g' Hown.
  - intros [= <- <- <-]. split; [done|]. exists []. by rewrite stacked_nil.
  - apply Forall_cons in Hown as [Hc Hrest].
    cbn [jacobian_loop charged_rows]. destruct (active c); [|by apply IH].
    destruct (component_charge c _ true) as [c'|] eqn:Hc';
      cbn [mbind result_bind]; [|done].
    pose proof (component_charge_own_arrays _ _ _ _ Hc' Hc) as Hown'.
    destruct (stack_parameter_rows _ _ _ (ax, g)) as [[ax1 g1]|] eqn:Hstack;
      cbn [mbind result_bind]; [|done].
    intros Hloop.
    apply stack_parameter_rows_rows in Hstack as (-> & prs1 & Hprs1 & _ & ->);
      [|by eapply free_parameters_own].
    destruct (IH _ _ _ _ _ Hrest Hloop) as (-> & prs2 & Hprs2 & ->).
    split; [done|].
    rewrite (traverse_ext _
      (fun p => row ← twin_coupled_row m ax
                        (live_values (charged ++ c' :: rest))
                        (model_convolved m && convolved c') p;
                Ok (p, row))) in Hprs1.
    2:{ intros p. unfold twin_coupled_row.
        by rewrite (coupled_row_ext _ _ _ (proj1 Heval _ c' ax)). }
    rewrite Hprs1. cbn [mbind result_bind]. rewrite Hprs2.
    cbn [mbind result_bind].
    eexists; split; [done|]. by rewrite map_app, stacked_app.
Qed.

(** The rows of [charged_rows] belong, in order, to the free parameters of
    the active components: the order of [p0]. *)
Lemma charged_rows_order m plain_axis param charged todo counter cs prs :
  charged_rows m plain_axis param charged todo counter = Ok (cs, prs) ->
  exists todo',
    cs = charged ++ todo'
    /\ map fst prs = (c ← filter (fun c => active c = true) todo';
                      free_parameters c).
Proof.
  revert charged counter cs prs.
  induction todo as [|c rest IH]; intros charged counter cs prs.
  - intros [= <- <-]. exists []. by rewrite app_nil_r.
  - cbn [charged_rows]. destruct (active c) eqn:Hact.
    + destruct (component_charge c _ true) as [c'|] eqn:Hc'; cbn; [|done].
      destruct (traverse _ (free_parameters c')) as [prs1|] eqn:Hprs1; cbn;
        [|done].
      destruct (charged_rows _ _ _ _ rest _) as [[cs2 prs2]|] eqn:Hrest; cbn;
        [|done].
      intros [= <- <-].
      destruct (IH _ _ _ _ Hrest) as (todo' & -> & Hfst).
      exists (c' :: todo'). split; [by rewrite <- app_assoc|].
      apply component_charge_active in Hc' as [Hact' _].
      rewrite filter_cons_True by congruence.
      rewrite bind_cons, map_app, Hfst. f_equal.
      by apply traverse_fst in Hprs1.
    + intros Hrest. destruct (IH _ _ _ _ Hrest) as (todo' & -> & Hfst).
      exists (c :: todo'). split; [by rewrite <- app_assoc|].
      by rewrite filter_cons_False by congruence.
Qed.

Lemma traverse_elem {A B : Type} (f : A -> result B) (l : list A) prs x y :
  traverse (fun p => row ← f p; Ok (p, row)) l = Ok prs ->
  (x, y) ∈ prs -> x ∈ l /\ f x = Ok y.
Proof.
  revert prs. induction l as [|a l IH]; intros prs; cbn [traverse].
  - intros [= <-] Hin. by apply elem_of_nil in Hin.
  - destruct (f a) as [b|] eqn:Hfa; cbn; [|done].
    destruct (traverse _ l) as [prs'|] eqn:Hrest; cbn; [|done].
    intros [= <-] [[= -> ->]|Hin]%elem_of_cons.
    + split; [left|done].
    + destruct (IH _ eq_refl Hin) as [Hx Hfx]. split; [by right|done].
Qed.

(** Every row of [charged_rows] is the twin-coupled row of a free
    parameter of an active component, evaluated as the convolved flag of
    that component tells. *)
Lemma charged_rows_each m plain_axis param charged todo counter cs prs p row :
  charged_rows m plain_axis param charged todo counter = Ok (cs, prs) ->
  (p, row) ∈ prs ->
  exists vals c,
    (c ∈ cs) /\ active c = true /\ (p ∈ free_parameters c)
    /\ twin_coupled_row m plain_axis vals (model_convolved m && convolved c) p
       = Ok row.
Proof.
  revert charged counter cs prs.
  induction todo as [|c rest IH]; intros charged counter cs prs.
  - intros [= <- <-] Hin. by apply elem_of_nil in Hin.
  - cbn [charged_rows]. destruct (active c) eqn:Hact; [|apply IH].
    destruct (component_charge c _ true) as [c'|] eqn:Hc'; cbn; [|done].
    destruct (traverse _ (free_parameters c')) as [prs1|] eqn:Hprs1; cbn;
      [|done].
    destruct (charged_rows _ _ _ _ rest _) as [[cs2 prs2]|] eqn:Hrest; cbn;
      [|done].
    intros [= <- <-] [Hin|Hin]%elem_of_app.
    + destruct (traverse_elem _ _ _ _ _ Hprs1 Hin) as [Hp Hrow].
      destruct (charged_rows_order _ _ _ _ _ _ _ _ Hrest) as (todo' & -> & _).
      apply component_charge_active in Hc' as [Hact' _].
      exists (live_values (charged ++ c' :: rest)), c'.
      repeat split; [|congruence|done|done].
      rewrite !elem_of_app, list_elem_of_singleton. auto.
    + by apply (IH _ _ _ _ Hrest).
Qed.

Lemma stacked_width g rows :
  grad_nonempty g -> grad_width (stacked g rows) = grad_width g
  /\ grad_nonempty (stacked g rows).
Proof.
  destruct g as [row|[|r rs]]; [|done|].
  - intros _. by destruct rows.
  - intros _. done.
Qed.

Lemma np_vstack_same_width g row :
  grad_nonempty g -> length row = grad_width g ->
  np_vstack g row = Ok (stacked g [row]).
Proof.
  destruct g as [r|[|r rs]]; cbn; [|done|]; intros _ Hw;
    by rewrite decide_True.
Qed.

(** Conversely, rows of the width of [grad] are all stacked. *)
Lemma stack_parameter_rows_total
    (eval : list R -> Param R -> result (GradResult R)) (grad_is_axis : bool)
    (params : list (Param R)) (ax : list R) g prs :
  Forall (fun p => _twins p <> [] -> eval ax p <> Ok SameArray) params ->
  traverse (fun p =>
              row ← coupled_row (fun q => x ← eval ax q; Ok (array_of ax x)) p;
              Ok (p, row)) params = Ok prs ->
  grad_nonempty g ->
  Forall (fun pr => length (snd pr) = grad_width g) prs ->
  stack_parameter_rows eval grad_is_axis params (ax, g)
  = Ok (ax, stacked g (map snd prs)).
Proof.
  intros Hown. rewrite stack_parameter_rows_own by done. clear Hown.
  revert g prs. induction params as [|p params IH]; intros g prs.
  - intros [= <-] _ _. cbn [for_each map mbind result_bind].
    by rewrite stacked_nil.
  - cbn [for_each traverse].
    destruct (coupled_row _ p) as [row|] eqn:Hrow; cbn [mbind result_bind];
      [|done].
    destruct (traverse _ params) as [prs'|] eqn:Hrest; cbn [mbind result_bind];
      [|done].
    intros [= <-] Hg [Hw Hws]%Forall_cons. cbn [snd] in Hw.
    rewrite np_vstack_same_width by done. cbn [mbind result_bind].
    destruct (stacked_width g [row] Hg) as [Hwidth Hne].
    rewrite (IH _ prs' eq_refl Hne) by (by rewrite Hwidth).
    cbn [map snd]. by rewrite stacked_app.
Qed.

Lemma traverse_id {A : Type} (l : list A) : traverse (fun x => Ok x) l = Ok l.
Proof. induction l as [|x l IH]; [done|]. cbn [traverse]. by rewrite IH. Qed.

Lemma getitem_rows_stacked (d : list R) rows cols matrix :
  getitem_rows_from_1 (stacked (Grad1 d) rows) cols = Ok matrix ->
  rows <> [] /\ traverse cols rows = Ok matrix.
Proof. destruct rows as [|row rows]; [done|]. by intros Hm. Qed.

Lemma grad_convolved_model_evaluates m :
  model_convolved m = true -> evaluates_gradients m (grad_convolved_model m).
Proof.
  intros Hconv. split; intros vals c x p;
    unfold grad_convolved_model, evaluated_gradient; rewrite ?Hconv;
    cbn [andb]; destruct (convolved c); cbn [mbind result_bind]; try done.
  - destruct (not_none (convolution_axis m)) as [conv_axis|];
      cbn [mbind result_bind]; [|done].
    destruct (low_loss_here m) as [response|]; cbn [mbind result_bind]; [|done].
    by destruct (np_convolve_valid _ response).
  - destruct (not_none (convolution_axis m)) as [conv_axis|];
      cbn [mbind result_bind]; [|done].
    destruct (low_loss_here m) as [response|]; cbn [mbind result_bind]; [|done].
    by destruct (np_convolve_valid _ response).
  - by intros [= ->].
Qed.

Lemma grad_plain_evaluates m :
  model_convolved m = false ->
  evaluates_gradients m
    (fun vals _ axis parameter => Ok (grad parameter vals axis)).
Proof.
  intros Hconv. split; intros vals c x p.
  - unfold evaluated_gradient. by rewrite Hconv.
  - by intros [= ->].
Qed.

Lemma gradients_unshared_components m :
  gradients_unshared m ->
  Forall (fun c => Forall own_gradient_array (parameters c)) (components m).
Proof.
  intros Hown. apply Forall_forall. intros c Hc.
  apply Forall_forall. intros p Hp. by apply (Hown c p).
Qed.

Lemma with_axis_samples_same m : with_axis_samples (axis (model_axis m)) m = m.
Proof.
  unfold with_axis_samples.
  destruct m as [cs conv aup ax ns ix sw ll ca fb pi p0' sp]. cbn.
  by destruct ax.
Qed.

(** C4, as the code has it.  While no gradient of a parameter with twins
    hands back the array it is given, [_jacobian], whenever it returns a
    matrix, leaves the axis as it was and its rows are, in the order used
    for [p0] (the free parameters of the active components), the rows of
    those parameters: the parameter's own gradient - over the convolution
    axis, followed by the valid convolution with the response, when the
    model and the owning component are convolved, over the plain axis
    otherwise - plus, elementwise, the gradient of each direct twin
    evaluated the same way.  In a convolved model the columns are then
    restricted to [channel_switches], which is the jacobian in the words
    of the specification; in a model without convolution it is the axis
    that is restricted, before the gradients are evaluated over it, and no
    column is dropped afterwards.  The weights, when given, multiply the
    rows. *)
Theorem jacobian_twin_rows m param weights matrix m' :
  gradients_unshared m ->
  _jacobian m param weights = Ok (matrix, m') ->
  model_axis m' = model_axis m
  /\ exists prs,
       charged_rows m (evaluation_axis m) param [] (components m) 0
       = Ok (components m', prs)
       /\ prs <> []
       /\ map fst prs = active_free_parameters m'
       /\ (forall p row, (p, row) ∈ prs ->
           exists vals c,
             (c ∈ components m') /\ active c = true /\ (p ∈ free_parameters c)
             /\ twin_coupled_row m (evaluation_axis m) vals
                  (model_convolved m && convolved c) p = Ok row)
       /\ restrict_and_weigh m weights (map snd prs) = Ok matrix
       /\ (model_convolved m = true ->
           jacobian_of_the_spec m param weights = Ok matrix).
Proof.
  intros Hown%gradients_unshared_components.
  unfold _jacobian, evaluation_axis, restrict_and_weigh, jacobian_of_the_spec.
  destruct (model_convolved m) eqn:Hconv.
  - destruct (jacobian_loop _ _ _ _ _ _ _) as [[cs [ax g]]|] eqn:Hloop;
      cbn [mbind result_bind]; [|done].
    apply (jacobian_loop_rows m) in Hloop as (-> & prs & Hrows & ->);
      [|by apply grad_convolved_model_evaluates|done].
    destruct (getitem_rows_from_1 _ _) as [restricted|] eqn:Hget;
      cbn [mbind result_bind]; [|done].
    apply getitem_rows_stacked in Hget as [Hne Hget].
    destruct (times_weights weights restricted) as [weighted|] eqn:Hw;
      cbn [mbind result_bind]; [|done].
    intros [= <- <-].
    pose proof (with_axis_samples_same (with_components cs m)) as Hsame.
    cbn [model_axis with_components] in Hsame. rewrite Hsame.
    split; [done|].
    exists prs. cbn [components with_components].
    destruct (charged_rows_order _ _ _ _ _ _ _ _ Hrows) as (todo' & Hcs & Hfst).
    cbn [app] in Hcs. subst cs.
    split; [done|]. split; [by intros ->|]. split; [done|]. split; [|split].
    + intros p row Hin.
      destruct (charged_rows_each _ _ _ _ _ _ _ _ _ _ Hrows Hin)
        as (vals & c & Hc & Hact & Hp & Hrow).
      rewrite Hconv in Hrow. by exists vals, c.
    + by rewrite Hget.
    + intros _. rewrite Hrows. cbn [mbind result_bind]. by rewrite Hget.
  - unfold getitem_mask. case_decide as Hmask; cbn [mbind result_bind]; [|done].
    destruct (jacobian_loop _ _ _ _ _ _ _) as [[cs [ax g]]|] eqn:Hloop;
      cbn [mbind result_bind]; [|done].
    apply (jacobian_loop_rows m) in Hloop as (-> & prs & Hrows & ->);
      [|by apply grad_plain_evaluates|done].
    destruct (getitem_rows_from_1 _ _) as [rows|] eqn:Hget;
      cbn [mbind result_bind]; [|done].
    apply getitem_rows_stacked in Hget as [Hne Hget].
    rewrite traverse_id in Hget. injection Hget as <-.
    destruct (times_weights weights _) as [weighted|] eqn:Hw;
      cbn [mbind result_bind]; [|done].
    intros [= <- <-]. split; [done|].
    exists prs. cbn [components with_components].
    destruct (charged_rows_order _ _ _ _ _ _ _ _ Hrows) as (todo' & Hcs & Hfst).
    cbn [app] in Hcs. subst cs.
    split; [done|]. split; [by intros ->|]. split; [done|]. split; [|done].
    intros p row Hin.
    destruct (charged_rows_each _ _ _ _ _ _ _ _ _ _ Hrows Hin)
      as (vals & c & Hc & Hact & Hp & Hrow).
    rewrite Hconv in Hrow. by exists vals, c.
Qed.

End JacobianProperties.

(** ** Methods with effects *)

Section Stability.
Context {R : Type} `{Arith R}.
Implicit Types (I P : World R -> Prop) (w : World R).

Lemma stable_ret {A : Type} I (a : A) : stable I (mret a).
Proof. intros w r w' HI [= <- <-]. done. Qed.

Lemma stable_raise {A : Type} I (e : exn) : stable I (@raise R A e).
Proof. intros w r w' HI [= <- <-]. done. Qed.

Lemma stable_lift {A : Type} I (x : result A) : stable I (lift x).
Proof. intros w r w' HI [= <- <-]. done. Qed.

Lemma stable_get_model I : stable I get_model.
Proof. intros w r w' HI [= <- <-]. done. Qed.

Lemma stable_bind {A B : Type} I (ma : M R A) (f : A -> M R B) :
  stable I ma -> (forall a, stable I (f a)) -> stable I (ma ≫= f).
Proof.
  intros Hma Hf w r w' HI. unfold mbind, M_bind.
  destruct (ma w) as [[a|e] w1] eqn:Hrun.
  - apply (Hf a). by eapply Hma.
  - intros [= <- <-]. by eapply Hma.
Qed.

Lemma stable_for_each_M {A S : Type} I (body : S -> A -> M R S) (l : list A) s :
  (forall s x, stable I (body s x)) -> stable I (for_each_M body l s).
Proof.
  intros Hbody. revert s. induction l as [|x l IH]; intros s.
  - apply stable_ret.
  - cbn [for_each_M]. apply stable_bind; [apply Hbody|]. intros s'. apply IH.
Qed.

Lemma holds_during_stable {A S : Type} I P (body : S -> A -> M R S)
    (l : list A) s w :
  (forall s x, stable I (body s x)) -> (forall w, I w -> P w) -> I w ->
  holds_during P body l s w.
Proof.
  intros Hbody HIP. revert s w. induction l as [|x l IH]; intros s w HI; [done|].
  cbn [holds_during]. split; [by apply HIP|].
  destruct (body s x w) as [[s'|e] w'] eqn:Hrun; [|done].
  apply IH. by eapply Hbody.
Qed.

End Stability.

(** ** Charge and store batches *)

Section BatchProperties.
Context {R : Type} `{Arith R}.
Implicit Types (m : Model R) (w : World R) (c : Component R) (p q : Param R).
Implicit Types (events : list (Event R)) (fs : gmap string (FileContent R)).

Lemma connection_flags_insert m i j c p q :
  components m !! i = Some c -> parameters c !! j = Some p ->
  connection_active q = connection_active p ->
  connection_flags
    (with_components
       (<[i := with_parameters (<[j := q]> (parameters c)) c]> (components m)) m)
  = connection_flags m.
Proof.
  intros Hc Hp Hq. unfold connection_flags. cbn [components with_components].
  rewrite (list_fmap_insert (fun c => map connection_active (parameters c))).
  apply list_insert_id. rewrite list_lookup_fmap, Hc. cbn. f_equal.
  symmetry. rewrite (list_fmap_insert connection_active).
  apply list_insert_id. by rewrite list_lookup_fmap, Hp, Hq.
Qed.

Lemma flag_lookup m i j c p :
  components m !! i = Some c -> parameters c !! j = Some p ->
  Forall (Forall (fun b => b = false)) (connection_flags m) ->
  connection_active p = false.
Proof.
  intros Hc Hp Hall.
  assert (Hrow : connection_flags m !! i
                 = Some (map connection_active (parameters c))).
  { unfold connection_flags. by rewrite list_lookup_fmap, Hc. }
  pose proof (Forall_lookup_1 _ _ _ _ Hall Hrow) as Hrowall.
  apply (Forall_lookup_1 _ _ j _ Hrowall).
  by rewrite list_lookup_fmap, Hp.
Qed.

Lemma all_suspended_flags w :
  Forall (Forall (fun b => b = false)) (connection_flags (model w)) ->
  all_suspended w.
Proof.
  intros Hall c p Hc Hp.
  apply list_elem_of_lookup in Hc as [i Hc].
  apply list_elem_of_lookup in Hp as [j Hp].
  by eapply flag_lookup.
Qed.

Lemma get_parameter_run i j w r w' :
  get_parameter i j w = (r, w') ->
  w' = w /\
  match r with
  | Ok p => exists c, components (model w) !! i = Some c /\
                      parameters c !! j = Some p
  | Raise _ => True
  end.
Proof.
  unfold get_parameter, mbind, M_bind, get_model. cbn.
  destruct (components (model w) !! i) as [c|] eqn:Hc; cbn.
  - destruct (parameters c !! j) as [p|] eqn:Hp; cbn; intros [= <- <-];
      (split; [done|eauto]).
  - by intros [= <- <-].
Qed.

(** Replacing a parameter by one with the same connection flag keeps the
    frame of the batch. *)
Lemma put_parameter_frame flags switch events fs i j p q w r w' :
  (exists c, components (model w) !! i = Some c /\ parameters c !! j = Some p) ->
  connection_active q = connection_active p ->
  batch_frame flags switch events fs w ->
  put_parameter i j q w = (r, w') ->
  batch_frame flags switch events fs w'.
Proof.
  intros (c & Hc & Hp) Hq (Hflags & Hswitch & Hlog & Hfiles).
  unfold put_parameter, mbind, M_bind, get_model. cbn. rewrite Hc.
  intros [= <- <-]. repeat split; cbn [model with_model log files]; try done.
  by rewrite (connection_flags_insert _ _ _ _ _ _ Hc Hp Hq).
Qed.

(** While every connection is suspended, an assignment notifies no one. *)
Lemma assign_value_frame flags switch events fs i j v :
  Forall (Forall (fun b => b = false)) flags ->
  stable (batch_frame flags switch events fs) (assign_value i j v).
Proof.
  intros Hall w r w' Hframe. unfold assign_value, mbind at 1, M_bind at 1.
  destruct (get_parameter i j w) as [[p|e] w1] eqn:Hget;
    apply get_parameter_run in Hget as [-> Hp]; [|by intros [= <- <-]].
  unfold mbind, M_bind.
  destruct (put_parameter i j (with_value v p) w) as [[[]|e] w2] eqn:Hput.
  - pose proof (put_parameter_frame _ _ _ _ i j p (with_value v p) _ _ _
                  Hp eq_refl Hframe Hput) as Hframe2.
    destruct Hp as (c & Hc & Hp). destruct Hframe as (Hflags & _).
    rewrite <- Hflags in Hall.
    rewrite (flag_lookup _ _ _ _ _ Hc Hp Hall), andb_false_r.
    by intros [= <- <-].
  - intros [= <- <-].
    by apply (put_parameter_frame _ _ _ _ i j p (with_value v p) _ _ _
                Hp eq_refl Hframe Hput).
Qed.

Lemma charge_value_from_map_frame flags switch events fs indexes only_fixed i :
  Forall (Forall (fun b => b = false)) flags ->
  stable (batch_frame flags switch events fs)
         (charge_value_from_map indexes only_fixed i).
Proof.
  intros Hall. unfold charge_value_from_map.
  apply stable_bind; [apply stable_get_model|]. intros m.
  destruct (components m !! i) as [c|]; [|apply stable_raise].
  apply stable_for_each_M. intros [] j.
  intros w r w' Hframe. unfold mbind, M_bind.
  destruct (get_parameter i j w) as [[p|e] w1] eqn:Hget;
    apply get_parameter_run in Hget as [-> Hp]; [|by intros [= <- <-]].
  destruct (only_fixed && free p); [by intros [= <- <-]|].
  destruct (map_ p !! indexes) as [v|]; [|by intros [= <- <-]].
  by apply assign_value_frame.
Qed.

Lemma store_current_parameters_in_map_frame flags switch events fs indexes i :
  stable (batch_frame flags switch events fs)
         (store_current_parameters_in_map indexes i).
Proof.
  unfold store_current_parameters_in_map.
  apply stable_bind; [apply stable_get_model|]. intros m.
  destruct (components m !! i) as [c|]; [|apply stable_raise].
  apply stable_for_each_M. intros [] j.
  intros w r w' Hframe. unfold mbind, M_bind.
  destruct (get_parameter i j w) as [[p|e] w1] eqn:Hget;
    apply get_parameter_run in Hget as [-> Hp]; [|by intros [= <- <-]].
  by apply (put_parameter_frame _ _ _ _ i j p
              (with_map (<[indexes := value p]> (map_ p)) p) _ _ _
              Hp eq_refl Hframe).
Qed.

Lemma charge_components_frame flags switch events fs only_fixed :
  Forall (Forall (fun b => b = false)) flags ->
  stable (batch_frame flags switch events fs) (charge_components only_fixed).
Proof.
  intros Hall. unfold charge_components.
  apply stable_bind; [apply stable_get_model|]. intros m.
  apply stable_for_each_M. intros [] i. by apply charge_value_from_map_frame.
Qed.

Lemma store_components_frame flags switch events fs :
  stable (batch_frame flags switch events fs) store_components.
Proof.
  unfold store_components.
  apply stable_bind; [apply stable_get_model|]. intros m.
  apply stable_for_each_M. intros [] i.
  apply store_current_parameters_in_map_frame.
Qed.

Lemma connection_flags_set_auto_update_plot tof m :
  connection_flags (set_auto_update_plot tof m)
  = map (fun c => map (fun _ => tof) (parameters c)) (components m).
Proof.
  unfold connection_flags, set_auto_update_plot, map_parameters. cbn.
  rewrite map_map. apply map_ext. intros c. cbn. rewrite map_map.
  by apply map_ext.
Qed.

Lemma suspended_after_switch_off m :
  Forall (Forall (fun b => b = false))
         (connection_flags (set_auto_update_plot false m)).
Proof.
  rewrite connection_flags_set_auto_update_plot.
  apply Forall_fmap, Forall_true. intros c. cbn.
  apply Forall_fmap, Forall_true. done.
Qed.

Lemma suspended_when_consistent m :
  flags_consistent m -> auto_update_plot m = false ->
  Forall (Forall (fun b => b = false)) (connection_flags m).
Proof.
  intros Hcons Hoff. unfold connection_flags.
  apply Forall_fmap, Forall_forall. intros c Hc. cbn.
  apply Forall_fmap, Forall_forall. intros p Hp. cbn. by eapply Hcons.
Qed.

(** The model's own switches leave the flags consistent. *)
Lemma flags_consistent_set_auto_update_plot tof m :
  flags_consistent (set_auto_update_plot tof m).
Proof.
  intros Hoff c p Hc Hp. cbn in Hoff. subst tof.
  eapply (all_suspended_flags
            (mkWorld (set_auto_update_plot false m) ∅ "" "" []));
    [apply suspended_after_switch_off|exact Hc|exact Hp].
Qed.

Lemma flags_consistent_connect m :
  flags_consistent (connect_parameters2update_plot m).
Proof.
  intros _ c p Hc Hp. unfold connect_parameters2update_plot, map_parameters in Hc.
  cbn in Hc. apply list_elem_of_fmap in Hc as (c0 & -> & Hc0).
  cbn in Hp. apply list_elem_of_fmap in Hp as (p0 & -> & Hp0). done.
Qed.

Lemma flags_consistent_disconnect m :
  flags_consistent (disconnect_parameters2update_plot m).
Proof. apply flags_consistent_set_auto_update_plot. Qed.

Lemma batch_frame_refl w :
  batch_frame (connection_flags (model w)) (auto_update_plot (model w))
              (log w) (files w) w.
Proof. done. Qed.

Lemma update_plot_log w r w' :
  update_plot w = (r, w') ->
  r = Ok () /\ log w' = log w ++ [UpdatePlot] /\ files w' = files w.
Proof.
  unfold update_plot, mbind, M_bind, emit, get_model. cbn.
  destruct (spectrum_plot (model w)) as [[]|]; intros [= <- <-]; done.
Qed.

Lemma charge_run w only_fixed r w' :
  flags_consistent (model w) ->
  charge only_fixed w = (r, w') ->
  files w' = files w /\
  ((log w' = log w /\
    (auto_update_plot (model w) = false \/ exists e, r = Raise e))
   \/ (log w' = log w ++ [UpdatePlot] /\ r = Ok () /\
       auto_update_plot (model w) = true)).
Proof.
  intros Hcons. unfold charge, mbind at 1, M_bind at 1, get_model at 1.
  destruct (auto_update_plot (model w)) eqn:Hswitch.
  - unfold mbind at 1, M_bind at 1, put_model at 1.
    set (w1 := with_model (set_auto_update_plot false (model w)) w).
    unfold mbind at 1, M_bind at 1.
    destruct (charge_components only_fixed w1) as [[[]|e] w2] eqn:Hloop.
    + destruct (charge_components_frame _ _ _ _ only_fixed
                  (suspended_after_switch_off (model w)) w1 _ w2
                  (batch_frame_refl w1) Hloop) as (_ & _ & Hlog & Hfiles).
      unfold mbind, M_bind, get_model, put_model.
      intros Hplot. apply update_plot_log in Hplot as (-> & Hlog' & Hfiles').
      cbn in Hlog', Hfiles'. rewrite Hlog', Hfiles', Hlog, Hfiles.
      split; [done|]. right. done.
    + destruct (charge_components_frame _ _ _ _ only_fixed
                  (suspended_after_switch_off (model w)) w1 _ w2
                  (batch_frame_refl w1) Hloop) as (_ & _ & Hlog & Hfiles).
      intros [= <- <-]. split; [done|]. left. split; [done|]. right. eauto.
  - unfold mbind at 1, M_bind at 1. cbn [mret M_ret].
    unfold mbind at 1, M_bind at 1.
    destruct (charge_components only_fixed w) as [[[]|e] w2] eqn:Hloop.
    + destruct (charge_components_frame _ _ _ _ only_fixed
                  (suspended_when_consistent _ Hcons Hswitch) w _ w2
                  (batch_frame_refl w) Hloop) as (_ & _ & Hlog & Hfiles).
      intros [= <- <-]. split; [done|]. left. split; [done|]. by left.
    + destruct (charge_components_frame _ _ _ _ only_fixed
                  (suspended_when_consistent _ Hcons Hswitch) w _ w2
                  (batch_frame_refl w) Hloop) as (_ & _ & Hlog & Hfiles).
      intros [= <- <-]. split; [done|]. left. split; [done|]. by left.
Qed.

Lemma charge_suspended w only_fixed :
  flags_consistent (model w) -> suspended_during_charge only_fixed w.
Proof.
  intros Hcons. unfold suspended_during_charge, charge_loop_start.
  destruct (auto_update_plot (model w)) eqn:Hswitch.
  - set (w1 := with_model (set_auto_update_plot false (model w)) w).
    eapply (holds_during_stable
              (batch_frame (connection_flags (model w1))
                 (auto_update_plot (model w1)) (log w1) (files w1))).
    + intros [] i. apply charge_value_from_map_frame.
      apply suspended_after_switch_off.
    + intros w2 (Hflags & _). apply all_suspended_flags. rewrite Hflags.
      apply suspended_after_switch_off.
    + apply batch_frame_refl.
  - eapply (holds_during_stable
              (batch_frame (connection_flags (model w))
                 (auto_update_plot (model w)) (log w) (files w))).
    + intros [] i. apply charge_value_from_map_frame.
      by apply suspended_when_consistent.
    + intros w2 (Hflags & _). apply all_suspended_flags. rewrite Hflags.
      by apply suspended_when_consistent.
    + apply batch_frame_refl.
Qed.

Lemma set_run w r w' :
  set w = (r, w') ->
  log w' = log w
  /\ connection_flags (model w') = connection_flags (model w)
  /\ auto_update_plot (model w') = auto_update_plot (model w)
  /\ files w' = files w.
Proof.
  intros Hrun.
  destruct (store_components_frame _ _ _ _ w r w' (batch_frame_refl w) Hrun)
    as (Hflags & Hswitch & Hlog & Hfiles).
  done.
Qed.

Lemma charge_loop_start_suspended w :
  flags_consistent (model w) ->
  Forall (Forall (fun b => b = false))
         (connection_flags (model (charge_loop_start w))).
Proof.
  intros Hcons. unfold charge_loop_start.
  destruct (auto_update_plot (model w)) eqn:Hswitch.
  - apply suspended_after_switch_off.
  - by apply suspended_when_consistent.
Qed.

(** [charge] is its loop, run in the world [charge_loop_start], followed
    by the switch back and the one call of [update_plot]. *)
Lemma charge_course w only_fixed r2 w2 :
  charge_components only_fixed (charge_loop_start w) = (r2, w2) ->
  charge only_fixed w
  = match r2 with
    | Ok _ =>
        if auto_update_plot (model w)
        then update_plot
               (with_model (set_auto_update_plot true (model w2)) w2)
        else (Ok (), w2)
    | Raise e => (Raise e, w2)
    end.
Proof.
  unfold charge, charge_loop_start, mbind at 1, M_bind at 1, get_model at 1.
  destruct (auto_update_plot (model w)).
  - unfold mbind at 1, M_bind at 1, put_model at 1.
    unfold mbind at 1, M_bind at 1. intros ->.
    by destruct r2 as [[]|e].
  - unfold mbind at 1, M_bind at 1. cbn [mret M_ret].
    unfold mbind at 1, M_bind at 1. intros ->.
    by destruct r2 as [[]|e].
Qed.

(** C7, as the code has it.  Let no connection be active while automatic
    updates are off.  The charge batch is the loop over all components
    that [Model.charge] runs after switching the connections off: at the
    start of every turn of that loop every observer is suspended, the loop
    notifies no one - per parameter or otherwise - and leaves every
    observer suspended, and [charge] then notifies exactly once, after the
    loop, when automatic updates were on and the loop has completed, and
    not at all otherwise.  A store batch neither suspends nor notifies:
    [Model.set] leaves every connection flag and the switch as they are
    and produces no event, since it assigns no live value. *)
Theorem charge_store_batches w only_fixed :
  flags_consistent (model w) ->
  suspended_during_charge only_fixed w
  /\ (forall r2 w2,
        charge_components only_fixed (charge_loop_start w) = (r2, w2) ->
        log w2 = log (charge_loop_start w)
        /\ log (charge_loop_start w) = log w
        /\ all_suspended w2
        /\ charge only_fixed w
           = match r2 with
             | Ok _ =>
                 if auto_update_plot (model w)
                 then update_plot
                        (with_model (set_auto_update_plot true (model w2)) w2)
                 else (Ok (), w2)
             | Raise e => (Raise e, w2)
             end)
  /\ (forall r w', charge only_fixed w = (r, w') ->
        exists new,
          log w' = log w ++ new
          /\ ((new = [UpdatePlot] /\ r = Ok () /\
               auto_update_plot (model w) = true)
              \/ (new = [] /\
                  (auto_update_plot (model w) = false \/ exists e, r = Raise e)))
          /\ notifications new <= 1)
  /\ (forall r w', set w = (r, w') ->
        log w' = log w
        /\ connection_flags (model w') = connection_flags (model w)
        /\ auto_update_plot (model w') = auto_update_plot (model w)).
Proof.
  intros Hcons. split; [by apply charge_suspended|]. split; [|split].
  - intros r2 w2 Hloop.
    pose proof (charge_loop_start_suspended w Hcons) as Hoff.
    destruct (charge_components_frame _ _ _ _ only_fixed Hoff
                (charge_loop_start w) _ w2
                (batch_frame_refl (charge_loop_start w)) Hloop)
      as (Hflags & _ & Hlog & _).
    split; [done|]. split.
    { unfold charge_loop_start. by destruct (auto_update_plot (model w)). }
    split; [apply all_suspended_flags; by rewrite Hflags|].
    by apply charge_course.
  - intros r w' Hrun.
    destruct (charge_run _ _ _ _ Hcons Hrun)
      as [_ [[Hlog Hwhy]|(Hlog & -> & Hon)]].
    + exists []. rewrite app_nil_r.
      split; [done|]. split; [by right|vm_compute; lia].
    + exists [UpdatePlot].
      split; [done|]. split; [by left|vm_compute; lia].
  - intros r w' Hrun. apply set_run in Hrun. tauto.
Qed.

End BatchProperties.

(** ** The dataset-wide fit *)

Section MultifitFrames.
Context {R : Type} `{Arith R} `{Optimizers R}.
Implicit Types (E : Event R -> Prop) (I : World R -> Prop) (w : World R).

Lemma put_model_closed E I m : closed_under E I -> stable I (put_model m).
Proof. intros [Hm _] w r w' HI [= <- <-]. by apply Hm. Qed.

Lemma emit_closed E I e : closed_under E I -> E e -> stable I (emit e).
Proof. intros [_ He] HE w r w' HI [= <- <-]. by apply He. Qed.

Lemma update_plot_closed E I :
  closed_under E I -> E UpdatePlot -> stable I update_plot.
Proof.
  intros Hcl HE. unfold update_plot.
  apply stable_bind; [by eapply emit_closed|]. intros _.
  apply stable_bind; [apply stable_get_model|]. intros m.
  destruct (spectrum_plot m) as [[]|];
    [apply stable_ret|by eapply put_model_closed|apply stable_ret].
Qed.

Lemma get_parameter_closed I i j : stable I (get_parameter i j).
Proof.
  unfold get_parameter.
  apply stable_bind; [apply stable_get_model|]. intros m.
  destruct (components m !! i) as [c|]; [|apply stable_raise].
  destruct (parameters c !! j); [apply stable_ret|apply stable_raise].
Qed.

Lemma put_parameter_closed E I i j p :
  closed_under E I -> stable I (put_parameter i j p).
Proof.
  intros Hcl. unfold put_parameter.
  apply stable_bind; [apply stable_get_model|]. intros m.
  destruct (components m !! i) as [c|]; [|apply stable_raise].
  by eapply put_model_closed.
Qed.

Lemma assign_value_closed E I i j v :
  closed_under E I -> E UpdatePlot -> stable I (assign_value i j v).
Proof.
  intros Hcl HE. unfold assign_value.
  apply stable_bind; [apply get_parameter_closed|]. intros p.
  apply stable_bind; [by eapply put_parameter_closed|]. intros _.
  destruct (connected p && connection_active p);
    [by eapply update_plot_closed|apply stable_ret].
Qed.

Lemma charge_components_closed E I only_fixed :
  closed_under E I -> E UpdatePlot -> stable I (charge_components only_fixed).
Proof.
  intros Hcl HE. unfold charge_components.
  apply stable_bind; [apply stable_get_model|]. intros m.
  apply stable_for_each_M. intros [] i. unfold charge_value_from_map.
  apply stable_bind; [apply stable_get_model|]. intros m'.
  destruct (components m' !! i) as [c|]; [|apply stable_raise].
  apply stable_for_each_M. intros [] j.
  apply stable_bind; [apply get_parameter_closed|]. intros p.
  destruct (only_fixed && free p); [apply stable_ret|].
  destruct (map_ p !! _); [by eapply assign_value_closed|apply stable_raise].
Qed.

Lemma charge_closed E I only_fixed :
  closed_under E I -> E UpdatePlot -> stable I (charge only_fixed).
Proof.
  intros Hcl HE. unfold charge.
  apply stable_bind; [apply stable_get_model|]. intros m.
  apply stable_bind.
  { destruct (auto_update_plot m); [by eapply put_model_closed|apply stable_ret]. }
  intros _. apply stable_bind; [by apply (charge_components_closed E)|].
  intros _. destruct (auto_update_plot m); [|apply stable_ret].
  apply stable_bind; [apply stable_get_model|]. intros m'.
  apply stable_bind; [by eapply put_model_closed|]. intros _.
  by eapply update_plot_closed.
Qed.

Lemma fit_here_closed E I index fitter grad_ bounded :
  closed_under E I -> E (FitCalled index fitter grad_ bounded) ->
  stable I (fit_here index fitter grad_ bounded).
Proof.
  intros Hcl HE. unfold fit_here.
  apply stable_bind; [by eapply emit_closed|]. intros _.
  apply stable_bind; [apply stable_get_model|]. intros m.
  apply stable_bind; [apply stable_lift|]. intros m'.
  by eapply put_model_closed.
Qed.

Lemma set_not_slicing_indexes_closed E I index :
  closed_under E I -> stable I (set_not_slicing_indexes index).
Proof.
  intros Hcl. unfold set_not_slicing_indexes.
  apply stable_bind; [apply stable_get_model|]. intros m.
  by eapply put_model_closed.
Qed.

(** The invariants used below. *)
Lemma logged_closed E before : closed_under E (logged E before).
Proof.
  split.
  - intros w m (new & Hlog & Hnew). by exists new.
  - intros w e HE (new & Hlog & Hnew). exists (new ++ [e]). cbn.
    rewrite Hlog, app_assoc. split; [done|].
    apply Forall_app. split; [done|]. by apply Forall_singleton.
Qed.

Lemma files_closed (P : gmap string (FileContent R) -> Prop) :
  closed_under (fun _ => True) (fun w => P (files w)).
Proof. split; intros; done. Qed.

Lemma logged_refl E w : logged E (log w) w.
Proof. exists []. by rewrite app_nil_r. Qed.

Lemma logged_weaken E E' before w :
  (forall e, E e -> E' e) -> logged E before w -> logged E' before w.
Proof.
  intros Hsub (new & Hlog & Hnew). exists new. split; [done|].
  by eapply Forall_impl.
Qed.

End MultifitFrames.

Section Strings.

Lemma string_length_app (s t : string) :
  String.length (s +:+ t) = String.length s + String.length t.
Proof. induction s as [|a s IH]; simpl; [done|]. by rewrite IH. Qed.

Lemma substring_0_app (s t : string) :
  String.substring 0 (String.length s) (s +:+ t) = s.
Proof.
  induction s as [|a s IH]; simpl.
  - by destruct t.
  - by rewrite IH.
Qed.

Lemma drop_last_4_npz (s : string) : drop_last_4 (s +:+ ".npz") = s.
Proof.
  unfold drop_last_4. rewrite string_length_app. cbn [String.length].
  replace (String.length s + 4 - 4) with (String.length s) by lia.
  apply substring_0_app.
Qed.

Lemma savez_path_npz (s : string) :
  endswith s ".npz" = false -> savez_path s = s +:+ ".npz".
Proof. intros Hs. unfold savez_path. by rewrite Hs. Qed.

End Strings.

(** ** The archive of the parameter maps *)

Section ArchiveKeys.

Lemma pretty_N_char_no_underscore (x : N) :
  Ascii.eqb (pretty_N_char x) "_"%char = false.
Proof. unfold pretty_N_char. by repeat case_match. Qed.

Lemma pretty_N_go_no_underscore (x : N) (s : string) :
  has_underscore s = false -> has_underscore (pretty_N_go x s) = false.
Proof.
  revert s. induction (N.lt_wf_0 x) as [x _ IH]; intros s Hs.
  destruct (decide (x = 0)%N) as [->|Hx]; [by rewrite pretty_N_go_0|].
  rewrite pretty_N_go_step by lia. apply IH.
  - apply N.div_lt; lia.
  - cbn. by rewrite pretty_N_char_no_underscore.
Qed.

Lemma pretty_nat_no_underscore (n : nat) : has_underscore (pretty n) = false.
Proof.
  unfold pretty, pretty_nat, pretty, pretty_N.
  case_decide; [done|]. by apply pretty_N_go_no_underscore.
Qed.

Lemma string_app_inv_head (s t t' : string) : s +:+ t = s +:+ t' -> t = t'.
Proof. induction s as [|a s IH]; simpl; [done|]. intros [= ?]. by apply IH. Qed.

Lemma underscore_prefix_inj (a b x y : string) :
  has_underscore a = false -> has_underscore b = false ->
  a +:+ String "_" x = b +:+ String "_" y -> a = b.
Proof.
  revert b. induction a as [|c a IH]; intros [|d b]; simpl; try done.
  - intros _ Hb [= <- _]. by rewrite Ascii.eqb_refl in Hb.
  - intros Ha _ [= -> _]. by rewrite Ascii.eqb_refl in Ha.
  - intros [_ Ha]%orb_false_iff [_ Hb]%orb_false_iff [= -> Heq].
    f_equal. by apply IH.
Qed.

Lemma archive_key_index (i i' : nat) (cn cn' pn pn' : string) :
  archive_key i cn pn = archive_key i' cn' pn' -> i = i'.
Proof.
  unfold archive_key. intros Heq.
  apply (inj pretty).
  eapply underscore_prefix_inj; [apply pretty_nat_no_underscore..|exact Heq].
Qed.

Lemma archive_key_parameter (i : nat) (cn pn pn' : string) :
  archive_key i cn pn = archive_key i cn pn' ->
  replace_spaces (lower pn) = replace_spaces (lower pn').
Proof.
  unfold archive_key. intros Heq.
  apply string_app_inv_head in Heq. apply (string_app_inv_head "_") in Heq.
  apply string_app_inv_head in Heq. by apply (string_app_inv_head ".") in Heq.
Qed.

End ArchiveKeys.

Section ArchiveComplete.
Context {R : Type} `{Arith R}.
Implicit Types (c : Component R) (p q : Param R) (m : Model R).
Implicit Types (kw : Archive R).

Lemma archive_parameters_other (i : nat) c (ps : list (Param R)) kw (k : string) :
  (forall q, q ∈ ps -> archive_key i (comp_name c) (name q) <> k) ->
  foldl (fun kwds param =>
           <[archive_key i (comp_name c) (name param) := map_ param]> kwds)
        kw ps !! k = kw !! k.
Proof.
  revert kw. induction ps as [|q ps IH]; intros kw Hother; [done|].
  cbn [foldl]. rewrite IH by (intros q' Hq'; apply Hother; by right).
  apply lookup_insert_ne. apply Hother. left.
Qed.

Lemma archive_parameters_lookup (i : nat) c (ps : list (Param R)) kw p :
  NoDup ((fun p => replace_spaces (lower (name p))) <$> ps) ->
  p ∈ ps ->
  foldl (fun kwds param =>
           <[archive_key i (comp_name c) (name param) := map_ param]> kwds)
        kw ps !! archive_key i (comp_name c) (name p) = Some (map_ p).
Proof.
  revert kw. induction ps as [|q ps IH]; intros kw Hdup Hp.
  - by apply elem_of_nil in Hp.
  - cbn [fmap list_fmap] in Hdup. apply NoDup_cons in Hdup as [Hq Hdup].
    cbn [foldl].
    destruct (decide (replace_spaces (lower (name p))
                      = replace_spaces (lower (name q)))) as [Heq|Hne].
    + rewrite archive_parameters_other.
      * unfold archive_key. rewrite Heq. fold (archive_key i (comp_name c) (name q)).
        rewrite lookup_insert_eq. f_equal.
        apply elem_of_cons in Hp as [->|Hp]; [done|].
        destruct Hq. rewrite <- Heq.
        by apply (list_elem_of_fmap_2 (fun p => replace_spaces (lower (name p)))).
      * intros q' Hq' Hkey. apply archive_key_parameter in Hkey.
        destruct Hq. rewrite <- Heq, <- Hkey.
        by apply (list_elem_of_fmap_2 (fun p => replace_spaces (lower (name p)))).
    + apply elem_of_cons in Hp as [->|Hp]; [done|]. by apply IH.
Qed.

Lemma archive_components_other (cs : list (Component R)) (n : nat) kw
    (k : string) :
  (forall i cn pn, n <= i -> archive_key i cn pn <> k) ->
  snd (foldl (fun '(i, kwds) component =>
                (i + 1,
                 foldl (fun kwds param =>
                          <[archive_key i (comp_name component) (name param)
                            := map_ param]> kwds)
                       kwds (parameters component)))
             (n, kw) cs) !! k = kw !! k.
Proof.
  revert n kw. induction cs as [|c cs IH]; intros n kw Hother; [done|].
  cbn [foldl]. rewrite IH by (intros i cn pn Hi; apply Hother; lia).
  apply archive_parameters_other. intros q _. by apply Hother.
Qed.

Lemma archive_components_lookup (cs : list (Component R)) (n : nat) kw
    (k : nat) c p :
  cs !! k = Some c -> distinct_parameter_names c -> p ∈ parameters c ->
  snd (foldl (fun '(i, kwds) component =>
                (i + 1,
                 foldl (fun kwds param =>
                          <[archive_key i (comp_name component) (name param)
                            := map_ param]> kwds)
                       kwds (parameters component)))
             (n, kw) cs) !! archive_key (n + k) (comp_name c) (name p)
  = Some (map_ p).
Proof.
  revert n kw k. induction cs as [|c0 cs IH]; intros n kw k Hc Hdup Hp;
    [done|].
  cbn [foldl]. destruct k as [|k].
  - injection Hc as ->. rewrite Nat.add_0_r.
    rewrite archive_components_other.
    + by apply archive_parameters_lookup.
    + intros i cn pn Hi Hkey. apply archive_key_index in Hkey. lia.
  - replace (n + S k) with (n + 1 + k) by lia. by apply IH.
Qed.

(** Every parameter map of the model is in the archive, under the key of
    its component index, component name and parameter name. *)
Lemma parameter_archive_complete m (i : nat) c p :
  components m !! i = Some c -> distinct_parameter_names c ->
  p ∈ parameters c ->
  parameter_archive m !! archive_key i (comp_name c) (name p) = Some (map_ p).
Proof.
  intros Hc Hdup Hp. unfold parameter_archive.
  by apply (archive_components_lookup _ 0 ∅ i).
Qed.

End ArchiveComplete.

Section MultifitPhases.
Context {R : Type} `{Arith R} `{Optimizers R}.
Implicit Types (w : World R) (E : Event R -> Prop).

Lemma multifit_start_run fitter autosave autosave_every w :
  exists w1,
    multifit_start fitter autosave autosave_every w
    = (Ok (resolve_fitter fitter, if autosave then checkpoint_name w else ""), w1)
    /\ model w1 = model w
    /\ cwd w1 = cwd w /\ temp_token w1 = temp_token w
    /\ logged message_event (log w) w1
    /\ files w1 = if autosave
                  then <[checkpoint_path w := EmptyFile]> (files w)
                  else files w.
Proof.
  unfold multifit_start, mbind, M_bind, mret, M_ret, emit, information, emit,
    mkstemp, resolve_fitter.
  destruct fitter as [f|], autosave; cbn;
    fold (checkpoint_name w); rewrite ?drop_last_4_npz;
    eexists; (split; [reflexivity|]); cbn; repeat split;
    try apply logged_refl;
    try (eexists; split; [rewrite <- ?app_assoc; reflexivity|]);
    repeat constructor.
Qed.

Lemma check_mask_run mask w r w' :
  check_mask mask w = (r, w') ->
  (r = Ok () /\ w' = w /\
   forall mk, mask = Some mk -> mask_shape mk = navigation_shape (model w))
  \/ (exists mk text,
        mask = Some mk /\ mask_shape mk <> navigation_shape (model w) /\
        r = Raise (SystemExit text) /\
        w' = with_log (log w ++ [FatalWarning text]) w).
Proof.
  unfold check_mask, mbind, M_bind, get_model, warning_exit, mbind, M_bind,
    emit, raise. cbn.
  destruct mask as [mk|]; [case_decide as Hshape|]; intros [= <- <-].
  - right. by eexists _, _.
  - left. repeat split. intros mk' [= <-].
    by destruct (decide (mask_shape mk = navigation_shape (model w))).
  - left. repeat split. done.
Qed.

(** Which structure the choice of the bounding mode leaves in the model. *)
Lemma select_bounding_cases fitter bounded w :
  exists m',
    select_bounding fitter bounded w
    = (Ok (chosen_bounding fitter bounded),
       with_log (log w ++ bounding_events fitter bounded) (with_model m' w))
    /\ (bounded = true -> fitter = "mpfit" ->
        m' = set_mpfit_parameters_info (model w)
        /\ chosen_bounding fitter bounded = None)
    /\ (bounded = true -> fitter = "tnc" \/ fitter = "l_bfgs_b" ->
        m' = set_boundaries (model w)
        /\ chosen_bounding fitter bounded = None)
    /\ (bounded = false \/ ~ supports_bounds fitter ->
        m' = model w /\ chosen_bounding fitter bounded = Some false).
Proof.
  unfold select_bounding, chosen_bounding, bounding_events, information,
    supports_bounds, mbind, M_bind, mret, M_ret, get_model, put_model, emit.
  destruct bounded; [repeat case_decide|]; cbn.
  - exists (set_mpfit_parameters_info (model w)). split; [done|].
    split; [done|]. split.
    + intros _ [?|?]; by subst.
    + intros [?|Hno]; [done|]. destruct Hno. by left.
  - exists (set_boundaries (model w)). split; [done|].
    split; [done|]. split; [done|].
    intros [?|Hno]; [done|]. destruct Hno. by right.
  - exists (model w). split; [done|]. split; [done|]. split; [done|done].
  - exists (model w). split; [rewrite app_nil_r; by destruct w|].
    split; [done|]. split; [done|done].
Qed.

Lemma save_parameters2file_logged E before filename :
  (forall a, E (Saved (savez_path filename) a)) ->
  stable (logged E before) (save_parameters2file filename).
Proof.
  intros HE w r w' (new & Hlog & Hnew).
  unfold save_parameters2file, mbind, M_bind, get_model, np_savez. cbn.
  intros [= <- <-]. exists (new ++ [Saved (savez_path filename)
                                      (parameter_archive (model w))]).
  cbn. rewrite Hlog, app_assoc. split; [done|].
  apply Forall_app. split; [done|]. apply Forall_singleton, HE.
Qed.

(** Every turn of the loop only charges, fits, reports progress and saves
    the checkpoint. *)
Lemma fit_position_logged before mask fitter charge_only_fixed grad_ autosave
    autosave_every bounded autosave_fn i index :
  stable (logged (position_event fitter grad_ bounded (savez_path autosave_fn))
                 before)
         (fit_position mask fitter charge_only_fixed grad_ autosave
            autosave_every bounded autosave_fn i index).
Proof.
  pose proof (logged_closed
    (position_event fitter grad_ bounded (savez_path autosave_fn)) before)
    as Hcl.
  unfold fit_position. apply stable_bind.
  - destruct (match mask with None => _ | Some _ => _ end); [|apply stable_ret].
    apply stable_bind; [by eapply set_not_slicing_indexes_closed|]. intros _.
    apply stable_bind; [by eapply emit_closed|]. intros _.
    apply stable_bind; [by eapply charge_closed|]. intros _.
    apply stable_bind; [by eapply fit_here_closed|]. intros _.
    apply stable_bind; [by eapply emit_closed|]. intros _.
    apply stable_ret.
  - intros i'. apply stable_bind; [|intros _; apply stable_ret].
    destruct autosave; [|apply stable_ret].
    case_decide; [apply stable_raise|].
    case_decide; [|apply stable_ret].
    by apply save_parameters2file_logged.
Qed.

(** The course of [multifit]: the first lines, then either the mask is
    refused, or the navigation shape is empty, or the bounding mode is
    chosen - which leaves its structure in the model [m2] - the positions
    are visited and the last lines run. *)
Lemma multifit_course mask fitter charge_only_fixed grad_ autosave
    autosave_every bounded w r w' :
  multifit mask fitter charge_only_fixed grad_ autosave autosave_every bounded w
  = (r, w') ->
  let f := resolve_fitter fitter in
  let fn := if autosave then checkpoint_name w else "" in
  exists w1,
    multifit_start fitter autosave autosave_every w = (Ok (f, fn), w1)
    /\ ((exists mk text,
           mask = Some mk /\ mask_shape mk <> navigation_shape (model w) /\
           r = Raise (SystemExit text) /\
           w' = with_log (log w1 ++ [FatalWarning text]) w1)
        \/ ((forall mk, mask = Some mk ->
               mask_shape mk = navigation_shape (model w)) /\
            ((navigation_shape (model w) = [] /\ r = Raise IndexError /\ w' = w1)
             \/ (navigation_shape (model w) <> [] /\
                 exists m2 r3 w3,
                   ((bounded = true -> f = "mpfit" ->
                     m2 = set_mpfit_parameters_info (model w)
                     /\ chosen_bounding f bounded = None)
                    /\ (bounded = true -> f = "tnc" \/ f = "l_bfgs_b" ->
                        m2 = set_boundaries (model w)
                        /\ chosen_bounding f bounded = None)
                    /\ (bounded = false \/ ~ supports_bounds f ->
                        m2 = model w
                        /\ chosen_bounding f bounded = Some false))
                   /\ for_each_M
                     (fit_position mask f charge_only_fixed grad_ autosave
                        autosave_every (chosen_bounding f bounded) fn)
                     (ndindex (navigation_shape (model w))) 0
                     (with_log (log w1 ++ bounding_events f bounded)
                        (with_model m2 w1))
                   = (r3, w3)
                   /\ match r3 with
                      | Raise e => r = Raise e /\ w' = w3
                      | Ok _ =>
                          let w4 := with_log (log w3 ++ [ProgressFinished]) w3 in
                          if autosave then
                            os_remove (fn +:+ ".npz")
                              (with_log
                                 (log w4 ++
                                  [Information
                                     ("Deleting the temporary file " +:+ fn
                                      +:+ "npz" +:+ " pixels")]) w4)
                            = (r, w')
                          else r = Ok () /\ w' = w4
                      end)))).
Proof.
  intros Hrun. cbn zeta.
  destruct (multifit_start_run fitter autosave autosave_every w)
    as (w1 & Hstart & Hmodel & _).
  exists w1. split; [done|]. unfold multifit in Hrun.
  unfold mbind at 1, M_bind at 1 in Hrun. rewrite Hstart in Hrun.
  unfold mbind at 1, M_bind at 1 in Hrun.
  destruct (check_mask mask w1) as [rm wm] eqn:Hmask.
  apply check_mask_run in Hmask
    as [(-> & -> & Hok)|(mk & text & -> & Hne & -> & ->)].
  2:{ injection Hrun as <- <-. left. exists mk, text. by rewrite <- Hmodel. }
  right. rewrite Hmodel in Hok. split; [done|].
  unfold mbind at 1, M_bind at 1, get_model at 1 in Hrun.
  unfold mbind at 1, M_bind at 1, lift at 1 in Hrun. rewrite Hmodel in Hrun.
  destruct (navigation_shape (model w)) as [|n shape] eqn:Hshape.
  { injection Hrun as <- <-. by left. }
  right. split; [done|]. cbn [cumprod_last mbind result_bind] in Hrun.
  unfold mbind at 1, M_bind at 1 in Hrun.
  destruct (select_bounding_cases (resolve_fitter fitter) bounded w1)
    as (m2 & Hsel & Hcases). rewrite Hsel in Hrun. rewrite Hmodel in Hcases.
  unfold mbind at 1, M_bind at 1 in Hrun.
  destruct (for_each_M _ _ 0 _) as [[i|e] w3] eqn:Hloop.
  - exists m2, (Ok i), w3. split; [done|]. split; [done|]. cbn zeta.
    unfold mbind at 1, M_bind at 1, emit at 1 in Hrun.
    destruct autosave.
    + unfold mbind, M_bind, information, emit in Hrun. done.
    + by injection Hrun as <- <-.
  - injection Hrun as <- <-. exists m2, (Raise e), w3. done.
Qed.

(** The same course, without the model in which the loop starts. *)
Lemma multifit_phases mask fitter charge_only_fixed grad_ autosave
    autosave_every bounded w r w' :
  multifit mask fitter charge_only_fixed grad_ autosave autosave_every bounded w
  = (r, w') ->
  let f := resolve_fitter fitter in
  let fn := if autosave then checkpoint_name w else "" in
  exists w1,
    multifit_start fitter autosave autosave_every w = (Ok (f, fn), w1)
    /\ ((exists mk text,
           mask = Some mk /\ mask_shape mk <> navigation_shape (model w) /\
           r = Raise (SystemExit text) /\
           w' = with_log (log w1 ++ [FatalWarning text]) w1)
        \/ ((forall mk, mask = Some mk ->
               mask_shape mk = navigation_shape (model w)) /\
            ((navigation_shape (model w) = [] /\ r = Raise IndexError /\ w' = w1)
             \/ (navigation_shape (model w) <> [] /\
                 exists m2 r3 w3,
                   for_each_M
                     (fit_position mask f charge_only_fixed grad_ autosave
                        autosave_every (chosen_bounding f bounded) fn)
                     (ndindex (navigation_shape (model w))) 0
                     (with_log (log w1 ++ bounding_events f bounded)
                        (with_model m2 w1))
                   = (r3, w3)
                   /\ match r3 with
                      | Raise e => r = Raise e /\ w' = w3
                      | Ok _ =>
                          let w4 := with_log (log w3 ++ [ProgressFinished]) w3 in
                          if autosave then
                            os_remove (fn +:+ ".npz")
                              (with_log
                                 (log w4 ++
                                  [Information
                                     ("Deleting the temporary file " +:+ fn
                                      +:+ "npz" +:+ " pixels")]) w4)
                            = (r, w')
                          else r = Ok () /\ w' = w4
                      end)))).
Proof.
  intros Hrun. cbn zeta.
  destruct (multifit_course _ _ _ _ _ _ _ _ _ _ Hrun) as (w1 & Hstart & Hcases).
  exists w1. split; [done|].
  destruct Hcases as [Hrefused|[Hok Hcases]]; [by left|]. right.
  split; [done|].
  destruct Hcases as [Hempty|(Hshape & m2 & r3 & w3 & _ & Hloop & Hend)];
    [by left|].
  right. split; [done|]. by exists m2, r3, w3.
Qed.

Lemma os_remove_run path w r w' :
  os_remove path w = (r, w') ->
  (r = Ok () /\ is_Some (files w !! path) /\
   w' = with_log (log w ++ [Removed path])
          (with_files (delete path (files w)) w))
  \/ (r = Raise IOError /\ files w !! path = None /\ w' = w).
Proof.
  unfold os_remove. destruct (files w !! path) eqn:Hfile; intros [= <- <-].
  - left. eauto.
  - by right.
Qed.

Lemma positions_logged before mask fitter charge_only_fixed grad_ autosave
    autosave_every bounded autosave_fn indices i :
  stable (logged (position_event fitter grad_ bounded (savez_path autosave_fn))
                 before)
         (for_each_M (fit_position mask fitter charge_only_fixed grad_ autosave
                        autosave_every bounded autosave_fn) indices i).
Proof. apply stable_for_each_M. intros i' index. apply fit_position_logged. Qed.

(** The events of [multifit], in order: messages, the choice of the bounding
    mode, the positions, the last lines. *)
Lemma multifit_log_shape mask fitter charge_only_fixed grad_ autosave
    autosave_every bounded w r w' :
  multifit mask fitter charge_only_fixed grad_ autosave autosave_every bounded w
  = (r, w') ->
  let f := resolve_fitter fitter in
  let fn := if autosave then checkpoint_name w else "" in
  exists pre choice loop post,
    log w' = log w ++ pre ++ choice ++ loop ++ post
    /\ Forall message_event pre
    /\ (choice = bounding_events f bounded
        \/ (choice = [] /\ loop = [] /\ post = [] /\ exists e, r = Raise e))
    /\ Forall (position_event f grad_ (chosen_bounding f bounded)
                 (savez_path fn)) loop
    /\ Forall finish_event post.
Proof.
  intros Hrun. cbn zeta.
  destruct (multifit_phases _ _ _ _ _ _ _ _ _ _ Hrun) as (w1 & Hstart & Hcases).
  destruct (multifit_start_run fitter autosave autosave_every w)
    as (w1' & Hstart' & _ & _ & _ & (pre & Hpre & Hmsg) & _).
  rewrite Hstart in Hstart'. injection Hstart' as <-.
  destruct Hcases as [(mk & text & -> & Hne & -> & ->)|[Hok Hcases]].
  { exists (pre ++ [FatalWarning text]), [], [], []. cbn [log with_log].
    rewrite Hpre, !app_nil_r, app_assoc. repeat split; eauto.
    - apply Forall_app. split; [done|]. by apply Forall_singleton.
    - right. eauto. }
  destruct Hcases as [(Hshape & -> & ->)|(Hshape & m2 & r3 & w3 & Hloop & Hend)].
  { exists pre, [], [], []. rewrite Hpre, !app_nil_r.
    repeat split; eauto. right. eauto. }
  set (w2 := with_log _ _) in Hloop.
  destruct (positions_logged (log w2) _ _ _ _ _ _ _ _ _ _ w2 _ _
              (logged_refl _ w2) Hloop) as (loop & Hlog3 & Hevents).
  assert (Hlog2 : log w2 = log w ++ pre ++ bounding_events
                                          (resolve_fitter fitter) bounded).
  { subst w2. cbn. by rewrite Hpre, app_assoc. }
  destruct r3 as [i|e].
  - cbn zeta in Hend. destruct autosave.
    + apply os_remove_run in Hend
        as [(-> & _ & ->)|(-> & _ & ->)]; cbn [log with_log with_files].
      * exists pre, (bounding_events (resolve_fitter fitter) bounded), loop,
          [ProgressFinished;
           Information ("Deleting the temporary file " +:+ checkpoint_name w
                        +:+ "npz" +:+ " pixels");
           Removed (checkpoint_name w +:+ ".npz")].
        rewrite Hlog3, Hlog2, <- !app_assoc. cbn [app].
        repeat split; eauto. repeat constructor.
      * exists pre, (bounding_events (resolve_fitter fitter) bounded), loop,
          [ProgressFinished;
           Information ("Deleting the temporary file " +:+ checkpoint_name w
                        +:+ "npz" +:+ " pixels")].
        rewrite Hlog3, Hlog2, <- !app_assoc. cbn [app].
        repeat split; eauto. repeat constructor.
    + destruct Hend as [-> ->]. cbn [log with_log].
      exists pre, (bounding_events (resolve_fitter fitter) bounded), loop,
        [ProgressFinished].
      rewrite Hlog3, Hlog2, <- !app_assoc. cbn [app].
      repeat split; eauto. repeat constructor.
  - destruct Hend as [-> ->].
    exists pre, (bounding_events (resolve_fitter fitter) bounded), loop, [].
    rewrite Hlog3, Hlog2, <- !app_assoc, app_nil_r.
    repeat split; eauto.
Qed.

Lemma message_event_class (e : Event R) :
  message_event e -> bounding_event e = false /\ charge_or_fit_event e = false.
Proof. by destruct e. Qed.








(** C6.  With a mask whose shape differs from the navigation shape,
    [multifit] leaves with a configuration error before any position is
    charged or fitted: the model is untouched and no charge and no fit is
    among the events. *)
Theorem multifit_mask_mismatch mk fitter charge_only_fixed grad_ autosave
    autosave_every bounded w :
  mask_shape mk <> navigation_shape (model w) ->
  exists text w',
    multifit (Some mk) fitter charge_only_fixed grad_ autosave autosave_every
      bounded w = (Raise (SystemExit text), w')
    /\ model w' = model w
    /\ exists new,
         log w' = log w ++ new
         /\ Forall (fun e => charge_or_fit_event e = false) new
         /\ (FatalWarning text ∈ new).
Proof.
  intros Hne.
  destruct (multifit (Some mk) fitter charge_only_fixed grad_ autosave
              autosave_every bounded w) as [r w'] eqn:Hrun.
  destruct (multifit_phases _ _ _ _ _ _ _ _ _ _ Hrun) as (w1 & Hstart & Hcases).
  destruct (multifit_start_run fitter autosave autosave_every w)
    as (w1' & Hstart' & Hmodel & _ & _ & (pre & Hpre & Hmsg) & _).
  rewrite Hstart in Hstart'. injection Hstart' as <-.
  destruct Hcases as [(mk' & text & _ & _ & -> & ->)|[Hok _]].
  - exists text, (with_log (log w1 ++ [FatalWarning text]) w1).
    split; [done|]. split; [done|].
    exists (pre ++ [FatalWarning text]). cbn [log with_log].
    rewrite Hpre, app_assoc. split; [done|]. split.
    + apply Forall_app. split; [|by apply Forall_singleton].
      eapply Forall_impl; [exact Hmsg|]. intros e He.
      by apply message_event_class in He as [_ ?].
    + rewrite elem_of_app, list_elem_of_singleton. by right.
  - by destruct Hne, (Hok mk).
Qed.

(** One turn of the loop with autosaving: when the number of fitted
    positions it returns is a multiple of [autosave_every], the checkpoint
    file holds the archive of all parameter maps of the model. *)
Lemma fit_position_checkpoint mask fitter charge_only_fixed grad_
    autosave_every bounded autosave_fn i index w1 i' w1' :
  fit_position mask fitter charge_only_fixed grad_ true autosave_every bounded
    autosave_fn i index w1 = (Ok i', w1') ->
  0 < autosave_every
  /\ (i' mod autosave_every = 0 ->
      files w1' !! savez_path autosave_fn
      = Some (Npz (parameter_archive (model w1')))).
Proof.
  unfold fit_position. unfold mbind at 1, M_bind at 1.
  match goal with
  | |- context [match ?first w1 with _ => _ end] =>
      destruct (first w1) as [[i1|e] wa] eqn:Hfirst
  end; [|done].
  unfold mbind at 1, M_bind at 1.
  case_decide as Hzero; [done|].
  case_decide as Hmod.
  - unfold save_parameters2file, mbind, M_bind, get_model, np_savez. cbn.
    intros [= <- <-]. split; [lia|]. intros _. cbn.
    by rewrite lookup_insert_eq.
  - cbn. intros [= <- <-]. split; [lia|]. done.
Qed.

Lemma save_parameters2file_keeps_file path filename :
  stable (fun w => is_Some (files w !! path)) (save_parameters2file filename).
Proof.
  intros w r w' Hfile.
  unfold save_parameters2file, mbind, M_bind, get_model, np_savez. cbn.
  intros [= <- <-]. cbn. rewrite lookup_insert_is_Some.
  destruct (decide (savez_path filename = path)); [by left|by right].
Qed.

Lemma fit_position_keeps_file path mask fitter charge_only_fixed grad_ autosave
    autosave_every bounded autosave_fn i index :
  stable (fun w => is_Some (files w !! path))
         (fit_position mask fitter charge_only_fixed grad_ autosave
            autosave_every bounded autosave_fn i index).
Proof.
  pose proof (files_closed
                (fun fs : gmap string (FileContent R) => is_Some (fs !! path)))
    as Hcl.
  unfold fit_position. apply stable_bind.
  - destruct (match mask with None => _ | Some _ => _ end); [|apply stable_ret].
    apply stable_bind; [by eapply set_not_slicing_indexes_closed|]. intros _.
    apply stable_bind; [by eapply emit_closed|]. intros _.
    apply stable_bind; [by eapply charge_closed|]. intros _.
    apply stable_bind; [by eapply fit_here_closed|]. intros _.
    apply stable_bind; [by eapply emit_closed|]. intros _.
    apply stable_ret.
  - intros i'. apply stable_bind; [|intros _; apply stable_ret].
    destruct autosave; [|apply stable_ret].
    case_decide; [apply stable_raise|].
    case_decide; [|apply stable_ret].
    apply save_parameters2file_keeps_file.
Qed.

End MultifitPhases.

(** ** Construction of an Edge *)

Section EdgeProperties.
Context {R : Type} `{EdgeBase R}.
Implicit Types (env : EdgeEnvironment R).

Lemma readgosfile_ok env element subshell onset f table :
  readgosfile env element subshell = Ok (onset, f, table) ->
  exists subshells entry,
    edges_dict env !! element = Some subshells
    /\ subshells !! gatan_subshell subshell = Some entry.
Proof.
  unfold readgosfile.
  destruct (edges_dict env !! element) as [subshells|]; [|done].
  destruct (subshells !! gatan_subshell subshell) as [entry|] eqn:Hsub;
    [|done].
  intros _. by exists subshells, entry.
Qed.

(** C9.  Constructing an Edge whose external resource is missing - the
    directory of the tables is unset, or the element or the subshell is not
    in the database - ends at construction time with the configuration
    error of [warning_exit] and its descriptive text; and an Edge that has
    been constructed had its directory, element and subshell: the failure
    is never left to evaluation or fitting. *)
Theorem edge_init_missing_resource env element_subshell intensity delta :
  (GOS_dir env = "None" ->
   Edge_init env element_subshell intensity delta
   = Raise (SystemExit gos_dir_message))
  /\ (forall element subshell,
        GOS_dir env <> "None" ->
        component_init ["delta"; "intensity"; "fslist"; "effective_angle"]
        = Ok () ->
        split_underscore element_subshell = [element; subshell] ->
        initial_values element subshell intensity delta = Ok () ->
        (edges_dict env !! element = None ->
         Edge_init env element_subshell intensity delta
         = Raise (SystemExit ("The given element " +:+ element
                              +:+ " is not in the database.")))
        /\ (forall subshells,
              edges_dict env !! element = Some subshells ->
              subshells !! gatan_subshell subshell = None ->
              exists rest,
                Edge_init env element_subshell intensity delta
                = Raise (SystemExit ("The given subshell "
                                     +:+ gatan_subshell subshell
                                     +:+ " is not in the database."
                                     +:+ rest))))
  /\ (forall edge,
        Edge_init env element_subshell intensity delta = Ok edge ->
        GOS_dir env <> "None"
        /\ exists subshells entry,
             split_underscore element_subshell = [element edge; subshell edge]
             /\ edges_dict env !! element edge = Some subshells
             /\ subshells !! gatan_subshell (subshell edge) = Some entry).
Proof.
  split; [|split].
  - intros Hdir. unfold Edge_init. by rewrite Hdir.
  - intros element subshell Hdir Hbase Hsplit Hvalues.
    assert (Hcheck : String.eqb (GOS_dir env) "None" = false)
      by by apply String.eqb_neq.
    unfold Edge_init. rewrite Hcheck, Hbase, Hsplit. cbn. rewrite Hvalues. cbn.
    unfold readgosfile. split.
    + by intros ->.
    + intros subshells -> ->. by eexists.
  - intros edge. unfold Edge_init.
    destruct (String.eqb (GOS_dir env) "None") eqn:Hcheck; [done|].
    apply String.eqb_neq in Hcheck. cbn.
    destruct (component_init _) as [[]|]; [|done]. cbn.
    destruct (split_underscore element_subshell) as [|el [|sub [|]]] eqn:Hsplit;
      try done.
    cbn. destruct (initial_values el sub intensity delta) as [[]|]; [|done].
    cbn.
    destruct (readgosfile env el sub) as [[[onset f] table]|] eqn:Hread;
      [|done].
    cbn. destruct (integrategos table onset delta) as [table'|]; [|done].
    intros [= <-]. cbn. split; [done|].
    apply readgosfile_ok in Hread as (subshells & entry & Hel & Hsub).
    by exists subshells, entry.
Qed.

End EdgeProperties.

(** ** The setter of the low-loss spectrum *)

Section LowLossSetter.
Context {R : Type} `{Arith R}.

Lemma length_ramp (start step : R) (n : nat) : length (ramp start step n) = n.
Proof.
  revert start. induction n as [|n IH]; intros start; [done|].
  cbn. by rewrite IH.
Qed.

(** After a response has been attached the model is convolved and its
    convolution axis has [axis.size + ll_axis.size - 1] samples. *)
Lemma set_low_loss_spans (ll : LowLoss R) (m m' : Model R) :
  set_low_loss (Some ll) m = Ok m' ->
  size (model_axis m) = length (axis (model_axis m)) ->
  (forall index, length (ll_call ll index) = ll_size ll) ->
  model_convolved m' = true /\ convolution_axis_spans m'.
Proof.
  unfold set_low_loss, set_convolution_axis, generate_axis. cbn.
  case_decide as Hneg; [done|]. cbn. intros [= <-] Hsize Hll.
  split; [done|]. intros conv_axis resp. cbn.
  unfold low_loss_here. cbn. intros [= <-] [= <-].
  rewrite length_ramp, Hll, <- Hsize. lia.
Qed.

End LowLossSetter.

(** ** The example model, evaluated *)

Section Evaluated.
Import Example.

Example call_plain_example :
  __call__ plain_model false true = Ok [5; 8; 14]%Z
  /\ __call__ plain_model false false = Ok [105; 108; 114]%Z.
Proof. split; vm_compute; reflexivity. Qed.

Example call_convolved_example :
  convolution_axis convolved_model = Some [-1; 0; 1; 2; 3]%Z
  /\ __call__ convolved_model false true = Ok [-1; 8; 26]%Z
  /\ __call__ convolved_model true true = Ok [5; 8; 14]%Z.
Proof. repeat split; vm_compute; reflexivity. Qed.

Example set_p0_example :
  _set_p0 plain_model = Ok (with_p0 [5; 3]%Z plain_model)
  /\ _set_p0 fixed_model = Raise TypeError.
Proof. split; vm_compute; reflexivity. Qed.

Example jacobian_example :
  match _jacobian convolved_model [5; 3]%Z None with
  | Ok (matrix, _) => matrix = [[1; 1; 1]; [-6; 3; 21]]%Z
  | Raise _ => False
  end
  /\ match _jacobian plain_model [5; 3]%Z None with
     | Ok (matrix, _) => matrix = [[1; 1; 1]; [0; 3; 9]]%Z
     | Raise _ => False
     end.
Proof. split; vm_compute; reflexivity. Qed.

Example charge_example :
  let '(r, w) := charge false (world_of plotted_model) in
  r = Ok () /\ log w = [UpdatePlot]
  /\ live_values (components (model w))
     = [[Scalar 5]; [Scalar 3; Scalar 6]; [Scalar 0]]%Z.
Proof. vm_compute. repeat split. Qed.

Example multifit_example :
  let '(r, w) := multifit (Some skip_middle) (Some "leastsq") false false true 1
                   true (world_of plain_model) in
  r = Ok ()
  /\ files w = ∅
  /\ filter (fun e => charge_or_fit_event e = true) (log w)
     = [Charged [0] false; FitCalled [0] "leastsq" false (Some false);
        Charged [2] false; FitCalled [2] "leastsq" false (Some false)]
  /\ p0 (model w) = Some [9; 5]%Z.
Proof. vm_compute. repeat split. Qed.

Example multifit_interrupted_example :
  let '(r, w) := multifit None (Some "broken") false false true 2 false
                   (world_of plain_model) in
  r = Raise FitError
  /\ files w !! "/data/hyperspy_autosave-k3x9qa.npz" = Some EmptyFile.
Proof. vm_compute. repeat split. Qed.

Example edge_example :
  (exists edge, Edge_init environment "Fe_L3" 1%Z 0%Z = Ok edge)
  /\ Edge_init environment "Cu_K" 1%Z 0%Z
     = Raise (SystemExit "The given element Cu is not in the database.")
  /\ Edge_init environment "Fe" 1%Z 0%Z = Raise ValueError.
Proof. split; [eexists; vm_compute; reflexivity|]. split; vm_compute; reflexivity. Qed.

End Evaluated.

(** ** The theorems at the example model *)

Lemma call_convolved_composition_witness :
  model_convolved Example.convolved_model = true
  /\ __call__ Example.convolved_model false true
     = convolved_composition Example.convolved_model.
Proof.
  assert (Hconv : model_convolved Example.convolved_model = true)
    by (vm_compute; reflexivity).
  exact (conj Hconv
           (call_convolved_composition Example.convolved_model Hconv)).
Defined.

Lemma call_length_witness :
  length (channel_switches Example.convolved_model)
  = length (axis (model_axis Example.convolved_model))
  /\ convolution_axis_spans Example.convolved_model
  /\ (forall v, __call__ Example.convolved_model false true = Ok v ->
                length v = count_true (channel_switches Example.convolved_model)).
Proof.
  assert (Hmask : length (channel_switches Example.convolved_model)
                  = length (axis (model_axis Example.convolved_model)))
    by (vm_compute; reflexivity).
  assert (Hspan : convolution_axis_spans Example.convolved_model).
  { intros conv_axis resp Hc Hr. vm_compute in Hc, Hr.
    injection Hc as <-. injection Hr as <-. vm_compute. reflexivity. }
  exact (conj Hmask (conj Hspan
           (proj1 (call_length Example.convolved_model false true
                     Hmask Hspan)))).
Defined.

Lemma set_p0_concatenation_witness :
  _set_p0 Example.plain_model = Ok (with_p0 [5; 3]%Z Example.plain_model)
  /\ p0 (with_p0 [5; 3]%Z Example.plain_model)
     = Some (free_parameter_vector Example.plain_model).
Proof.
  assert (Hrun : _set_p0 Example.plain_model
                 = Ok (with_p0 [5; 3]%Z Example.plain_model))
    by (vm_compute; reflexivity).
  exact (conj Hrun
           (proj1 (set_p0_concatenation Example.plain_model _ Hrun))).
Defined.

Lemma set_p0_needs_free_parameter_witness :
  _set_p0 Example.fixed_model = Raise TypeError.
Proof.
  apply (proj1 (set_p0_needs_free_parameter Example.fixed_model)).
  intros c Hc Hact. vm_compute in Hc.
  apply elem_of_cons in Hc as [->|Hc]; [vm_compute; reflexivity|].
  apply elem_of_cons in Hc as [->|Hc]; [vm_compute in Hact; discriminate|].
  by apply elem_of_nil in Hc.
Defined.

Lemma example_gradients_unshared (m : Model Z) :
  components m
  = [Example.offset_component; Example.line_component; Example.idle_component] ->
  gradients_unshared m.
Proof.
  intros Hcs c p Hc Hp _ vals x. rewrite Hcs in Hc.
  repeat (apply elem_of_cons in Hc as [->|Hc]);
    [..|by apply elem_of_nil in Hc]; cbn in Hp;
    repeat (apply elem_of_cons in Hp as [->|Hp]);
    solve [discriminate | by apply elem_of_nil in Hp].
Qed.

Lemma jacobian_twin_rows_witness :
  gradients_unshared Example.convolved_model
  /\ exists m' prs,
       _jacobian Example.convolved_model [5; 3]%Z None
       = Ok ([[1; 1; 1]; [-6; 3; 21]]%Z, m')
       /\ map fst prs = active_free_parameters m'
       /\ restrict_and_weigh Example.convolved_model None (map snd prs)
          = Ok [[1; 1; 1]; [-6; 3; 21]]%Z
       /\ jacobian_of_the_spec Example.convolved_model [5; 3]%Z None
          = Ok [[1; 1; 1]; [-6; 3; 21]]%Z.
Proof.
  assert (Hown : gradients_unshared Example.convolved_model)
    by (by apply example_gradients_unshared).
  split; [exact Hown|].
  set (m' := match _jacobian Example.convolved_model [5; 3]%Z None with
             | Ok (_, m) => m
             | Raise _ => Example.convolved_model
             end).
  assert (Hrun : _jacobian Example.convolved_model [5; 3]%Z None
                 = Ok ([[1; 1; 1]; [-6; 3; 21]]%Z, m'))
    by (vm_compute; reflexivity).
  destruct (jacobian_twin_rows Example.convolved_model _ _ _ _ Hown Hrun)
    as (_ & prs & _ & _ & Horder & _ & Hmatrix & Hspec).
  exists m', prs.
  exact (conj Hrun (conj Horder (conj Hmatrix (Hspec eq_refl)))).
Defined.

(** C4 as stated fails in two ways.  In a model without convolution the
    axis is restricted to [channel_switches] before the gradients are
    evaluated: a gradient that measures from the first channel it is given
    yields another row than the one evaluated over the whole axis and
    restricted afterwards.  And a gradient that hands back the array it is
    given has the sum of its twins written into the axis, over which the
    row of the next parameter is then evaluated. *)
Lemma jacobian_rows_differ :
  gradients_unshared Cases.masked_model
  /\ match _jacobian Cases.masked_model [3]%Z None with
     | Ok (matrix, _) => matrix = [[2; 5; 8]]%Z
     | Raise _ => False
     end
  /\ jacobian_of_the_spec Cases.masked_model [3]%Z None = Ok [[3; 6; 9]]%Z
  /\ match _jacobian Cases.shared_model [3; 4]%Z None with
     | Ok (matrix, _) => matrix = [[0; 3; 6; 9]; [0; 3; 6; 9]]%Z
     | Raise _ => False
     end
  /\ jacobian_of_the_spec Cases.shared_model [3; 4]%Z None
     = Ok [[0; 3; 6; 9]; [0; 1; 2; 3]]%Z.
Proof.
  split; [|repeat split; vm_compute; reflexivity].
  intros c p Hc Hp _ vals x. cbn in Hc.
  apply elem_of_cons in Hc as [->|Hc]; [|by apply elem_of_nil in Hc].
  cbn in Hp. repeat (apply elem_of_cons in Hp as [->|Hp]);
    solve [discriminate | by apply elem_of_nil in Hp].
Defined.

Lemma multifit_mask_mismatch_witness :
  mask_shape Example.wrong_mask
  <> navigation_shape (model (Example.world_of Example.plain_model))
  /\ exists text w',
       multifit (Some Example.wrong_mask) None false false true 1 true
         (Example.world_of Example.plain_model) = (Raise (SystemExit text), w')
       /\ model w' = Example.plain_model.
Proof.
  assert (Hne : mask_shape Example.wrong_mask
                <> navigation_shape (model (Example.world_of Example.plain_model)))
    by (vm_compute; discriminate).
  split; [exact Hne|].
  destruct (multifit_mask_mismatch
              Example.wrong_mask None false false true 1 true _ Hne)
    as (text & w' & Hrun & Hmodel & _).
  exists text, w'. exact (conj Hrun Hmodel).
Defined.

Lemma charge_store_batches_witness :
  flags_consistent (model (Example.world_of Example.plotted_model))
  /\ suspended_during_charge false (Example.world_of Example.plotted_model)
  /\ exists w',
       charge false (Example.world_of Example.plotted_model) = (Ok (), w')
       /\ log w' = [UpdatePlot].
Proof.
  assert (Hcons : flags_consistent
                    (model (Example.world_of Example.plotted_model)))
    by (intros Hoff; vm_compute in Hoff; discriminate Hoff).
  split; [exact Hcons|].
  destruct (charge_store_batches (Example.world_of Example.plotted_model)
              false Hcons) as (Hsusp & _ & Hcharge & _).
  split; [exact Hsusp|].
  set (w' := snd (charge false (Example.world_of Example.plotted_model))).
  assert (Hrun : charge false (Example.world_of Example.plotted_model)
                 = (Ok (), w'))
    by (vm_compute; reflexivity).
  exists w'. split; [exact Hrun|].
  destruct (Hcharge _ _ Hrun)
    as (new & Hlog & [(-> & _)|(_ & [Hoff|(e & He)])] & _).
  - exact Hlog.
  - vm_compute in Hoff. discriminate Hoff.
  - discriminate He.
Defined.

(** C7 as stated fails for the store batch: with automatic updates on, the
    connections of the parameters are active while [Model.set] runs.  And
    it fails for a charge batch of a model whose connections are active
    although automatic updates are off: [charge] then suspends nothing and
    every assignment notifies. *)
Lemma store_batch_not_suspended :
  auto_update_plot (model (Example.world_of Example.plotted_model)) = true
  /\ connection_flags (model (Example.world_of Example.plotted_model))
     = [[true]; [true; true]; [true]]
  /\ ~ suspended_during_store (Example.world_of Example.plotted_model)
  /\ auto_update_plot Cases.stray_model = false
  /\ log (snd (charge false (Example.world_of Cases.stray_model)))
     = [UpdatePlot; UpdatePlot; UpdatePlot; UpdatePlot].
Proof.
  split; [vm_compute; reflexivity|]. split; [vm_compute; reflexivity|].
  split; [|split; vm_compute; reflexivity].
  intros Hsusp. unfold suspended_during_store in Hsusp.
  cbn [model Example.world_of] in Hsusp.
  change (components Example.plotted_model)
    with (components Example.plotted_model) in Hsusp.
  destruct (components Example.plotted_model) as [|c cs] eqn:Hcs;
    [vm_compute in Hcs; discriminate|].
  cbn [length seq holds_during] in Hsusp. destruct Hsusp as [Hall _].
  assert (Hflags : connection_flags Example.plotted_model
                   = [[true]; [true; true]; [true]])
    by (vm_compute; reflexivity).
  unfold connection_flags in Hflags. rewrite Hcs in Hflags.
  cbn [map] in Hflags. injection Hflags as Hrow _.
  destruct (parameters c) as [|p ps] eqn:Hps; [discriminate Hrow|].
  cbn [map] in Hrow. injection Hrow as Hp _.
  assert (Hoff : connection_active p = false).
  { apply (Hall c p).
    - cbn [model Example.world_of]. rewrite Hcs. left.
    - rewrite Hps. left. }
  congruence.
Defined.

Lemma edge_init_missing_resource_witness :
  Edge_init Example.unset_environment "Fe_L3" 1%Z 0%Z
  = Raise (SystemExit gos_dir_message)
  /\ Edge_init Example.environment "Cu_K" 1%Z 0%Z
     = Raise (SystemExit "The given element Cu is not in the database.")
  /\ exists rest,
       Edge_init Example.environment "Fe_K" 1%Z 0%Z
       = Raise (SystemExit ("The given subshell K1 is not in the database."
                            +:+ rest)).
Proof.
  split; [|split].
  - exact (proj1 (edge_init_missing_resource
                    Example.unset_environment "Fe_L3" 1%Z 0%Z) eq_refl).
  - refine (proj1 (proj1 (proj2 (edge_init_missing_resource
                    Example.environment "Cu_K" 1%Z 0%Z))
                    "Cu" "K" _ eq_refl eq_refl eq_refl) _).
    + vm_compute. discriminate.
    + vm_compute. reflexivity.
  - refine (proj2 (proj1 (proj2 (edge_init_missing_resource
                    Example.environment "Fe_K" 1%Z 0%Z))
                    "Fe" "K" _ eq_refl eq_refl eq_refl)
                  {[ "L3" := mkSubshell 708%Z 1%Z "Fe.L3" ]} _ _).
    + vm_compute. discriminate.
    + vm_compute. reflexivity.
    + vm_compute. reflexivity.
Defined.

(** ** The range of channels *)

Section DataRangeProperties.
Context {R : Type} `{Arith R}.
Implicit Types (w : World R) (m : Model R) (a : list bool).

Lemma slice_bound_le d (i : option Z) n : d <= n -> slice_bound d i n <= n.
Proof.
  intros Hd. unfold slice_bound. destruct i as [i|]; [|done].
  case_decide; lia.
Qed.

Lemma setitem_slice_length i1 i2 v a :
  length (setitem_slice i1 i2 v a) = length a.
Proof. unfold setitem_slice. by rewrite length_imap. Qed.

Lemma setitem_slice_lookup i1 i2 v a k b :
  a !! k = Some b ->
  setitem_slice i1 i2 v a !! k
  = Some (if in_slice i1 i2 (length a) k then v else b).
Proof.
  intros Hk. unfold setitem_slice, in_slice.
  rewrite list_lookup_imap, Hk. cbn. f_equal.
  case_decide; [by rewrite bool_decide_true|by rewrite bool_decide_false].
Qed.

Lemma in_slice_all n k : k < n -> in_slice None None n k = true.
Proof. intros Hk. unfold in_slice. apply bool_decide_true. cbn. lia. Qed.

Lemma count_true_app a1 a2 : count_true (a1 ++ a2) = count_true a1 + count_true a2.
Proof. unfold count_true. by rewrite filter_app, length_app. Qed.

Lemma count_true_replicate n (b : bool) :
  count_true (replicate n b) = if b then n else 0.
Proof.
  unfold count_true. induction n as [|n IH]; [by destruct b|].
  cbn [replicate]. destruct b.
  - rewrite filter_cons_True by done. cbn [length]. by rewrite IH.
  - by rewrite filter_cons_False by done.
Qed.

(** An array that is on exactly between two marks. *)
Lemma window_switches a n lo hi :
  length a = n -> lo <= hi <= n ->
  (forall k, k < n -> a !! k = Some (bool_decide (lo <= k < hi))) ->
  a = replicate lo false ++ replicate (hi - lo) true ++ replicate (n - hi) false.
Proof.
  intros Hn Hb Hk. apply list_eq. intros k.
  destruct (decide (k < n)) as [Hlt|Hge].
  - rewrite Hk by done. symmetry.
    destruct (decide (k < lo)).
    + rewrite lookup_app_l by (rewrite length_replicate; lia).
      rewrite bool_decide_false by lia.
      by apply lookup_replicate.
    + rewrite lookup_app_r by (rewrite length_replicate; lia).
      rewrite length_replicate.
      destruct (decide (k < hi)).
      * rewrite lookup_app_l by (rewrite length_replicate; lia).
        rewrite bool_decide_true by lia.
        apply lookup_replicate. split; [done|lia].
      * rewrite lookup_app_r by (rewrite length_replicate; lia).
        rewrite length_replicate, bool_decide_false by lia.
        apply lookup_replicate. split; [done|lia].
  - rewrite (lookup_ge_None_2 a) by lia. symmetry.
    apply lookup_ge_None_2.
    rewrite !length_app, !length_replicate. lia.
Qed.

Lemma window_count a n lo hi :
  length a = n -> lo <= n -> hi <= n ->
  (forall k, k < n -> a !! k = Some (bool_decide (lo <= k < hi))) ->
  count_true a = hi - lo.
Proof.
  intros Hn Hlo Hhi Hk.
  rewrite (window_switches a n lo (Nat.max lo hi)); [| done | lia |].
  - rewrite !count_true_app, !count_true_replicate. lia.
  - intros k Hlt. rewrite Hk by done. f_equal.
    apply bool_decide_ext. lia.
Qed.

(** What the update of the plot leaves alone. *)
Lemma update_plot_if_auto_run w :
  exists w',
    update_plot_if_auto w = (Ok (), w')
    /\ log w' = log w ++ range_events (model w)
    /\ files w' = files w
    /\ channel_switches (model w') = channel_switches (model w)
    /\ model_convolved (model w') = model_convolved (model w)
    /\ model_axis (model w') = model_axis (model w).
Proof.
  unfold update_plot_if_auto, range_events, update_plot, mbind, M_bind,
    get_model, emit. cbn.
  destruct (auto_update_plot (model w)); cbn.
  - destruct (spectrum_plot (model w)) as [[]|]; cbn;
      eexists; (split; [reflexivity|]); cbn; done.
  - eexists; split; [reflexivity|]. by rewrite app_nil_r.
Qed.

Ltac run_range_update w1 :=
  let w' := fresh "w'" in
  let Hrun := fresh "Hrun" in
  let Hlog := fresh "Hlog" in
  let Hfiles := fresh "Hfiles" in
  let Hsw := fresh "Hsw" in
  let Hconv := fresh "Hconv" in
  let Hax := fresh "Hax" in
  destruct (update_plot_if_auto_run w1)
    as (w' & Hrun & Hlog & Hfiles & Hsw & Hconv & Hax).

Lemma set_data_range_in_pixels_run w (i1 i2 : option Z) :
  let n := length (channel_switches (model w)) in
  exists w',
    set_data_range_in_pixels i1 i2 w = (Ok (channel_switches (model w)), w')
    /\ length (channel_switches (model w')) = n
    /\ (forall k, k < n ->
          channel_switches (model w') !! k = Some (in_slice i1 i2 n k))
    /\ log w' = log w ++ range_events (model w)
    /\ model_convolved (model w') = model_convolved (model w)
    /\ model_axis (model w') = model_axis (model w).
Proof.
  intros n. unfold set_data_range_in_pixels, mbind at 1, M_bind at 1,
    get_model at 1.
  set (switches := setitem_slice i1 i2 true
                     (setitem_slice None None false (channel_switches (model w)))).
  unfold mbind at 1, M_bind at 1, put_model at 1.
  set (w1 := with_model (with_channel_switches switches (model w)) w).
  run_range_update w1.
  assert (Hlen : length switches = n)
    by (unfold switches; by rewrite !setitem_slice_length).
  assert (Hat : forall k, k < n -> switches !! k = Some (in_slice i1 i2 n k)).
  { intros k Hk. unfold switches.
    destruct (lookup_lt_is_Some_2 (channel_switches (model w)) k Hk) as [b Hb].
    rewrite (setitem_slice_lookup _ _ _ _ k false).
    - rewrite setitem_slice_length. fold n. by destruct (in_slice i1 i2 n k).
    - rewrite (setitem_slice_lookup _ _ _ _ k b Hb). fold n.
      by rewrite in_slice_all. }
  exists w'. unfold mbind, M_bind. rewrite Hrun. cbn.
  split; [done|]. rewrite Hsw, Hconv, Hax. cbn. done.
Qed.

Lemma set_data_range_in_pixels_count w (i1 i2 : option Z) w' r :
  set_data_range_in_pixels i1 i2 w = (r, w') ->
  let n := length (channel_switches (model w)) in
  count_true (channel_switches (model w')) = slice_stop i2 n - slice_start i1 n.
Proof.
  intros Hrun n.
  destruct (set_data_range_in_pixels_run w i1 i2)
    as (w1 & Hrun1 & Hlen & Hat & _).
  rewrite Hrun in Hrun1. injection Hrun1 as -> ->.
  apply (window_count _ n); [done| | |done].
  - by apply slice_bound_le; lia.
  - by apply slice_bound_le.
Qed.

(** X1.  [set_data_range_in_pixels(i1, i2)] returns and hands back the
    former switches; afterwards the array has its former length and the
    channel [k] is on exactly when it lies in the slice [i1:i2] (negative
    indices counting from the end, both ends clipped), so the channels that
    are on number [stop - start]; the plot is told once when automatic
    updates are on, and not otherwise. *)
Theorem set_data_range_in_pixels_selects w (i1 i2 : option Z) :
  let n := length (channel_switches (model w)) in
  exists w',
    set_data_range_in_pixels i1 i2 w = (Ok (channel_switches (model w)), w')
    /\ length (channel_switches (model w')) = n
    /\ (forall k, k < n ->
          channel_switches (model w') !! k = Some (in_slice i1 i2 n k))
    /\ count_true (channel_switches (model w'))
       = slice_stop i2 n - slice_start i1 n
    /\ log w' = log w ++ range_events (model w).
Proof.
  intros n.
  destruct (set_data_range_in_pixels_run w i1 i2)
    as (w' & Hrun & Hlen & Hat & Hlog & _).
  exists w'. repeat split; try done.
  by apply (set_data_range_in_pixels_count w i1 i2 w' _ Hrun).
Qed.

(** X2.  [remove_data_range_in_pixels(i1, i2)] switches off the channels of
    the slice and [add_data_range_in_pixels(i1, i2)] switches them on; every
    other channel keeps its state and the array keeps its length.  Both
    return, and tell the plot once when automatic updates are on. *)
Theorem remove_add_data_range w (i1 i2 : option Z) :
  let n := length (channel_switches (model w)) in
  (exists w',
     remove_data_range_in_pixels i1 i2 w = (Ok (), w')
     /\ length (channel_switches (model w')) = n
     /\ (forall k b, channel_switches (model w) !! k = Some b ->
           channel_switches (model w') !! k
           = Some (b && negb (in_slice i1 i2 n k)))
     /\ log w' = log w ++ range_events (model w))
  /\ (exists w',
        add_data_range_in_pixels i1 i2 w = (Ok (), w')
        /\ length (channel_switches (model w')) = n
        /\ (forall k b, channel_switches (model w) !! k = Some b ->
              channel_switches (model w') !! k
              = Some (b || in_slice i1 i2 n k))
        /\ log w' = log w ++ range_events (model w)).
Proof.
  intros n. split.
  - unfold remove_data_range_in_pixels, mbind at 1, M_bind at 1,
      get_model at 1, mbind at 1, M_bind at 1, put_model at 1.
    set (w1 := with_model _ w). run_range_update w1.
    exists w'. split; [done|]. rewrite Hsw. cbn.
    split; [by rewrite setitem_slice_length|]. split; [|done].
    intros k b Hb. rewrite (setitem_slice_lookup _ _ _ _ k b Hb). fold n.
    by destruct (in_slice i1 i2 n k), b.
  - unfold add_data_range_in_pixels, mbind at 1, M_bind at 1,
      get_model at 1, mbind at 1, M_bind at 1, put_model at 1.
    set (w1 := with_model _ w). run_range_update w1.
    exists w'. split; [done|]. rewrite Hsw. cbn.
    split; [by rewrite setitem_slice_length|]. split; [|done].
    intros k b Hb. rewrite (setitem_slice_lookup _ _ _ _ k b Hb). fold n.
    by destruct (in_slice i1 i2 n k), b.
Qed.

(** The plain evaluation has one sample per channel that is on. *)
Lemma call_plain_length m non_convolved onlyactive v :
  negb (model_convolved m) || non_convolved = true ->
  __call__ m non_convolved onlyactive = Ok v ->
  length v = count_true (channel_switches m).
Proof.
  intros Hbranch. unfold __call__. rewrite Hbranch.
  destruct (getitem_mask _ _) as [ax|] eqn:Hmask; cbn; [|done].
  apply getitem_mask_length in Hmask. rewrite <- Hmask.
  intros Hv. rewrite <- (length_np_zeros (length ax)).
  destruct onlyactive.
  - eapply (for_each_invariant _ (fun s => length s = length (np_zeros (length ax))));
      [|done|exact Hv].
    intros s c s' Hs. cbn beta. destruct (active c).
    + intros Hadd. by rewrite (np_add_out_length _ _ _ Hadd).
    + by intros [= <-].
  - eapply (for_each_invariant _ (fun s => length s = length (np_zeros (length ax))));
      [|done|exact Hv].
    intros s c s' Hs Hadd. by rewrite (np_add_out_length _ _ _ Hadd).
Qed.

(** X3.  Once [set_data_range_in_pixels(i1, i2)] has run, an evaluation
    without convolution that returns has one sample per channel of the
    slice: [stop - start] samples. *)
Theorem call_after_set_data_range w (i1 i2 : option Z) backup w'
    non_convolved onlyactive v :
  negb (model_convolved (model w)) || non_convolved = true ->
  set_data_range_in_pixels i1 i2 w = (Ok backup, w') ->
  __call__ (model w') non_convolved onlyactive = Ok v ->
  let n := length (channel_switches (model w)) in
  length v = slice_stop i2 n - slice_start i1 n.
Proof.
  intros Hbranch Hrun Hv n. subst n.
  rewrite <- (set_data_range_in_pixels_count w i1 i2 w' _ Hrun).
  apply (call_plain_length _ non_convolved onlyactive); [|done].
  destruct (set_data_range_in_pixels_run w i1 i2)
    as (w1 & Hrun1 & _ & _ & _ & Hconv & _).
  rewrite Hrun in Hrun1. injection Hrun1 as _ ->. by rewrite Hconv.
Qed.

(** X4.  [reset_data_range] and [reset_the_data_range] both return and
    leave every channel on, whatever the range was before. *)
Theorem reset_data_range_all_on w :
  let n := length (channel_switches (model w)) in
  (exists w', reset_data_range w = (Ok (channel_switches (model w)), w')
              /\ channel_switches (model w') = replicate n true)
  /\ (exists w', reset_the_data_range w = (Ok (), w')
                 /\ channel_switches (model w') = replicate n true).
Proof.
  intros n.
  assert (Hall : forall a, length a = n ->
                   (forall k, k < n -> a !! k = Some true) -> a = replicate n true).
  { intros a Hlen Hat. apply list_eq. intros k.
    destruct (decide (k < n)).
    - rewrite Hat by done. symmetry. by apply lookup_replicate.
    - rewrite lookup_ge_None_2 by lia. symmetry.
      apply lookup_ge_None_2. rewrite length_replicate. lia. }
  split.
  - destruct (set_data_range_in_pixels_run w None None)
      as (w' & Hrun & Hlen & Hat & _).
    exists w'. split; [done|]. apply Hall; [done|].
    intros k Hk. rewrite Hat by done. by rewrite in_slice_all.
  - unfold reset_the_data_range, mbind at 1, M_bind at 1,
      get_model at 1, mbind at 1, M_bind at 1, put_model at 1.
    set (w1 := with_model _ w). run_range_update w1.
    exists w'. split; [done|]. rewrite Hsw. cbn.
    apply Hall; [by rewrite setitem_slice_length|].
    intros k Hk.
    destruct (lookup_lt_is_Some_2 (channel_switches (model w)) k Hk) as [b Hb].
    rewrite (setitem_slice_lookup _ _ _ _ k b Hb). fold n.
    by rewrite in_slice_all.
Qed.

End DataRangeProperties.

Lemma call_after_set_data_range_witness :
  set_data_range_in_pixels (Some (-3)%Z) None
    (Example.world_of Example.plain_model)
  = (Ok [true; true; false; true],
     snd (set_data_range_in_pixels (Some (-3)%Z) None
            (Example.world_of Example.plain_model)))
  /\ __call__
       (model (snd (set_data_range_in_pixels (Some (-3)%Z) None
                      (Example.world_of Example.plain_model))))
       false true
     = Ok [8; 11; 14]%Z
  /\ length [8; 11; 14]%Z = 3.
Proof.
  assert (Hrun : set_data_range_in_pixels (Some (-3)%Z) None
                   (Example.world_of Example.plain_model)
                 = (Ok [true; true; false; true],
                    snd (set_data_range_in_pixels (Some (-3)%Z) None
                           (Example.world_of Example.plain_model))))
    by (vm_compute; reflexivity).
  assert (Hv : __call__
                 (model (snd (set_data_range_in_pixels (Some (-3)%Z) None
                                (Example.world_of Example.plain_model))))
                 false true
               = Ok [8; 11; 14]%Z)
    by (vm_compute; reflexivity).
  split; [exact Hrun|]. split; [exact Hv|].
  exact (call_after_set_data_range (Example.world_of Example.plain_model)
           (Some (-3)%Z) None _ _ false true _ eq_refl Hrun Hv).
Defined.

(** ** The list of components and the plot connections *)

Section ComponentsProperties.
Context {R : Type} `{Arith R} `{ComponentArrays R}.
Implicit Types (w : World R) (m : Model R) (c : Component R) (p : Param R).

Lemma map_parameters_elem (f : Param R -> Param R) m c p :
  c ∈ components (map_parameters f m) -> p ∈ parameters c ->
  exists c0 p0, c0 ∈ components m /\ p0 ∈ parameters c0 /\ p = f p0.
Proof.
  unfold map_parameters. cbn.
  intros (c0 & -> & Hc0)%list_elem_of_fmap. cbn.
  intros (q & -> & Hq)%list_elem_of_fmap. by exists c0, q.
Qed.

Lemma live_values_map_parameters (f : Param R -> Param R) m :
  (forall p, value (f p) = value p) ->
  live_values (components (map_parameters f m)) = live_values (components m).
Proof.
  intros Hf. unfold live_values, map_parameters. cbn.
  rewrite map_map. apply map_ext. intros c. cbn.
  rewrite map_map. by apply map_ext.
Qed.

Lemma connection_flags_suspended m :
  (forall c p, c ∈ components m -> p ∈ parameters c ->
     connection_active p = false) ->
  Forall (Forall (fun b => b = false)) (connection_flags m).
Proof.
  intros Hoff. unfold connection_flags.
  apply Forall_map, Forall_forall. intros c Hc.
  apply Forall_map, Forall_forall. intros p Hp. by apply (Hoff c).
Qed.

Lemma touch_parameters m c p :
  c ∈ components (_touch m) -> p ∈ parameters c ->
  connection_active p = false
  /\ (spectrum_plot m <> None -> connected p = true).
Proof.
  intros Hc Hp.
  destruct (map_parameters_elem _ m c p Hc Hp) as (c0 & q & _ & _ & ->).
  split; [done|]. by destruct (spectrum_plot m).
Qed.

(** Assigning a value in a model whose connections are all suspended tells
    no one. *)
Lemma assign_value_silent w i j (v : PValue R) r w' :
  (forall c p, c ∈ components (model w) -> p ∈ parameters c ->
     connection_active p = false) ->
  assign_value i j v w = (r, w') -> log w' = log w.
Proof.
  intros Hoff Hrun.
  destruct (assign_value_frame (connection_flags (model w))
              (auto_update_plot (model w)) (log w) (files w) i j v
              (connection_flags_suspended _ Hoff) w r w'
              (batch_frame_refl w) Hrun) as (_ & _ & Hlog & _).
  done.
Qed.

(** X5.  [_touch], which runs whenever components are added or removed,
    suspends the connection of every parameter and leaves the switch
    [auto_update_plot] and the live values as they are; the parameters get
    connected when the spectrum has a plot.  So after it a parameter change
    tells the plot nothing, also when [auto_update_plot] is still on. *)
Theorem touch_suspends m :
  auto_update_plot (_touch m) = auto_update_plot m
  /\ live_values (components (_touch m)) = live_values (components m)
  /\ (forall c p, c ∈ components (_touch m) -> p ∈ parameters c ->
        connection_active p = false
        /\ (spectrum_plot m <> None -> connected p = true))
  /\ (forall w i j (v : PValue R) r w',
        model w = _touch m -> assign_value i j v w = (r, w') ->
        log w' = log w).
Proof.
  split; [done|]. split.
  - apply live_values_map_parameters. intros p. by destruct (spectrum_plot m).
  - split; [apply touch_parameters|].
    intros w i j v r w' Hm. apply assign_value_silent.
    rewrite Hm. intros c p Hc Hp. by apply (touch_parameters m c p).
Qed.

(** X6.  When redrawing the lines of the plot fails, [update_plot] still
    returns, with the parameters disconnected: automatic updates are off, no
    parameter is connected or active, the live values are untouched, and a
    later [charge] tells the plot nothing. *)
Theorem update_plot_failure_disconnects w :
  spectrum_plot (model w) = Some false ->
  exists w',
    update_plot w = (Ok (), w')
    /\ auto_update_plot (model w') = false
    /\ none_connected (model w')
    /\ live_values (components (model w')) = live_values (components (model w))
    /\ (forall only_fixed r w'',
          charge only_fixed w' = (r, w'') -> log w'' = log w').
Proof.
  intros Hplot. unfold update_plot, mbind, M_bind, emit, get_model. cbn.
  rewrite Hplot. cbn. eexists. split; [reflexivity|]. cbn.
  split; [done|]. split; [|split].
  - intros c p Hc Hp.
    destruct (map_parameters_elem _ _ c p Hc Hp) as (c0 & q & Hc0 & Hq & ->).
    destruct (map_parameters_elem _ _ c0 q Hc0 Hq) as (c1 & q1 & _ & _ & ->).
    done.
  - unfold live_values. rewrite !map_map. apply map_ext. intros c. cbn.
    rewrite !map_map. by apply map_ext.
  - intros only_fixed r w'' Hrun.
    apply charge_run in Hrun as [_ [[Hlog _]|(_ & _ & Hon)]]; [done|done|].
    cbn. apply flags_consistent_disconnect.
Qed.

Lemma fmap_delete_list {A B : Type} (f : A -> B) (i : nat) (l : list A) :
  f <$> delete i l = delete i (f <$> l).
Proof.
  revert i. induction l as [|x l IH]; intros [|i]; cbn; try done.
  by rewrite IH.
Qed.

Lemma list_index_spec (index : Z) (n : nat) :
  match list_index index n with
  | Ok i =>
      (- Z.of_nat n <= index < Z.of_nat n)%Z
      /\ i = Z.to_nat (index mod Z.of_nat n)
  | Raise e => e = IndexError /\ ~ (- Z.of_nat n <= index < Z.of_nat n)%Z
  end.
Proof.
  unfold list_index.
  destruct (decide (index < 0)%Z) as [Hneg|Hpos].
  - case_decide as Hin; [|split; [done|lia]].
    split; [lia|]. f_equal.
    rewrite <- (Z.mod_small (index + Z.of_nat n) (Z.of_nat n)) by lia.
    by rewrite <- Z.add_mod_idemp_r, Z.mod_same, Z.add_0_r by lia.
  - case_decide as Hin; [|split; [done|lia]].
    split; [lia|]. by rewrite Z.mod_small by lia.
Qed.

Lemma touch_delete_values (i : nat) m :
  live_values (components (_touch (with_components (delete i (components m)) m)))
  = delete i (live_values (components m)).
Proof.
  unfold _touch, connect_parameters2update_plot.
  rewrite live_values_map_parameters
    by (intros p; cbn; by destruct (spectrum_plot m)).
  cbn [components with_components]. unfold live_values.
  exact (fmap_delete_list _ i (components m)).
Qed.

(** X7.  [__delitem__(index)] with an integer index removes the component
    at that position, a negative index counting from the end: it returns
    exactly when [-n <= index < n], the live values of the other components
    stay in their order, and every connection is left suspended; otherwise
    it raises [IndexError]. *)
Theorem delitem_removes (index : Z) m :
  let n := Z.of_nat (length (components m)) in
  match __delitem__ index m with
  | Ok m' =>
      (- n <= index < n)%Z
      /\ live_values (components m')
         = delete (Z.to_nat (index mod n)) (live_values (components m))
      /\ auto_update_plot m' = auto_update_plot m
      /\ (forall c p, c ∈ components m' -> p ∈ parameters c ->
            connection_active p = false)
  | Raise e => e = IndexError /\ ~ (- n <= index < n)%Z
  end.
Proof.
  intros n. unfold __delitem__.
  pose proof (list_index_spec index (length (components m))) as Hi.
  fold n in Hi.
  destruct (list_index index (length (components m))) as [i|e];
    unfold mbind, result_bind; [|done].
  destruct Hi as [Hin ->]. split; [done|].
  split; [apply touch_delete_values|]. split; [done|].
  intros c p Hc Hp. by destruct (touch_parameters _ c p Hc Hp).
Qed.

End ComponentsProperties.

Lemma update_plot_failure_disconnects_witness :
  spectrum_plot (model (Example.world_of Cases.failing_plot_model)) = Some false
  /\ exists w',
       update_plot (Example.world_of Cases.failing_plot_model) = (Ok (), w')
       /\ auto_update_plot (model w') = false
       /\ none_connected (model w').
Proof.
  split; [reflexivity|].
  destruct (update_plot_failure_disconnects
              (Example.world_of Cases.failing_plot_model) eq_refl)
    as (w' & Hrun & Hoff & Hnone & _).
  exists w'. exact (conj Hrun (conj Hoff Hnone)).
Defined.

(** ** Boundaries and parameter info *)

Section BoundsInfoProperties.
Context {R : Type} `{Arith R}.
Implicit Types (m : Model R) (c : Component R) (p : Param R).

(** The two nested loops over the free parameters of the active components,
    when each turn appends to a list. *)
Lemma foldl_active_free {B : Type} (step : list B -> Param R -> list B)
    (g : Param R -> list B) (cs : list (Component R)) (acc : list B) :
  (forall acc p, step acc p = acc ++ g p) ->
  foldl (fun acc c =>
           if active c then foldl step acc (free_parameters c) else acc)
        acc cs
  = acc ++ ((c ← filter (fun c => active c = true) cs; free_parameters c) ≫= g).
Proof.
  intros Hstep.
  assert (Hinner : forall ps acc, foldl step acc ps = acc ++ (ps ≫= g)).
  { induction ps as [|p ps IH]; intros acc0; cbn [foldl].
    - by rewrite app_nil_r.
    - rewrite IH, Hstep, bind_cons. by rewrite <- app_assoc. }
  revert acc. induction cs as [|c cs IH]; intros acc; cbn [foldl].
  - by rewrite app_nil_r.
  - rewrite IH. destruct (active c) eqn:Hact.
    + rewrite filter_cons_True by done.
      rewrite bind_cons, bind_app, Hinner. by rewrite <- app_assoc.
    + rewrite filter_cons_False by (by rewrite Hact). done.
Qed.

Lemma active_free_parameter_elem m p :
  p ∈ active_free_parameters m ->
  exists c, c ∈ components m /\ active c = true /\ p ∈ parameters c
            /\ free p = true.
Proof.
  unfold active_free_parameters.
  intros (c & Hp & Hc)%list_elem_of_bind.
  apply list_elem_of_filter in Hc as [Hact Hc].
  apply list_elem_of_filter in Hp as [Hfree Hp].
  by exists c.
Qed.

Lemma bind_single_filter {A B : Type} (P : A -> Prop)
    `{!forall x, Decision (P x)} (f : A -> B) (l : list A) :
  l ≫= (fun x => if decide (P x) then [f x] else []) = f <$> filter P l.
Proof.
  induction l as [|x l IH]; [done|].
  rewrite bind_cons, IH. case_decide.
  - by rewrite filter_cons_True by done.
  - by rewrite filter_cons_False by done.
Qed.

Lemma length_bind_pointwise {A B C : Type} (f : A -> list B) (g : A -> list C)
    (l : list A) :
  (forall x, x ∈ l -> length (f x) = length (g x)) ->
  length (l ≫= f) = length (l ≫= g).
Proof.
  induction l as [|x l IH]; intros Hfg; [done|].
  rewrite !bind_cons, !length_app, IH, Hfg; [done|by left|].
  intros y Hy. apply Hfg. by right.
Qed.

(** X9.  [set_mpfit_parameters_info] leaves one dictionary for each free
    parameter of one element of the active components, in the order of
    [p0]; free parameters of several elements get none.  A limit is marked
    and set where the parameter has a bound and is [0] otherwise, and the
    components are not touched. *)
Theorem mpfit_parinfo_single_element m :
  mpfit_parinfo (set_mpfit_parameters_info m)
  = Some (parameter_info
            <$> filter (fun p => _number_of_elements p = 1)
                       (active_free_parameters m))
  /\ components (set_mpfit_parameters_info m) = components m.
Proof.
  split; [|done]. unfold set_mpfit_parameters_info. cbn [mpfit_parinfo with_parinfo].
  f_equal.
  rewrite (foldl_active_free _
             (fun p => if decide (_number_of_elements p = 1)
                       then [parameter_info p] else [])).
  - rewrite app_nil_l. apply bind_single_filter.
  - intros acc p. case_decide; [|by rewrite app_nil_r].
    unfold parameter_info. by destruct (bmin p), (bmax p).
Qed.

(** X10.  [set_boundaries] rebuilds the list from nothing, one entry per
    free parameter of one element and the items of [_bounds] for the
    others, in the order of [p0].  When [_bounds] has one pair per element
    and the element counts match the values, the list is as long as the
    vector [_set_p0] assembles. *)
Theorem set_boundaries_aligned m :
  bounds_per_element m -> element_counts_consistent m ->
  free_parameters_boundaries (set_boundaries m)
  = Some (active_free_parameters m ≫= boundary_entries)
  /\ length (active_free_parameters m ≫= boundary_entries)
     = length (free_parameter_vector m).
Proof.
  intros Hbounds Hcount. split.
  - unfold set_boundaries. cbn [free_parameters_boundaries with_boundaries].
    f_equal.
    rewrite (foldl_active_free _ boundary_entries); [done|].
    intros acc p. unfold boundary_entries. by case_decide.
  - unfold free_parameter_vector. apply length_bind_pointwise.
    intros p Hp.
    destruct (active_free_parameter_elem m p Hp) as (c & Hc & _ & Hpc & _).
    rewrite <- (Hcount c p Hc Hpc). unfold boundary_entries.
    case_decide as Hone; [by rewrite Hone|].
    destruct (Hbounds p Hp Hone) as (l & -> & Hl). by rewrite length_map.
Qed.

End BoundsInfoProperties.

Lemma set_boundaries_aligned_witness :
  bounds_per_element Cases.wide_model
  /\ element_counts_consistent Cases.wide_model
  /\ length (active_free_parameters Cases.wide_model ≫= boundary_entries)
     = length (free_parameter_vector Cases.wide_model).
Proof.
  assert (Hbounds : bounds_per_element Cases.wide_model).
  { intros p Hp Hn. vm_compute in Hp.
    apply elem_of_cons in Hp as [->|Hp]; [by vm_compute in Hn|].
    apply elem_of_cons in Hp as [->|Hp]; [|by apply elem_of_nil in Hp].
    exists [(None, None); (None, None)]. split; reflexivity. }
  assert (Hcount : element_counts_consistent Cases.wide_model).
  { intros c p Hc Hp. vm_compute in Hc.
    apply elem_of_cons in Hc as [->|Hc].
    - vm_compute in Hp.
      apply elem_of_cons in Hp as [->|Hp]; [reflexivity|].
      by apply elem_of_nil in Hp.
    - apply elem_of_cons in Hc as [->|Hc]; [|by apply elem_of_nil in Hc].
      vm_compute in Hp.
      apply elem_of_cons in Hp as [->|Hp]; [reflexivity|].
      by apply elem_of_nil in Hp. }
  split; [exact Hbounds|]. split; [exact Hcount|].
  exact (proj2 (set_boundaries_aligned Cases.wide_model Hbounds Hcount)).
Defined.

(** ** The vector of the free parameters, charged back *)

Section ChargeP0Properties.
Context {R : Type} `{Arith R}.
Implicit Types (m : Model R) (c : Component R) (p : Param R).

Lemma with_value_same p : with_value (value p) p = p.
Proof. by destruct p. Qed.

Lemma with_parameters_same c : with_parameters (parameters c) c = c.
Proof. by destruct c. Qed.

Lemma with_components_same m : with_components (components m) m = m.
Proof. by destruct m. Qed.

(** The slots of the free parameters among [ps], in order. *)
Lemma charge_parameters_own (ps : list (Param R)) (tail : list R) :
  Forall value_shaped ps ->
  charge_parameters ps
    ((filter (fun p => free p = true) ps ≫= (fun p => slots (value p))) ++ tail)
    true
  = Ok ps.
Proof.
  induction ps as [|q ps IH]; intros Hshape; [done|].
  apply Forall_cons in Hshape as [Hq Hps].
  cbn [charge_parameters]. destruct (free q) eqn:Hfree; cbn [andb negb].
  - rewrite filter_cons_True by done. rewrite bind_cons, <- app_assoc.
    unfold value_shaped in Hq.
    destruct (value q) as [x|l] eqn:Hv; cbn [slots].
    + rewrite decide_True by done. cbn.
      rewrite Hq. cbn [drop]. rewrite drop_0, IH by done. cbn.
      by rewrite <- Hv, with_value_same.
    + destruct Hq as [Hne Hlen]. rewrite decide_False by done.
      cbn. rewrite <- Hlen, take_app_length, drop_app_length.
      rewrite IH by done. cbn.
      by rewrite <- Hv, with_value_same.
  - rewrite filter_cons_False by (by rewrite Hfree).
    rewrite IH by done. done.
Qed.

Lemma nfree_param_slots c :
  Forall value_shaped (parameters c) ->
  _nfree_param c
  = length (free_parameters c ≫= (fun p => slots (value p))).
Proof.
  unfold _nfree_param, free_parameters.
  induction (parameters c) as [|q ps IH]; intros Hshape; [done|].
  apply Forall_cons in Hshape as [Hq Hps].
  destruct (free q) eqn:Hfree.
  - rewrite filter_cons_True by done.
    rewrite bind_cons, length_app. cbn [sum_list_with]. rewrite IH by done.
    f_equal. unfold value_shaped in Hq.
    destruct (value q); cbn [slots length]; [done|]. by destruct Hq.
  - rewrite filter_cons_False by (by rewrite Hfree). by apply IH.
Qed.

Lemma component_charge_own c :
  Forall value_shaped (parameters c) ->
  component_charge c (free_parameters c ≫= (fun p => slots (value p))) true
  = Ok c.
Proof.
  intros Hshape. unfold component_charge, free_parameters.
  rewrite <- (app_nil_r (_ ≫= _)), charge_parameters_own by done.
  cbn. by rewrite with_parameters_same.
Qed.

Lemma charge_p0_loop_own (vec : list R) (p_std : option (list R))
    (charged todo : list (Component R)) (counter : nat)
    (handed : list (option (list R))) :
  Forall (fun c => Forall value_shaped (parameters c)) todo ->
  drop counter vec
  = (filter (fun c => active c = true) todo ≫= free_parameters)
      ≫= (fun p => slots (value p)) ->
  exists handed',
    charge_p0_loop (Some vec) p_std charged todo counter handed
    = Returns (charged ++ todo, handed').
Proof.
  revert charged counter handed.
  induction todo as [|c todo IH]; intros charged counter handed Hshape Hvec.
  - exists handed. by rewrite app_nil_r.
  - apply Forall_cons in Hshape as [Hc Htodo].
    cbn [charge_p0_loop]. destruct (active c) eqn:Hact.
    + rewrite filter_cons_True in Hvec by done.
      rewrite bind_cons, bind_app in Hvec.
      cbn [getattr mbind outcome_bind].
      unfold slice_from at 2. rewrite Hvec.
      rewrite (nfree_param_slots c Hc), take_app_length.
      rewrite component_charge_own by done.
      cbn [of_result mbind outcome_bind].
      destruct (IH (charged ++ [c]) (counter + _nfree_param c)
                  (handed ++ [slice_from counter (_nfree_param c) <$> p_std])
                  Htodo) as [handed' Hrun].
      * rewrite <- drop_drop, Hvec, (nfree_param_slots c Hc).
        by rewrite drop_app_length.
      * exists handed'.
        rewrite (nfree_param_slots c Hc) in Hrun |- *.
        rewrite Hrun. by rewrite <- app_assoc.
    + rewrite filter_cons_False in Hvec by (by rewrite Hact).
      destruct (IH (charged ++ [c]) counter handed Htodo Hvec)
        as [handed' Hrun].
      exists handed'. rewrite Hrun. by rewrite <- app_assoc.
Qed.

(** X11.  Round trip of the free-parameter vector: when every parameter
    value has the shape its element count tells, charging the vector that
    [_set_p0] has just assembled returns and leaves every component as it
    is - each active component gets back exactly its own slots. *)
Theorem charge_p0_after_set_p0 m m' (p_std : option (list R)) :
  values_shaped m ->
  _set_p0 m = Ok m' ->
  exists handed_std, _charge_p0 p_std m' = Returns (m', handed_std).
Proof.
  intros Hshape Hset. rewrite set_p0_cases in Hset.
  destruct (active_free_parameters m) as [|q qs] eqn:Hfree; [done|].
  injection Hset as <-. unfold _charge_p0.
  cbn [p0 with_p0 components].
  destruct (charge_p0_loop_own (free_parameter_vector m) p_std []
              (components m) 0 []) as [handed Hrun].
  - apply Forall_forall. intros c Hc. apply Forall_forall. intros p Hp.
    by apply (Hshape c p).
  - done.
  - exists handed. rewrite Hrun. cbn [mbind outcome_bind app].
    by destruct m.
Qed.

(** What [charge] makes of a sequence that is long enough: the free
    parameters hold its first values, slot by slot. *)
Lemma charge_parameters_slots (ps ps' : list (Param R)) (l : list R) :
  charge_parameters ps l true = Ok ps' ->
  sum_list_with _number_of_elements (filter (fun p => free p = true) ps)
  <= length l ->
  filter (fun p => free p = true) ps' ≫= (fun p => slots (value p))
  = take (sum_list_with _number_of_elements
            (filter (fun p => free p = true) ps)) l
  /\ sum_list_with _number_of_elements (filter (fun p => free p = true) ps')
     = sum_list_with _number_of_elements (filter (fun p => free p = true) ps).
Proof.
  revert ps' l. induction ps as [|q ps IH]; intros ps' l.
  - intros [= <-] _. by rewrite take_0.
  - cbn [charge_parameters]. destruct (free q) eqn:Hfree; cbn [andb negb].
    + rewrite (filter_cons_True _ q ps) by done. cbn [sum_list_with].
      set (n := _number_of_elements q).
      destruct (if decide (n = 1) then _ else _) as [v|] eqn:Hv;
        cbn [mbind result_bind]; [|done].
      destruct (charge_parameters ps (drop n l) true) as [rest|] eqn:Hrest;
        cbn [mbind result_bind]; [|done].
      intros [= <-] Hlen.
      destruct (IH rest (drop n l) Hrest) as [Hslots Hsum].
      { rewrite length_drop. lia. }
      rewrite filter_cons_True by done. rewrite bind_cons. cbn [sum_list_with].
      split.
      * rewrite Hslots, <- take_take_drop. f_equal. cbn [value with_value].
        case_decide as Hone.
        -- destruct l as [|x l]; [done|]. injection Hv as <-.
           by rewrite Hone.
        -- by injection Hv as <-.
      * cbn [_number_of_elements with_value]. by rewrite Hsum.
    + rewrite (filter_cons_False _ q ps) by (by rewrite Hfree).
      destruct (charge_parameters ps l true) as [rest|] eqn:Hrest;
        cbn [mbind result_bind]; [|done].
      intros [= <-] Hlen.
      rewrite filter_cons_False by (by rewrite Hfree).
      by apply IH.
Qed.

Lemma charge_p0_loop_slots (vec : list R) (p_std : option (list R))
    (charged todo : list (Component R)) (counter : nat)
    (handed : list (option (list R))) cs handed' :
  charge_p0_loop (Some vec) p_std charged todo counter handed
  = Returns (cs, handed') ->
  counter
  + sum_list_with _nfree_param (filter (fun c => active c = true) todo)
  <= length vec ->
  exists visited,
    cs = charged ++ visited
    /\ (filter (fun c => active c = true) visited ≫= free_parameters)
         ≫= (fun p => slots (value p))
       = take (sum_list_with _nfree_param
                 (filter (fun c => active c = true) todo))
              (drop counter vec).
Proof.
  revert charged counter handed.
  induction todo as [|c todo IH]; intros charged counter handed.
  - intros [= <- <-] _. exists []. by rewrite app_nil_r.
  - cbn [charge_p0_loop]. destruct (active c) eqn:Hact.
    + rewrite (filter_cons_True _ c todo) by done. cbn [sum_list_with].
      cbn [getattr mbind outcome_bind]. unfold component_charge.
      set (n := _nfree_param c).
      destruct (charge_parameters (parameters c) (slice_from counter n vec) true)
        as [ps|] eqn:Hps; cbn [mbind result_bind of_result outcome_bind];
        [|done].
      intros Hrun Hlen.
      assert (Hslice : length (slice_from counter n vec) = n).
      { unfold slice_from. rewrite length_take, length_drop. lia. }
      destruct (charge_parameters_slots _ _ _ Hps) as [Hslots Hsum].
      { fold (free_parameters c). fold (_nfree_param c). fold n. lia. }
      fold (free_parameters c) in Hslots, Hsum.
      fold (_nfree_param c) in Hslots, Hsum. fold n in Hslots, Hsum.
      assert (Hn : _nfree_param (with_parameters ps c) = n) by exact Hsum.
      rewrite Hn in Hrun.
      destruct (IH _ _ _ Hrun) as (visited & -> & Hrest); [lia|].
      exists (with_parameters ps c :: visited).
      split; [by rewrite <- app_assoc|].
      rewrite filter_cons_True by done.
      rewrite bind_cons, bind_app, Hrest. unfold free_parameters at 1.
      cbn [parameters with_parameters]. rewrite Hslots.
      rewrite <- Hslice at 1. rewrite firstn_all.
      unfold slice_from. by rewrite <- drop_drop, take_take_drop.
    + rewrite (filter_cons_False _ c todo) by (by rewrite Hact).
      intros Hrun Hlen.
      destruct (IH _ _ _ Hrun Hlen) as (visited & -> & Hrest).
      exists (c :: visited). split; [by rewrite <- app_assoc|].
      by rewrite filter_cons_False by (by rewrite Hact).
Qed.

(** X12.  Round trip the other way: when the vector [p0] has one value per
    slot of the free parameters of the active components and [_charge_p0]
    returns, the free parameters hold exactly that vector, and a [_set_p0]
    that follows assembles it again and changes nothing. *)
Theorem set_p0_after_charge_p0 m (vec : list R) (p_std : option (list R))
    m1 handed_std :
  p0 m = Some vec ->
  length vec
  = sum_list_with _nfree_param
      (filter (fun c => active c = true) (components m)) ->
  _charge_p0 p_std m = Returns (m1, handed_std) ->
  free_parameter_vector m1 = vec
  /\ (vec <> [] -> _set_p0 m1 = Ok m1).
Proof.
  intros Hp0 Hlen. unfold _charge_p0. rewrite Hp0.
  destruct (charge_p0_loop _ _ _ _ _ _) as [[cs handed]|] eqn:Hloop;
    cbn [mbind outcome_bind]; [|done].
  intros [= <- <-].
  destruct (charge_p0_loop_slots _ _ _ _ _ _ _ _ Hloop)
    as (visited & -> & Hslots); [lia|].
  cbn [app] in *. rewrite <- Hlen, drop_0, firstn_all in Hslots.
  assert (Hvec : free_parameter_vector (with_components visited m) = vec)
    by exact Hslots.
  split; [done|]. intros Hne. rewrite set_p0_cases, Hvec.
  destruct (active_free_parameters (with_components visited m)) eqn:Hfree.
  - unfold free_parameter_vector in Hvec. rewrite Hfree in Hvec. by subst.
  - f_equal. destruct m. cbn in Hp0. by subst.
Qed.

End ChargeP0Properties.

Lemma example_values_shaped : values_shaped Example.plain_model.
Proof.
  intros c p Hc Hp. vm_compute in Hc.
  repeat (apply elem_of_cons in Hc as [->|Hc];
          [vm_compute in Hp;
           repeat (apply elem_of_cons in Hp as [->|Hp];
                   [vm_compute; repeat split; lia|]);
           by apply elem_of_nil in Hp|]).
  by apply elem_of_nil in Hc.
Qed.

Lemma charge_p0_after_set_p0_witness :
  values_shaped Example.plain_model
  /\ _set_p0 Example.plain_model = Ok (with_p0 [5; 3]%Z Example.plain_model)
  /\ exists handed_std,
       _charge_p0 None (with_p0 [5; 3]%Z Example.plain_model)
       = Returns (with_p0 [5; 3]%Z Example.plain_model, handed_std).
Proof.
  assert (Hrun : _set_p0 Example.plain_model
                 = Ok (with_p0 [5; 3]%Z Example.plain_model))
    by (vm_compute; reflexivity).
  split; [exact example_values_shaped|]. split; [exact Hrun|].
  exact (charge_p0_after_set_p0 Example.plain_model _ None
           example_values_shaped Hrun).
Defined.

Lemma set_p0_after_charge_p0_witness :
  exists m1 handed_std,
    _charge_p0 None (with_p0 [7; 9]%Z Example.plain_model)
    = Returns (m1, handed_std)
    /\ free_parameter_vector m1 = [7; 9]%Z
    /\ _set_p0 m1 = Ok m1.
Proof.
  eexists _, _. split; [vm_compute; reflexivity|].
  pose proof (set_p0_after_charge_p0
                (with_p0 [7; 9]%Z Example.plain_model) [7; 9]%Z None _ _
                eq_refl eq_refl eq_refl) as [Hvec Hset].
  split; [exact Hvec|]. apply Hset. discriminate.
Defined.

(** ** The function handed to the optimizers *)

Section ModelFunctionProperties.
Context {R : Type} `{Arith R} `{!ComponentCall R}.
Implicit Types (m : Model R) (c : Component R).

Lemma model_function_plain_loop_idle (param ax : list R)
    (charged todo : list (Component R)) (st : nat * option (list R)) :
  Forall (fun c => active c = false) todo ->
  model_function_plain_loop param ax charged todo st = Ok (charged ++ todo, st).
Proof.
  revert charged. induction todo as [|c todo IH]; intros charged Hidle.
  - by rewrite app_nil_r.
  - apply Forall_cons in Hidle as [Hc Htodo].
    cbn [model_function_plain_loop]. rewrite Hc, IH by done.
    by rewrite <- app_assoc.
Qed.

Lemma call_plain_loop_idle (vals : Values R) (ax sum_ : list R)
    (cs : list (Component R)) :
  Forall (fun c => active c = false) cs ->
  for_each (fun sum_ component =>
              if active component
              then np_add_out sum_ (function component vals ax)
              else Ok sum_) cs sum_
  = Ok sum_.
Proof.
  induction cs as [|c cs IH]; intros Hidle; [done|].
  apply Forall_cons in Hidle as [Hc Hcs].
  cbn [for_each]. rewrite Hc. cbn. by apply IH.
Qed.

(** X13.  In a model without convolution none of whose components is
    active, [_model_function] fails: its local [sum] is never assigned, so
    returning it is an [UnboundLocalError]; [__call__] restricted to the
    active components returns an array of zeros for the same model. *)
Theorem model_function_without_active m (param : list R) :
  model_convolved m = false ->
  length (channel_switches m) = length (axis (model_axis m)) ->
  Forall (fun c => active c = false) (components m) ->
  _model_function m param = Fails UnboundLocalError
  /\ __call__ m false true = Ok (np_zeros (count_true (channel_switches m))).
Proof.
  intros Hplain Hmask Hidle. split.
  - unfold _model_function. rewrite Hplain.
    rewrite getitem_mask_same by done. cbn [of_result mbind outcome_bind].
    by rewrite model_function_plain_loop_idle.
  - unfold __call__. rewrite Hplain. cbn [negb orb].
    rewrite getitem_mask_same by done. cbn [mbind result_bind].
    rewrite call_plain_loop_idle by done.
    by rewrite select_length.
Qed.

End ModelFunctionProperties.

Lemma model_function_without_active_witness :
  _model_function Cases.idle_model [1; 2]%Z = Fails UnboundLocalError
  /\ __call__ Cases.idle_model false true = Ok [0; 0; 0]%Z.
Proof.
  assert (Hidle : Forall (fun c => active c = false)
                    (components Cases.idle_model))
    by (repeat constructor).
  exact (model_function_without_active Cases.idle_model [1; 2]%Z
           eq_refl eq_refl Hidle).
Defined.

(** ** Saving and loading the parameter maps *)

Section LoadingProperties.
Context {R : Type} `{Arith R}.
Implicit Types (w : World R) (m : Model R) (c : Component R) (p : Param R).

Lemma with_map_same p : with_map (map_ p) p = p.
Proof. by destruct p. Qed.

Lemma get_parameter_at w i j c p :
  components (model w) !! i = Some c -> parameters c !! j = Some p ->
  get_parameter i j w = (Ok p, w).
Proof.
  intros Hc Hp. unfold get_parameter, mbind, M_bind, get_model.
  by rewrite Hc, Hp.
Qed.

Lemma put_parameter_same w i j c p :
  components (model w) !! i = Some c -> parameters c !! j = Some p ->
  put_parameter i j p w = (Ok (), w).
Proof.
  intros Hc Hp. unfold put_parameter, mbind, M_bind, get_model, put_model.
  rewrite Hc, (list_insert_id _ _ _ Hp), with_parameters_same.
  rewrite (list_insert_id _ _ _ Hc), with_components_same.
  by destruct w.
Qed.

(** Loading the archive of the model itself changes no map. *)
Lemma load_parameter_maps_same w i c (js : list nat) :
  components (model w) !! i = Some c -> distinct_parameter_names c ->
  Forall (fun j => j < length (parameters c)) js ->
  for_each_MX
    (fun _ j =>
       p ← of_M (get_parameter i j);
       match parameter_archive (model w) !! archive_key i (comp_name c) (name p)
       with
       | Some mp => of_M (put_parameter i j (with_map mp p))
       | None => fail KeyError
       end)
    js () w
  = (Returns (), w).
Proof.
  intros Hc Hdup. induction js as [|j js IH]; intros Hjs; [done|].
  apply Forall_cons in Hjs as [Hj Hjs].
  destruct (lookup_lt_is_Some_2 _ _ Hj) as [p Hp].
  cbn [for_each_MX]. unfold mbind at 1, MX_bind at 1.
  unfold mbind at 1, MX_bind at 1, of_M at 1.
  rewrite (get_parameter_at w i j c p Hc Hp). cbn [of_result].
  rewrite (parameter_archive_complete (model w) i c p Hc Hdup)
    by (by eapply list_elem_of_lookup_2).
  unfold of_M. rewrite with_map_same, (put_parameter_same w i j c p Hc Hp).
  cbn [of_result]. by apply IH.
Qed.

Lemma load_component_maps_same w (is_ : list nat) :
  (forall c, c ∈ components (model w) -> distinct_parameter_names c) ->
  Forall (fun i => i < length (components (model w))) is_ ->
  for_each_MX (fun _ i => load_component_maps (parameter_archive (model w)) i)
    is_ () w
  = (Returns (), w).
Proof.
  intros Hdup. induction is_ as [|i is_ IH]; intros His; [done|].
  apply Forall_cons in His as [Hi His].
  destruct (lookup_lt_is_Some_2 _ _ Hi) as [c Hc].
  cbn [for_each_MX]. unfold mbind at 1, MX_bind at 1.
  unfold load_component_maps at 1, mbind at 1, MX_bind at 1, of_M at 1,
    get_model at 1.
  cbn [of_result]. rewrite Hc.
  rewrite (load_parameter_maps_same w i c); [by apply IH|done| |].
  - apply Hdup. by eapply list_elem_of_lookup_2.
  - apply Forall_forall. intros j Hj. by apply elem_of_seq in Hj as [_ Hj].
Qed.

Lemma savez_path_longer (filename : string) :
  endswith filename ".npz" = false -> savez_path filename <> filename.
Proof.
  intros Hend Heq. rewrite (savez_path_npz _ Hend) in Heq.
  apply (f_equal String.length) in Heq.
  rewrite string_length_app in Heq. cbn in Heq. lia.
Qed.

(** X14.  Round trip of the archive: when the parameter names of each
    component are pairwise different once normalised, loading the file that
    [save_parameters2file(filename)] has just written - under the name
    [np.savez] gave it - finds every key, puts back every map unchanged and
    then does exactly what [charge()] does. *)
Theorem load_after_save (filename : string) w :
  (forall c, c ∈ components (model w) -> distinct_parameter_names c) ->
  exists w1,
    save_parameters2file filename w = (Ok (), w1)
    /\ model w1 = model w
    /\ load_parameters_from_file (savez_path filename) w1
       = of_M (charge false) w1.
Proof.
  intros Hdup. eexists. split; [reflexivity|]. split; [done|].
  set (w1 := with_log _ _).
  unfold load_parameters_from_file, mbind at 1, MX_bind at 1, np_load at 1.
  replace (files w1 !! savez_path filename)
    with (Some (Npz (parameter_archive (model w))))
    by (symmetry; apply lookup_insert_eq).
  unfold mbind at 1, MX_bind at 1, of_M at 1, get_model at 1. cbn [of_result].
  unfold mbind at 1, MX_bind at 1.
  change (parameter_archive (model w)) with (parameter_archive (model w1)).
  rewrite load_component_maps_same; [done|done|].
  apply Forall_forall. intros i Hi. by apply elem_of_seq in Hi as [_ Hi].
Qed.

(** X15.  Saving appends [.npz] to the name and loading does not: when the
    name does not end in [.npz] and no file of that very name exists,
    loading under the name that was handed to [save_parameters2file] is an
    [IOError], and nothing is changed by the attempt. *)
Theorem load_needs_extension (filename : string) w :
  endswith filename ".npz" = false ->
  files w !! filename = None ->
  exists w1,
    save_parameters2file filename w = (Ok (), w1)
    /\ files w1 !! (filename +:+ ".npz")
       = Some (Npz (parameter_archive (model w)))
    /\ load_parameters_from_file filename w1 = (Fails (Builtin IOError), w1).
Proof.
  intros Hend Hnone. eexists. split; [reflexivity|].
  set (w1 := with_log _ _).
  assert (Hpath : savez_path filename = filename +:+ ".npz")
    by by apply savez_path_npz.
  split.
  - unfold w1. cbn [files with_log with_files]. rewrite Hpath.
    apply lookup_insert_eq.
  - unfold load_parameters_from_file, mbind at 1, MX_bind at 1, np_load at 1.
    replace (files w1 !! filename) with (@None (FileContent R)); [done|].
    symmetry. unfold w1. cbn [files with_log with_files].
    rewrite lookup_insert_ne by (by apply savez_path_longer). done.
Qed.

End LoadingProperties.

Lemma example_distinct_names (c : Component Z) :
  c ∈ components (model (Example.world_of Example.plain_model)) ->
  distinct_parameter_names c.
Proof.
  intros Hc. vm_compute in Hc.
  repeat (apply elem_of_cons in Hc as [->|Hc];
          [refine (bool_decide_unpack _ _); vm_compute; exact I|]).
  by apply elem_of_nil in Hc.
Qed.

Lemma load_after_save_witness :
  exists w1,
    save_parameters2file "fit" (Example.world_of Example.plain_model)
    = (Ok (), w1)
    /\ model w1 = Example.plain_model
    /\ load_parameters_from_file (savez_path "fit") w1
       = of_M (charge false) w1.
Proof.
  exact (load_after_save "fit" (Example.world_of Example.plain_model)
           example_distinct_names).
Defined.

Lemma load_needs_extension_witness :
  exists w1,
    save_parameters2file "fit" (Example.world_of Example.plain_model)
    = (Ok (), w1)
    /\ files w1 !! "fit.npz" = Some (Npz (parameter_archive Example.plain_model))
    /\ load_parameters_from_file "fit" w1 = (Fails (Builtin IOError), w1).
Proof.
  exact (load_needs_extension "fit" (Example.world_of Example.plain_model)
           eq_refl eq_refl).
Defined.

(** ** The positions visited by the dataset-wide fit *)

Section FittedPositionsProperties.
Context {R : Type} `{Arith R} `{Optimizers R}.
Implicit Types (w : World R).

Lemma bind_run {A B : Type} (ma : M R A) (f : A -> M R B) w r w' :
  (ma ≫= f) w = (r, w') ->
  (exists a w1, ma w = (Ok a, w1) /\ f a w1 = (r, w'))
  \/ (exists e, ma w = (Raise e, w') /\ r = Raise e).
Proof.
  unfold mbind, M_bind. destruct (ma w) as [[a|e] w1].
  - intros Hf. left. by exists a, w1.
  - intros [= <- <-]. right. by exists e.
Qed.

Lemma fitted_positions_app (l1 l2 : list (Event R)) :
  fitted_positions (l1 ++ l2) = fitted_positions l1 ++ fitted_positions l2.
Proof. apply omap_app. Qed.

(** The fitted positions are a function of the events, and no event but a
    call of [fit] adds one. *)
Lemma fitted_closed (L : list (list nat)) :
  closed_under (fun e => fitted_positions [e] = [])
               (fun w => fitted_positions (log w) = L).
Proof.
  split; [done|]. intros w e He Hw. cbn [log with_log].
  by rewrite fitted_positions_app, He, Hw, app_nil_r.
Qed.

Lemma fit_here_fits index fitter grad_ bounded w r w' :
  fit_here index fitter grad_ bounded w = (r, w') ->
  fitted_positions (log w') = fitted_positions (log w) ++ [index].
Proof.
  unfold fit_here, mbind, M_bind, emit, get_model, lift, put_model.
  cbn [model log with_log with_model].
  destruct (fit fitter grad_ bounded (model w)); intros [= <- <-];
    cbn [model log with_log with_model];
    by rewrite fitted_positions_app.
Qed.

(** One position that is not masked: it is charged, then fitted. *)
Lemma unmasked_turn_fits index fitter charge_only_fixed grad_ bounded
    (i : nat) w (r : result nat) w' :
  (_ ← set_not_slicing_indexes index;
   _ ← emit (Charged index charge_only_fixed);
   _ ← charge charge_only_fixed;
   _ ← fit_here index fitter grad_ bounded;
   _ ← emit (Progress (i + 1));
   mret (i + 1)) w = (r, w') ->
  exists l, fitted_positions (log w') = fitted_positions (log w) ++ l
            /\ l `prefix_of` [index]
            /\ (forall i', r = Ok i' -> l = [index]).
Proof.
  pose proof (fitted_closed (fitted_positions (log w))) as Hcl.
  intros Hrun.
  apply bind_run in Hrun as [(? & w1 & H1 & Hrun)|(e & H1 & ->)].
  2:{ exists []. rewrite app_nil_r. split; [|split; [apply prefix_nil|done]].
      exact (set_not_slicing_indexes_closed _ _ index Hcl w _ w' eq_refl H1). }
  apply (set_not_slicing_indexes_closed _ _ index Hcl w _ w1 eq_refl) in H1.
  apply bind_run in Hrun as [(? & w2 & H2 & Hrun)|(e & H2 & ->)];
    [|discriminate H2].
  apply (emit_closed _ _ (Charged index charge_only_fixed) Hcl eq_refl
           w1 _ w2 H1) in H2.
  apply bind_run in Hrun as [(? & w3 & H3 & Hrun)|(e & H3 & ->)].
  2:{ exists []. rewrite app_nil_r. split; [|split; [apply prefix_nil|done]].
      exact (charge_closed _ _ charge_only_fixed Hcl eq_refl w2 _ w' H2 H3). }
  apply (charge_closed _ _ charge_only_fixed Hcl eq_refl w2 _ w3 H2) in H3.
  apply bind_run in Hrun as [(? & w4 & H4 & Hrun)|(e & H4 & ->)].
  2:{ exists [index]. apply fit_here_fits in H4. rewrite H4, H3.
      split; [done|]. split; [done|done]. }
  apply fit_here_fits in H4. rewrite H3 in H4.
  exists [index]. split; [|split; [done|done]].
  unfold mbind, M_bind, emit, mret, M_ret in Hrun. injection Hrun as <- <-.
  cbn [log with_log]. by rewrite fitted_positions_app, H4, app_nil_r.
Qed.

Lemma save_parameters2file_fits filename (L : list (list nat)) :
  stable (fun w => fitted_positions (log w) = L)
         (save_parameters2file filename).
Proof.
  intros w r w' Hw.
  unfold save_parameters2file, mbind, M_bind, get_model, np_savez.
  intros [= <- <-]. cbn [log with_log with_files].
  by rewrite fitted_positions_app, Hw, app_nil_r.
Qed.

Lemma fit_position_fits mask fitter charge_only_fixed grad_ autosave
    autosave_every bounded autosave_fn (i : nat) index w r w' :
  fit_position mask fitter charge_only_fixed grad_ autosave autosave_every
    bounded autosave_fn i index w = (r, w') ->
  let mine := if is_unmasked mask index then [index] else [] in
  exists l, fitted_positions (log w') = fitted_positions (log w) ++ l
            /\ l `prefix_of` mine
            /\ (forall i', r = Ok i' -> l = mine).
Proof.
  unfold fit_position, is_unmasked. intros Hrun. cbn zeta.
  apply bind_run in Hrun as [(i1 & w1 & H1 & Hrun)|(e & H1 & ->)].
  - assert (Hfirst : exists l,
              fitted_positions (log w1) = fitted_positions (log w) ++ l
              /\ l = if match mask with
                        | None => true
                        | Some mk => negb (mask_at mk index)
                        end then [index] else []).
    { destruct (match mask with None => _ | Some _ => _ end).
      - apply unmasked_turn_fits in H1 as (l & Hl & _ & Hok).
        exists l. split; [done|]. by apply (Hok i1).
      - injection H1 as <- <-. exists []. by rewrite app_nil_r. }
    destruct Hfirst as (l & Hl & ->). eexists. split; [|split; [done|done]].
    rewrite <- Hl.
    refine (stable_bind (fun w0 => fitted_positions (log w0)
                                   = fitted_positions (log w1))
              _ _ _ _ w1 r w' eq_refl Hrun).
    + destruct autosave; [|apply stable_ret].
      case_decide; [apply stable_raise|].
      case_decide; [|apply stable_ret].
      apply save_parameters2file_fits.
    + intros _. apply stable_ret.
  - destruct (match mask with None => _ | Some _ => _ end).
    + apply unmasked_turn_fits in H1 as (l & Hl & Hpre & _).
      exists l. split; [done|]. split; [done|done].
    + discriminate H1.
Qed.

Lemma positions_fits mask fitter charge_only_fixed grad_ autosave
    autosave_every bounded autosave_fn indices (i : nat) w r w' :
  for_each_M (fit_position mask fitter charge_only_fixed grad_ autosave
                autosave_every bounded autosave_fn) indices i w = (r, w') ->
  let mine := filter (fun index => is_unmasked mask index = true) indices in
  exists l, fitted_positions (log w') = fitted_positions (log w) ++ l
            /\ l `prefix_of` mine
            /\ (forall i', r = Ok i' -> l = mine).
Proof.
  revert i w. induction indices as [|index indices IH]; intros i w Hrun mine.
  - injection Hrun as <- <-. exists []. by rewrite app_nil_r.
  - cbn [for_each_M] in Hrun.
    assert (Hmine : mine = (if is_unmasked mask index then [index] else [])
                           ++ filter (fun index => is_unmasked mask index = true)
                                     indices).
    { unfold mine. destruct (is_unmasked mask index) eqn:Hm.
      - by rewrite filter_cons_True by done.
      - by rewrite filter_cons_False by (by rewrite Hm). }
    apply bind_run in Hrun as [(i1 & w1 & H1 & Hrun)|(e & H1 & ->)].
    + apply fit_position_fits in H1 as (l1 & Hl1 & _ & Hok1).
      rewrite (Hok1 i1 eq_refl) in Hl1.
      apply IH in Hrun as (l2 & Hl2 & Hpre2 & Hok2).
      exists ((if is_unmasked mask index then [index] else []) ++ l2).
      rewrite Hl2, Hl1, app_assoc, Hmine. split; [done|].
      split; [by apply prefix_app|].
      intros i' Hr. by rewrite (Hok2 i' Hr).
    + apply fit_position_fits in H1 as (l1 & Hl1 & Hpre1 & _).
      exists l1. split; [done|]. split; [|done].
      rewrite Hmine. by apply prefix_app_r.
Qed.

Lemma fitted_positions_none (l : list (Event R)) :
  Forall (fun e => fitted_positions [e] = []) l -> fitted_positions l = [].
Proof.
  induction 1 as [|e l He Hl IH]; [done|].
  change (e :: l) with ([e] ++ l). by rewrite fitted_positions_app, He, IH.
Qed.

Lemma fitted_positions_bounding fitter bounded :
  fitted_positions (bounding_events (R:=R) fitter bounded) = [].
Proof.
  unfold bounding_events. by destruct bounded; repeat case_decide.
Qed.

Lemma fitted_positions_start fitter autosave autosave_every w r w1 :
  multifit_start fitter autosave autosave_every w = (r, w1) ->
  fitted_positions (log w1) = fitted_positions (log w).
Proof.
  intros Hrun.
  destruct (multifit_start_run fitter autosave autosave_every w)
    as (w1' & Hstart & _ & _ & _ & (new & Hlog & Hnew) & _).
  rewrite Hrun in Hstart. injection Hstart as _ <-.
  rewrite Hlog, fitted_positions_app, (fitted_positions_none new), app_nil_r;
    [done|].
  eapply Forall_impl; [exact Hnew|]. by intros [].
Qed.

(** X16.  Whatever way [multifit] ends, the positions it has called [fit]
    for are, in order, a prefix of the positions of [np.ndindex] over the
    navigation shape that the mask lets through: no masked position is
    fitted, none is fitted twice and none is skipped before a later one.
    When [multifit] returns, they are all of them. *)
Theorem multifit_fits_unmasked mask fitter charge_only_fixed grad_ autosave
    autosave_every bounded w r w' :
  multifit mask fitter charge_only_fixed grad_ autosave autosave_every bounded w
  = (r, w') ->
  exists fitted,
    fitted_positions (log w') = fitted_positions (log w) ++ fitted
    /\ fitted `prefix_of` unmasked_positions mask (navigation_shape (model w))
    /\ (r = Ok () ->
        fitted = unmasked_positions mask (navigation_shape (model w))).
Proof.
  intros Hrun.
  destruct (multifit_phases _ _ _ _ _ _ _ _ _ _ Hrun) as (w1 & Hstart & Hcases).
  pose proof (fitted_positions_start _ _ _ _ _ _ Hstart) as Hw1.
  destruct Hcases as [(mk & text & _ & _ & -> & ->)|[_ Hcases]].
  { exists []. cbn [log with_log].
    rewrite fitted_positions_app, Hw1. split; [done|].
    split; [apply prefix_nil|done]. }
  destruct Hcases as [(_ & -> & ->)|(_ & m2 & r3 & w3 & Hloop & Hend)].
  { exists []. rewrite app_nil_r. split; [done|].
    split; [apply prefix_nil|done]. }
  apply positions_fits in Hloop as (l & Hl & Hpre & Hok).
  cbn [log with_log with_model] in Hl.
  rewrite fitted_positions_app, fitted_positions_bounding, app_nil_r, Hw1 in Hl.
  destruct r3 as [i|e].
  - specialize (Hok i eq_refl). exists l.
    split; [|split; [done|by intros _]].
    cbn zeta in Hend. destruct autosave.
    + apply os_remove_run in Hend as [(_ & _ & ->)|(_ & _ & ->)];
        cbn [log with_log with_files];
        rewrite !fitted_positions_app, Hl; cbn; by rewrite !app_nil_r.
    + destruct Hend as [_ ->]. cbn [log with_log].
      rewrite fitted_positions_app, Hl. cbn. by rewrite app_nil_r.
  - destruct Hend as [-> ->]. exists l. split; [done|]. split; [done|done].
Qed.

Lemma fit_position_every_zero_keeps path mask fitter charge_only_fixed grad_
    bounded autosave_fn (i : nat) index (content : FileContent R) :
  stable (fun w => files w !! path = Some content)
         (fit_position mask fitter charge_only_fixed grad_ true 0 bounded
            autosave_fn i index).
Proof.
  pose proof (files_closed
                (fun fs : gmap string (FileContent R) =>
                   fs !! path = Some content))
    as Hcl.
  unfold fit_position. apply stable_bind.
  - destruct (match mask with None => _ | Some _ => _ end); [|apply stable_ret].
    apply stable_bind; [by eapply set_not_slicing_indexes_closed|]. intros _.
    apply stable_bind; [by eapply emit_closed|]. intros _.
    apply stable_bind; [by eapply charge_closed|]. intros _.
    apply stable_bind; [by eapply fit_here_closed|]. intros _.
    apply stable_bind; [by eapply emit_closed|]. intros _.
    apply stable_ret.
  - intros i'. apply stable_bind; [|intros _; apply stable_ret].
    rewrite decide_True by done. apply stable_raise.
Qed.

(** X17.  With autosaving and [autosave_every = 0] a pass over at least one
    position never completes: the test [i % autosave_every] of the first
    turn is a division by zero, so [multifit] raises after at most one fit,
    and the empty temporary file it created is left behind. *)
Theorem multifit_autosave_every_zero mask fitter charge_only_fixed grad_
    bounded w r w' :
  ndindex (navigation_shape (model w)) <> [] ->
  multifit mask fitter charge_only_fixed grad_ true 0 bounded w = (r, w') ->
  exists e fitted,
    r = Raise e
    /\ fitted_positions (log w') = fitted_positions (log w) ++ fitted
    /\ length fitted <= 1
    /\ files w' !! checkpoint_path w = Some EmptyFile.
Proof.
  intros Hsome Hrun.
  destruct (multifit_phases _ _ _ _ _ _ _ _ _ _ Hrun) as (w1 & Hstart & Hcases).
  pose proof (fitted_positions_start _ _ _ _ _ _ Hstart) as Hw1.
  destruct (multifit_start_run fitter true 0 w)
    as (w1' & Hstart' & _ & _ & _ & _ & Hfiles).
  rewrite Hstart in Hstart'. injection Hstart' as <-.
  assert (Hcreated : files w1 !! checkpoint_path w = Some EmptyFile)
    by (rewrite Hfiles; apply lookup_insert_eq).
  destruct Hcases as [(mk & text & _ & _ & -> & ->)|[_ Hcases]].
  { exists (SystemExit text), []. cbn [log with_log files].
    rewrite fitted_positions_app, Hw1.
    split; [done|]. split; [done|]. split; [cbn; lia|done]. }
  destruct Hcases as [(_ & -> & ->)|(_ & m2 & r3 & w3 & Hloop & Hend)].
  { exists IndexError, []. rewrite app_nil_r.
    split; [done|]. split; [done|]. split; [cbn; lia|done]. }
  destruct (ndindex (navigation_shape (model w))) as [|index indices];
    [done|].
  cbn [for_each_M] in Hloop.
  apply bind_run in Hloop as [(i1 & wa & Hturn & _)|(e & Hturn & ->)].
  { apply fit_position_checkpoint in Hturn as [Hpos _]. lia. }
  destruct Hend as [-> ->].
  pose proof Hturn as Hkept.
  apply (fit_position_every_zero_keeps (checkpoint_path w) _ _ _ _ _ _ _ _
           EmptyFile) in Hkept; [|exact Hcreated].
  apply fit_position_fits in Hturn as (l & Hl & Hpre & _).
  cbn [log with_log with_model] in Hl.
  rewrite fitted_positions_app, fitted_positions_bounding, app_nil_r, Hw1 in Hl.
  exists e, l. split; [done|]. split; [done|]. split; [|done].
  apply prefix_length in Hpre.
  destruct (is_unmasked mask index); cbn in Hpre; lia.
Qed.

End FittedPositionsProperties.

(** ** The checkpoint of the dataset-wide fit *)

Section CheckpointProperties.
Context {R : Type} `{Arith R} `{Optimizers R}.
Implicit Types (w : World R).

Lemma holds_after_invariant {A S : Type} (I Q : S -> World R -> Prop)
    (body : S -> A -> M R S) (l : list A) s w :
  (forall s x w s' w', I s w -> body s x w = (Ok s', w') -> I s' w' /\ Q s' w') ->
  I s w -> holds_after Q body l s w.
Proof.
  intros Hstep. revert s w. induction l as [|x l IH]; intros s w HI; [done|].
  cbn [holds_after]. destruct (body s x w) as [[s'|e] w'] eqn:Hrun; [|done].
  destruct (Hstep _ _ _ _ _ HI Hrun) as [HI' HQ]. split; [done|by apply IH].
Qed.

(** A turn that returns has counted the position when it was fitted. *)
Lemma fit_position_count mask fitter charge_only_fixed grad_ autosave
    autosave_every bounded autosave_fn (i : nat) index w i' w' :
  fit_position mask fitter charge_only_fixed grad_ autosave autosave_every
    bounded autosave_fn i index w = (Ok i', w') ->
  i' = i + (if is_unmasked mask index then 1 else 0).
Proof.
  unfold fit_position, is_unmasked. intros Hrun.
  apply bind_run in Hrun as [(i1 & w1 & H1 & Hrun)|(e & _ & ?)]; [|done].
  assert (Hi1 : i1 = i + (if match mask with
                              | None => true
                              | Some mk => negb (mask_at mk index)
                              end then 1 else 0)).
  { destruct (match mask with None => _ | Some _ => _ end).
    - repeat (apply bind_run in H1 as [(? & ? & _ & H1)|(e & _ & ?)]; [|done]).
      by injection H1 as <- _.
    - injection H1 as <- _. lia. }
  apply bind_run in Hrun as [(? & w2 & _ & Hrun)|(e & _ & ?)]; [|done].
  by injection Hrun as <- _.
Qed.

(** A turn with autosaving that ends on a multiple of [autosave_every]
    has saved last: the file holds the archive of the model as it is. *)
Lemma fit_position_saved mask fitter charge_only_fixed grad_
    autosave_every bounded autosave_fn (i : nat) index w i' w' :
  fit_position mask fitter charge_only_fixed grad_ true autosave_every bounded
    autosave_fn i index w = (Ok i', w') ->
  i' mod autosave_every = 0 ->
  files w' !! savez_path autosave_fn = Some (Npz (parameter_archive (model w')))
  /\ last (log w')
     = Some (Saved (savez_path autosave_fn) (parameter_archive (model w'))).
Proof.
  intros Hrun Hmod.
  split; [by apply (proj2 (fit_position_checkpoint _ _ _ _ _ _ _ _ _ _ _ _
                             Hrun))|].
  unfold fit_position in Hrun.
  apply bind_run in Hrun as [(i1 & w1 & _ & Hrun)|(e & _ & ?)]; [|done].
  apply bind_run in Hrun as [([] & w2 & Hsave & Hrun)|(e & _ & ?)]; [|done].
  injection Hrun as <- <-.
  case_decide as Hzero; [done|]. rewrite decide_True in Hsave by done.
  unfold save_parameters2file, mbind, M_bind, get_model, np_savez in Hsave.
  injection Hsave as <-. cbn [log model with_log with_files].
  by rewrite last_snoc.
Qed.

(** C8.  With autosaving, [multifit] creates its one temporary file before
    anything else and saves nowhere else.  Its loop over the positions is
    the loop of [fit_position], which starts with the file empty; at the
    end of every turn the loop state counts the positions fitted so far,
    and whenever that count is a multiple of [autosave_every] - so right
    after every [autosave_every]-th fitted position - the turn has just
    saved: the file holds the archive of all parameter maps of the model
    as it then is, each map under the key of its component and parameter.
    When the loop completes the file is removed and [multifit] returns;
    when the pass is interrupted the world is left as the loop left it,
    the file still there. *)
Theorem multifit_checkpoint mask fitter charge_only_fixed grad_ autosave_every
    bounded w r w' :
  endswith (checkpoint_name w) ".npz" = false ->
  multifit mask fitter charge_only_fixed grad_ true autosave_every bounded w
  = (r, w') ->
  let f := resolve_fitter fitter in
  let path := checkpoint_path w in
  (r = Ok () -> files w' !! path = None)
  /\ ((exists e, r = Raise e) -> is_Some (files w' !! path))
  /\ (forall p a, Saved p a ∈ log w' -> Saved p a ∉ log w -> p = path)
  /\ ((forall mk, mask = Some mk -> mask_shape mk = navigation_shape (model w)) ->
      navigation_shape (model w) <> [] ->
      exists w2 r3 w3,
        for_each_M
          (fit_position mask f charge_only_fixed grad_ true autosave_every
             (chosen_bounding f bounded) (checkpoint_name w))
          (ndindex (navigation_shape (model w))) 0 w2 = (r3, w3)
        /\ fitted_positions (log w2) = fitted_positions (log w)
        /\ files w2 = <[path := EmptyFile]> (files w)
        /\ holds_after
             (fun i wk =>
                length (fitted_positions (log wk))
                = length (fitted_positions (log w)) + i
                /\ (i mod autosave_every = 0 ->
                    files wk !! path
                    = Some (Npz (parameter_archive (model wk)))
                    /\ last (log wk)
                       = Some (Saved path (parameter_archive (model wk)))
                    /\ forall k c p,
                         components (model wk) !! k = Some c ->
                         distinct_parameter_names c -> p ∈ parameters c ->
                         parameter_archive (model wk)
                           !! archive_key k (comp_name c) (name p)
                         = Some (map_ p)))
             (fit_position mask f charge_only_fixed grad_ true autosave_every
                (chosen_bounding f bounded) (checkpoint_name w))
             (ndindex (navigation_shape (model w))) 0 w2
        /\ match r3 with
           | Ok _ =>
               r = Ok ()
               /\ w' = with_log
                         (log w3 ++
                          [ProgressFinished;
                           Information ("Deleting the temporary file "
                                        +:+ checkpoint_name w +:+ "npz"
                                        +:+ " pixels");
                           Removed path])
                         (with_files (delete path (files w3)) w3)
           | Raise e => r = Raise e /\ w' = w3
           end).
Proof.
  intros Hname Hrun. cbn zeta.
  assert (Hpath : savez_path (checkpoint_name w) = checkpoint_path w)
    by by apply savez_path_npz.
  destruct (multifit_phases _ _ _ _ _ _ _ _ _ _ Hrun) as (w1 & Hstart & Hcases).
  pose proof (fitted_positions_start _ _ _ _ _ _ Hstart) as Hfitted1.
  destruct (multifit_start_run fitter true autosave_every w)
    as (w1' & Hstart' & _ & _ & _ & _ & Hfiles).
  rewrite Hstart in Hstart'. injection Hstart' as <-.
  assert (Hcreated : is_Some (files w1 !! checkpoint_path w))
    by (rewrite Hfiles, lookup_insert_eq; eauto).
  assert (Hkept : forall m2 r3 w3,
            for_each_M
              (fit_position mask (resolve_fitter fitter) charge_only_fixed
                 grad_ true autosave_every
                 (chosen_bounding (resolve_fitter fitter) bounded)
                 (checkpoint_name w))
              (ndindex (navigation_shape (model w))) 0
              (with_log (log w1 ++ bounding_events (resolve_fitter fitter)
                                     bounded)
                 (with_model m2 w1)) = (r3, w3) ->
            is_Some (files w3 !! checkpoint_path w)).
  { intros m2 r3 w3 Hloop.
    refine (stable_for_each_M
              (fun w0 => is_Some (files w0 !! checkpoint_path w))
              _ _ _ _ _ _ _ (_ : is_Some (files (with_log _ (with_model m2 w1))
                                           !! checkpoint_path w)) Hloop).
    - intros i index. apply fit_position_keeps_file.
    - exact Hcreated. }
  split; [|split; [|split]].
  - intros ->.
    destruct Hcases as [(mk & text & _ & _ & ? & _)|[_ Hcases]]; [done|].
    destruct Hcases as [(_ & ? & _)|(_ & m2 & r3 & w3 & Hloop & Hend)]; [done|].
    destruct r3 as [i|e]; [|by destruct Hend].
    cbn zeta in Hend.
    apply os_remove_run in Hend as [(_ & _ & ->)|(? & _)]; [|done].
    cbn. apply lookup_delete_eq.
  - intros (e & ->).
    destruct Hcases as [(mk & text & _ & _ & _ & ->)|[_ Hcases]]; [done|].
    destruct Hcases as [(_ & _ & ->)|(_ & m2 & r3 & w3 & Hloop & Hend)]; [done|].
    pose proof (Hkept _ _ _ Hloop) as Hfile.
    destruct r3 as [i|e3]; [|by destruct Hend as [_ ->]].
    cbn zeta in Hend.
    apply os_remove_run in Hend as [(? & _)|(_ & Hgone & _)]; [done|].
    cbn in Hgone. unfold checkpoint_path in Hfile. rewrite Hgone in Hfile.
    by destruct Hfile.
  - intros path a Hin Hnew.
    destruct (multifit_log_shape _ _ _ _ _ _ _ _ _ _ Hrun)
      as (pre & choice & loop & post & Hlog & Hpre & Hchoice & Hloop & Hpost).
    rewrite Hlog, !elem_of_app in Hin.
    destruct Hin as [Hin|[Hin|[Hin|[Hin|Hin]]]]; [done|..].
    + by apply (proj1 (Forall_forall _ _) Hpre) in Hin.
    + destruct Hchoice as [->|(-> & _)]; [|by apply elem_of_nil in Hin].
      unfold bounding_events in Hin.
      destruct bounded; [repeat case_decide|];
        first [by apply list_elem_of_singleton in Hin
              |by apply elem_of_nil in Hin].
    + apply (proj1 (Forall_forall _ _) Hloop) in Hin. cbn in Hin.
      by rewrite Hin, Hpath.
    + by apply (proj1 (Forall_forall _ _) Hpost) in Hin.
  - intros Hmask Hshape.
    destruct Hcases as [(mk & text & -> & Hne & _)|[_ Hcases]];
      [by destruct Hne, (Hmask mk)|].
    destruct Hcases as [(? & _)|(_ & m2 & r3 & w3 & Hloop & Hend)]; [done|].
    pose proof (Hkept _ _ _ Hloop) as Hfile.
    eexists _, r3, w3. split; [exact Hloop|].
    split.
    { cbn [log with_log].
      by rewrite fitted_positions_app, fitted_positions_bounding, app_nil_r. }
    split; [done|]. split.
    + apply (holds_after_invariant
               (fun i wk => length (fitted_positions (log wk))
                            = length (fitted_positions (log w)) + i)).
      2:{ cbn [log with_log].
          rewrite fitted_positions_app, fitted_positions_bounding, app_nil_r,
            Hfitted1. lia. }
      intros i index wk i' wk' Hcount Hturn.
      assert (Hcount' : length (fitted_positions (log wk'))
                        = length (fitted_positions (log w)) + i').
      { rewrite (fit_position_count _ _ _ _ _ _ _ _ _ _ _ _ _ Hturn).
        apply fit_position_fits in Hturn as (l & -> & _ & Hl).
        rewrite (Hl i' eq_refl), length_app, Hcount.
        destruct (is_unmasked mask index); cbn; lia. }
      split; [done|]. split; [done|]. intros Hmod.
      destruct (fit_position_saved _ _ _ _ _ _ _ _ _ _ _ _ Hturn Hmod)
        as [Hsaved Hlast].
      rewrite Hpath in Hsaved, Hlast. split; [done|]. split; [done|].
      intros k c p. apply parameter_archive_complete.
    + destruct r3 as [i|e]; [|done]. cbn zeta in Hend.
      apply os_remove_run in Hend as [(-> & _ & ->)|(_ & Hgone & _)].
      * split; [done|]. unfold with_log, with_files, checkpoint_path.
        cbn [model files cwd temp_token log]. by rewrite <- !app_assoc.
      * cbn in Hgone. unfold checkpoint_path in Hfile.
        rewrite Hgone in Hfile. by destruct Hfile.
Qed.

End CheckpointProperties.

Lemma multifit_checkpoint_witness :
  endswith (checkpoint_name (Example.world_of Example.plain_model)) ".npz"
  = false
  /\ exists w',
       multifit None (Some "leastsq") false false true 2 false
         (Example.world_of Example.plain_model) = (Ok (), w')
       /\ files w'
          !! checkpoint_path (Example.world_of Example.plain_model) = None.
Proof.
  assert (Hname : endswith
                    (checkpoint_name (Example.world_of Example.plain_model))
                    ".npz" = false)
    by (vm_compute; reflexivity).
  split; [exact Hname|].
  set (w' := snd (multifit None (Some "leastsq") false false true 2 false
                    (Example.world_of Example.plain_model))).
  assert (Hrun : multifit None (Some "leastsq") false false true 2 false
                   (Example.world_of Example.plain_model) = (Ok (), w'))
    by (vm_compute; reflexivity).
  exists w'. split; [exact Hrun|].
  exact (proj1 (multifit_checkpoint None (Some "leastsq") false false 2 false
                  _ _ _ Hname Hrun) eq_refl).
Defined.

Lemma multifit_fits_unmasked_witness :
  exists w',
    multifit (Some Example.skip_middle) (Some "leastsq") false false false 10
      false (Example.world_of Example.plain_model) = (Ok (), w')
    /\ fitted_positions (log w') = [[0]; [2]].
Proof.
  set (w' := snd (multifit (Some Example.skip_middle) (Some "leastsq") false
                    false false 10 false
                    (Example.world_of Example.plain_model))).
  assert (Hrun : multifit (Some Example.skip_middle) (Some "leastsq") false
                   false false 10 false
                   (Example.world_of Example.plain_model) = (Ok (), w'))
    by (vm_compute; reflexivity).
  exists w'. split; [exact Hrun|].
  destruct (multifit_fits_unmasked _ _ _ _ _ _ _ _ _ _ Hrun)
    as (fitted & Hlog & _ & Hall).
  rewrite (Hall eq_refl) in Hlog. exact Hlog.
Defined.

Lemma multifit_autosave_every_zero_witness :
  exists w',
    multifit None (Some "leastsq") false false true 0 false
      (Example.world_of Example.plain_model) = (Raise ZeroDivisionError, w')
    /\ files w' !! checkpoint_path (Example.world_of Example.plain_model)
       = Some EmptyFile.
Proof.
  set (w' := snd (multifit None (Some "leastsq") false false true 0 false
                    (Example.world_of Example.plain_model))).
  assert (Hrun : multifit None (Some "leastsq") false false true 0 false
                   (Example.world_of Example.plain_model)
                 = (Raise ZeroDivisionError, w'))
    by (vm_compute; reflexivity).
  assert (Hsome : ndindex (navigation_shape
                             (model (Example.world_of Example.plain_model)))
                  <> [])
    by (vm_compute; discriminate).
  exists w'. split; [exact Hrun|].
  destruct (multifit_autosave_every_zero _ _ _ _ _ _ _ _ Hsome Hrun)
    as (e & fitted & _ & _ & _ & Hfile).
  exact Hfile.
Defined.

(** ** Lines of a spectrum figure *)

Section DrawingProperties.
Context {Colour Axis Manager Axes Data : Type}.
Implicit Types (l line : SpectrumLine Colour Axis Manager Axes Data).

(** X18.  [line_properties_helper] only adds or overwrites: for the types
    scatter, line and step every key it assigns is present afterwards, every
    other key keeps the value it had - so a line switched from scatter to
    line keeps its marker size and marker edge colour - and for any other
    type the line is left exactly as it was, without an error. *)
Theorem line_properties_helper_frame (color : Colour) (type : string) l :
  let l' := line_properties_helper color type l in
  (forall k, k ∈ assigned_properties type ->
             is_Some (line_properties l' !! k))
  /\ (forall k, k ∉ assigned_properties type ->
                line_properties l' !! k = line_properties l !! k)
  /\ (assigned_properties type = [] -> l' = l).
Proof.
  unfold line_properties_helper, assigned_properties.
  destruct (String.eqb type "scatter"); [|destruct (String.eqb type "line");
    [|destruct (String.eqb type "step")]]; cbn zeta;
    cbn [line_properties with_line_properties].
  - split; [|split; [|done]].
    + intros k Hk. rewrite !lookup_insert.
      repeat (apply elem_of_cons in Hk as [->|Hk]; [by repeat case_decide|]).
      by apply elem_of_nil in Hk.
    + intros k Hk. rewrite !not_elem_of_cons in Hk. rewrite !lookup_insert.
      repeat (destruct Hk as [? Hk]). repeat case_decide; congruence.
  - split; [|split; [|done]].
    + intros k Hk. rewrite !lookup_insert.
      repeat (apply elem_of_cons in Hk as [->|Hk]; [by repeat case_decide|]).
      by apply elem_of_nil in Hk.
    + intros k Hk. rewrite !not_elem_of_cons in Hk. rewrite !lookup_insert.
      repeat (destruct Hk as [? Hk]). repeat case_decide; congruence.
  - split; [|split; [|done]].
    + intros k Hk. rewrite !lookup_insert.
      repeat (apply elem_of_cons in Hk as [->|Hk]; [by repeat case_decide|]).
      by apply elem_of_nil in Hk.
    + intros k Hk. rewrite !not_elem_of_cons in Hk. rewrite !lookup_insert.
      repeat (destruct Hk as [? Hk]). repeat case_decide; congruence.
  - split; [|split; [done|done]].
    intros k Hk. by apply elem_of_nil in Hk.
Qed.

End DrawingProperties.

(** ** The name of an Edge *)

Section EdgeNameProperties.
Context {R : Type} `{EdgeBase R}.

Lemma split_underscore_go_length (s current : string) :
  length (split_underscore_go s current) = 1 + count_underscores s.
Proof.
  revert current. induction s as [|a s IH]; intros current; [done|].
  cbn [split_underscore_go count_underscores].
  destruct (Ascii.eqb a "_"%char); cbn [length]; by rewrite IH.
Qed.

(** X20.  [Edge.__init__] takes names with exactly one underscore: for any
    other name the two-name unpacking of [element_subshell.split('_')]
    fails, so the construction raises [ValueError] - after the check of the
    GOS directory and [Component.__init__], before any table is looked up -
    whatever the database holds. *)
Theorem edge_init_name_format (env : EdgeEnvironment R)
    (element_subshell : string) (intensity delta : R) :
  String.eqb (GOS_dir env) "None" = false ->
  component_init ["delta"; "intensity"; "fslist"; "effective_angle"] = Ok () ->
  count_underscores element_subshell <> 1 ->
  Edge_init env element_subshell intensity delta = Raise ValueError.
Proof.
  intros Hdir Hinit Hcount. unfold Edge_init. rewrite Hdir, Hinit.
  cbn [mbind result_bind].
  pose proof (split_underscore_go_length element_subshell "") as Hlen.
  unfold split_underscore.
  destruct (split_underscore_go element_subshell "") as [|a [|b [|c l]]];
    cbn [length] in Hlen; try done.
  lia.
Qed.

End EdgeNameProperties.

Lemma edge_init_name_format_witness :
  Edge_init Example.environment "Fe" 1%Z 0%Z = Raise ValueError
  /\ Edge_init Example.environment "Fe_L_3" 1%Z 0%Z = Raise ValueError.
Proof.
  split.
  - apply (edge_init_name_format Example.environment "Fe" 1%Z 0%Z);
      [reflexivity|reflexivity|vm_compute; lia].
  - apply (edge_init_name_format Example.environment "Fe_L_3" 1%Z 0%Z);
      [reflexivity|reflexivity|vm_compute; lia].
Defined.

(** ** The fine structure of an Edge *)

Section FineStructureProperties.
Context {R : Type} `{Arith R} `{Numeric R}.
Implicit Types (e : FineStructure R) (files : gmap string (list R)).

Lemma np_linspace_length (start stop : R) (num : Z) samples :
  np_linspace start stop num = Ok samples -> length samples = Z.to_nat num.
Proof.
  unfold np_linspace. repeat case_decide.
  - intros [= <-]. cbn. lia.
  - intros [= <-]. cbn. lia.
  - destruct (Rdiv _ _) as [step|]; cbn [mbind result_bind]; [|done].
    intros [= <-]. rewrite length_app, length_map, length_seq. cbn. lia.
Qed.

Lemma inner_items_length (a : list R) : length (inner_items a) = length a - 4.
Proof. unfold inner_items. rewrite length_take, length_drop. lia. Qed.

Lemma calculate_knots_run e e' :
  calculate_knots e = Ok e' ->
  exists inner,
    knots e' = Some (replicate 4 (edge_position e) ++ inner
                     ++ replicate 4 (Radd (edge_position e) (fs_emax e)))
    /\ length inner = Z.to_nat (fslist_number_of_elements e - 4)
    /\ fslist_value e' = fslist_value e
    /\ fslist_number_of_elements e' = fslist_number_of_elements e.
Proof.
  unfold calculate_knots, edge_position.
  destruct (np_linspace _ _ _) as [samples|] eqn:Hs;
    cbn [mbind result_bind]; [|done].
  intros [= <-]. exists (inner_items samples). cbn.
  repeat split. rewrite inner_items_length, (np_linspace_length _ _ _ _ Hs).
  lia.
Qed.

(** [calculate_knots] reads the energies, [fs_emax] and the element count
    only. *)
Lemma calculate_knots_again e1 e2 e1' :
  fs_edgeenergy e2 = fs_edgeenergy e1 ->
  fs_delta_value e2 = fs_delta_value e1 ->
  fs_emax e2 = fs_emax e1 ->
  fslist_number_of_elements e2 = fslist_number_of_elements e1 ->
  calculate_knots e1 = Ok e1' ->
  exists e2', calculate_knots e2 = Ok e2'.
Proof.
  intros He Hd Hm Hn. unfold calculate_knots. rewrite He, Hd, Hm, Hn.
  destruct (np_linspace _ _ _) as [samples|]; cbn [mbind result_bind];
    [|done].
  intros _. by eexists.
Qed.

Lemma setfslist_run e0 e :
  setfslist e0 = Ok e ->
  let n := fslist_number_of_elements e in
  (0 <= n)%Z
  /\ fslist_value e = replicate (Z.to_nat n) R0
  /\ fslist_bmin e = None /\ fslist_bmax e = None
  /\ (exists k, knots e = Some k /\ length k = 8 + Z.to_nat (n - 4))
  /\ (exists e', calculate_knots e = Ok e').
Proof.
  unfold setfslist.
  destruct (Rdiv _ _) as [x|]; cbn [mbind result_bind]; [|done].
  destruct (round_int x) as [rounded|]; cbn [mbind result_bind]; [|done].
  case_decide as Hn; cbn [mbind result_bind]; [done|].
  destruct (calculate_knots _) as [e1|] eqn:Hknots;
    cbn [mbind result_bind]; [|done].
  pose proof Hknots as Hagain.
  apply calculate_knots_run in Hknots
    as (inner & Hk & Hinner & Hvalue & Helements).
  cbn in Hinner, Hvalue, Helements.
  assert (Hfields : fs_edgeenergy e1 = fs_edgeenergy e0
                    /\ fs_delta_value e1 = fs_delta_value e0
                    /\ fs_emax e1 = fs_emax e0
                    /\ fslist_bmin e1 = None /\ fslist_bmax e1 = None).
  { unfold calculate_knots in Hagain.
    destruct (np_linspace _ _ _); cbn [mbind result_bind] in Hagain; [|done].
    by injection Hagain as <-. }
  destruct Hfields as (He & Hd & Hm & Hbmin & Hbmax).
  assert (Hlen : length (replicate 4 (edge_position
                   (mkFineStructure (fs_edgeenergy e0) (fs_delta_value e0)
                      (fs_emax e0) (fs_knots_factor e0) (fs_dispersion e0)
                      (rounded + 4) None None
                      (replicate (Z.to_nat (rounded + 4)) R0)
                      (fslist_map e0) (fslist_std_map e0) (knots e0)))
                 ++ inner ++ replicate 4 (Radd (edge_position
                   (mkFineStructure (fs_edgeenergy e0) (fs_delta_value e0)
                      (fs_emax e0) (fs_knots_factor e0) (fs_dispersion e0)
                      (rounded + 4) None None
                      (replicate (Z.to_nat (rounded + 4)) R0)
                      (fslist_map e0) (fslist_std_map e0) (knots e0)))
                   (fs_emax e0)))
                 = 8 + Z.to_nat (rounded + 4 - 4)).
  { rewrite !length_app, !length_replicate, Hinner. lia. }
  destruct (fslist_map e1) as [mp|].
  - destruct (np_zeros_nd _) as [zeros|]; cbn [mbind result_bind]; [|done].
    intros [= <-]. cbn. rewrite Helements, Hvalue, Hk.
    repeat split; [lia|done|done|by eexists|].
    eapply (calculate_knots_again _ _ _ _ _ _ _ Hagain).
  - intros [= <-]. cbn zeta. rewrite Helements, Hvalue, Hk.
    repeat split; [lia|done|done|by eexists|].
    eapply (calculate_knots_again _ _ _ _ _ _ _ Hagain).
  Unshelve. all: cbn; congruence.
Qed.

(** X21.  When [calculate_knots] returns, the knot vector is four times the
    edge position, then the samples of [np.linspace] without their first
    two and last two, then four times the edge position plus [fs_emax]:
    [8 + max(n - 4, 0)] knots for [n] elements of [fslist], and nothing else
    of the fine structure is touched.  It returns whenever the division by
    a non-zero integer does. *)
Theorem calculate_knots_shape e :
  (forall x (k : Z), k <> 0%Z -> exists y, Rdiv x (of_int k) = Ok y) ->
  exists e' inner,
    calculate_knots e = Ok e'
    /\ knots e' = Some (replicate 4 (edge_position e) ++ inner
                        ++ replicate 4 (Radd (edge_position e) (fs_emax e)))
    /\ length inner = Z.to_nat (fslist_number_of_elements e - 4)
    /\ fslist_value e' = fslist_value e
    /\ fslist_number_of_elements e' = fslist_number_of_elements e.
Proof.
  intros Hdiv.
  assert (Hruns : exists e', calculate_knots e = Ok e').
  { unfold calculate_knots, np_linspace. repeat case_decide;
      cbn [mbind result_bind]; try by eexists.
    destruct (Hdiv (Rsub (Radd (Radd (fs_edgeenergy e) (fs_delta_value e))
                            (fs_emax e))
                       (Radd (fs_edgeenergy e) (fs_delta_value e)))
                (fslist_number_of_elements e - 1)%Z) as [step ->]; [lia|].
    cbn [mbind result_bind]. by eexists. }
  destruct Hruns as [e' Hrun].
  destruct (calculate_knots_run e e' Hrun) as (inner & Hk & Hrest).
  by exists e', inner.
Qed.

(** X22.  When [setfslist] returns, [fslist] holds [n] zeros for its new
    element count [n >= 0], its bounds are cleared, and the knot vector has
    [8 + max(n - 4, 0)] entries - never [n]. *)
Theorem setfslist_resets e0 e :
  setfslist e0 = Ok e ->
  let n := fslist_number_of_elements e in
  (0 <= n)%Z
  /\ fslist_value e = replicate (Z.to_nat n) R0
  /\ fslist_bmin e = None /\ fslist_bmax e = None
  /\ exists k, knots e = Some k
               /\ length k = 8 + Z.to_nat (n - 4)
               /\ length k <> length (fslist_value e).
Proof.
  intros Hrun n.
  destruct (setfslist_run e0 e Hrun)
    as (Hn & Hvalue & Hbmin & Hbmax & (k & Hk & Hlen) & _).
  fold n in Hn, Hvalue, Hlen.
  repeat split; try done.
  exists k. repeat split; try done.
  rewrite Hvalue, length_replicate, Hlen. lia.
Qed.

(** X23.  The fine structure written by [fslist_to_txt] is never read back
    by [txt_to_fslist]: once [setfslist] has returned, saving under a name
    and loading the file written ([name.dat]) always raises - the length
    test compares the values with the knots, which are at least four more
    - and loading under the name itself finds no file when none of that
    name exists. *)
Theorem fslist_file_round_trip_fails e0 e (filename : string) files :
  setfslist e0 = Ok e ->
  let n := fslist_number_of_elements e in
  txt_to_fslist (filename +:+ ".dat") (fslist_to_txt filename e files) e
  = Raise (if decide (n = 0)%Z then IOError
           else if decide (n = 1)%Z then TypeError
           else SystemExit fine_structure_message)
  /\ (files !! filename = None ->
      txt_to_fslist filename (fslist_to_txt filename e files) e
      = Raise IOError).
Proof.
  intros Hrun n.
  destruct (setfslist_run e0 e Hrun)
    as (Hn & Hvalue & _ & _ & _ & (e' & Hknots)).
  fold n in Hn, Hvalue. split.
  - unfold txt_to_fslist, np_loadtxt, fslist_to_txt.
    rewrite lookup_insert_eq, Hvalue.
    destruct (calculate_knots_run e e' Hknots) as (inner & Hk & Hinner & _).
    fold n in Hinner.
    destruct (Z.to_nat n) as [|[|m]] eqn:Hm; cbn [replicate].
    + rewrite decide_True by lia. done.
    + rewrite decide_False by lia. rewrite decide_True by lia.
      cbn [mbind result_bind]. rewrite Hknots. cbn [mbind result_bind].
      by rewrite Hk.
    + rewrite decide_False by lia. rewrite decide_False by lia.
      cbn [mbind result_bind]. rewrite Hknots. cbn [mbind result_bind].
      rewrite Hk. cbn [not_none mbind result_bind].
      rewrite decide_False; [done|].
      rewrite !length_app, !length_replicate, Hinner. cbn [length].
      rewrite length_replicate. lia.
  - intros Hnone. unfold txt_to_fslist, np_loadtxt, fslist_to_txt.
    rewrite lookup_insert_ne, Hnone; [done|].
    intros Heq. apply (f_equal String.length) in Heq.
    rewrite string_length_app in Heq. cbn in Heq. lia.
Qed.

End FineStructureProperties.

Lemma calculate_knots_shape_witness :
  exists e' inner,
    calculate_knots Cases.fine_structure = Ok e'
    /\ knots e' = Some (replicate 4 (edge_position Cases.fine_structure)
                        ++ inner
                        ++ replicate 4 (Radd (edge_position Cases.fine_structure)
                                          (fs_emax Cases.fine_structure)))
    /\ length inner
       = Z.to_nat (fslist_number_of_elements Cases.fine_structure - 4)
    /\ fslist_value e' = fslist_value Cases.fine_structure
    /\ fslist_number_of_elements e'
       = fslist_number_of_elements Cases.fine_structure.
Proof.
  apply (calculate_knots_shape Cases.fine_structure).
  intros x k Hk. cbn. rewrite decide_False by done. by eexists.
Defined.

Lemma setfslist_resets_witness :
  exists e,
    setfslist Cases.fine_structure = Ok e
    /\ fslist_value e = replicate 7 0%Z
    /\ exists k, knots e = Some k /\ length k = 11.
Proof.
  eexists. split; [vm_compute; reflexivity|].
  pose proof (setfslist_resets Cases.fine_structure _ eq_refl)
    as (_ & Hvalue & _ & _ & k & Hk & Hlen & _).
  split; [exact Hvalue|]. exists k. split; [exact Hk|exact Hlen].
Defined.

Lemma fslist_file_round_trip_fails_witness :
  exists e,
    setfslist Cases.fine_structure = Ok e
    /\ txt_to_fslist "fs.dat" (fslist_to_txt "fs" e ∅) e
       = Raise (SystemExit fine_structure_message).
Proof.
  eexists. split; [vm_compute; reflexivity|].
  exact (proj1 (fslist_file_round_trip_fails Cases.fine_structure _ "fs" ∅
                  eq_refl)).
Defined.

(** ** Attaching and detaching the low-loss spectrum *)

Section LowLossProperties.
Context {R : Type} `{Arith R}.
Implicit Types (m : Model R) (ll : LowLoss R).

Lemma call_detached m (non_convolved onlyactive : bool) :
  __call__ (with_low_loss None None false m) non_convolved onlyactive
  = __call__ m true onlyactive.
Proof.
  unfold __call__. cbn [model_convolved with_low_loss negb orb].
  rewrite orb_true_r. done.
Qed.

(** X24.  The setter of [low_loss]: attaching a spectrum makes the model
    convolved and gives it a convolution axis of [axis.size + ll_axis.size
    - 1] samples, the components being untouched; it fails only when both
    sizes are zero.  Detaching it again ([None]) clears the convolution
    axis, and from then on every evaluation is the one without
    convolution, whatever [non_convolved] says. *)
Theorem low_loss_attach_detach ll m :
  match set_low_loss (Some ll) m with
  | Ok m1 =>
      model_convolved m1 = true
      /\ _low_loss m1 = Some ll
      /\ (exists conv_axis,
            convolution_axis m1 = Some conv_axis
            /\ length conv_axis = size (model_axis m) + ll_size ll - 1)
      /\ components m1 = components m
      /\ exists m2,
           set_low_loss None m1 = Ok m2
           /\ model_convolved m2 = false
           /\ convolution_axis m2 = None
           /\ forall non_convolved onlyactive,
                __call__ m2 non_convolved onlyactive
                = __call__ m true onlyactive
  | Raise e =>
      e = ValueError /\ size (model_axis m) = 0 /\ ll_size ll = 0
  end.
Proof.
  unfold set_low_loss at 1, set_convolution_axis, generate_axis.
  cbn [_low_loss with_low_loss not_none mbind result_bind model_axis].
  case_decide as Hneg; cbn [mbind result_bind].
  - repeat split; lia.
  - cbn [model_convolved _low_loss convolution_axis with_low_loss components].
    split; [done|]. split; [done|]. split.
    + eexists. split; [done|]. rewrite length_ramp. lia.
    + split; [done|]. eexists. split; [reflexivity|].
      split; [done|]. split; [done|].
      intros non_convolved onlyactive. rewrite call_detached.
      unfold __call__. by rewrite !orb_true_r.
Qed.

End LowLossProperties.

(** ** The curve handed to the plot *)

Section ModelToPlotProperties.
Context {R : Type} `{Arith R}.
Implicit Types (w : World R) (m : Model R) (mask : list bool).

Lemma scatter_length mask (a v : list R) :
  length (scatter mask a v) = length a.
Proof.
  revert a v. induction mask as [|b mask IH]; intros [|x a] v; try done.
  cbn [scatter]. destruct b; [destruct v|]; cbn [length]; by rewrite IH.
Qed.

Lemma select_scatter mask (a v : list R) :
  length mask = length a -> length v = count_true mask ->
  select mask (scatter mask a v) = v.
Proof.
  unfold count_true. revert a v.
  induction mask as [|b mask IH]; intros [|x a] v; try done.
  - intros _ Hv. cbn in Hv. by destruct v.
  - intros [= Hlen]. cbn [scatter]. destruct b.
    + rewrite filter_cons_True by done. destruct v as [|y v]; [done|].
      intros [= Hv]. cbn [select]. f_equal. by apply IH.
    + rewrite filter_cons_False by done. intros Hv. cbn [select].
      by apply IH.
Qed.

Lemma scatter_off mask (a v : list R) (k : nat) :
  mask !! k = Some false -> scatter mask a v !! k = a !! k.
Proof.
  revert a v k. induction mask as [|b mask IH]; intros [|x a] v k; try done.
  destruct k as [|k]; cbn [scatter].
  - intros [= ->]. done.
  - intros Hk. cbn in Hk. destruct b; [destruct v|]; cbn; by apply IH.
Qed.

(** Whatever branch is taken, the evaluation has one sample per channel
    that is on. *)
Lemma call_samples m non_convolved onlyactive (s : list R) :
  __call__ m non_convolved onlyactive = Ok s ->
  length s = count_true (channel_switches m).
Proof.
  destruct (negb (model_convolved m) || non_convolved) eqn:Hbranch.
  - by apply call_plain_length.
  - unfold __call__. rewrite Hbranch.
    destruct (not_none _); cbn [mbind result_bind]; [|done].
    destruct (for_each _ _ _) as [[[? ?] ?]|]; cbn [mbind result_bind];
      [|done].
    destruct (low_loss_here m); cbn [mbind result_bind]; [|done].
    destruct (np_convolve_valid _ _); cbn [mbind result_bind]; [|done].
    destruct (broadcast _ _ _); cbn [mbind result_bind]; [|done].
    apply getitem_mask_length.
Qed.

(** The axes manager of the model of a world. *)
Lemma stable_get_model_bind {A : Type} (I : World R -> Prop)
    (k : Model R -> M R A) :
  (forall w r w', I w -> k (model w) w = (r, w') -> I w') ->
  stable I (get_model ≫= k).
Proof. intros Hk w r w' HI. unfold mbind, M_bind, get_model. by apply Hk. Qed.

Lemma put_parameter_keeps_manager (manager : list nat * list nat) i j
    (p : Param R) :
  stable (fun w => (navigation_shape (model w), _indexes (model w)) = manager)
         (put_parameter i j p).
Proof.
  unfold put_parameter. apply stable_get_model_bind. intros w r w' HI.
  destruct (components (model w) !! i); intros [= <- <-]; done.
Qed.

Lemma update_plot_keeps_manager (manager : list nat * list nat) :
  stable (fun w => (navigation_shape (model w), _indexes (model w)) = manager)
         update_plot.
Proof.
  intros w r w' HI. unfold update_plot, mbind, M_bind, emit, get_model. cbn.
  destruct (spectrum_plot (model w)) as [[]|]; intros [= <- <-]; done.
Qed.

Lemma charge_components_keeps_manager (manager : list nat * list nat)
    only_fixed :
  stable (fun w => (navigation_shape (model w), _indexes (model w)) = manager)
         (charge_components only_fixed).
Proof.
  unfold charge_components.
  apply stable_bind; [apply stable_get_model|]. intros m.
  apply stable_for_each_M. intros _ i. unfold charge_value_from_map.
  apply stable_bind; [apply stable_get_model|]. intros m'.
  destruct (components m' !! i); [|apply stable_raise].
  apply stable_for_each_M. intros _ j.
  apply stable_bind; [apply get_parameter_closed|]. intros p.
  destruct (only_fixed && free p); [apply stable_ret|].
  destruct (map_ p !! _indexes m); [|apply stable_raise].
  unfold assign_value.
  apply stable_bind; [apply get_parameter_closed|]. intros q.
  apply stable_bind; [apply put_parameter_keeps_manager|]. intros _.
  destruct (connected q && connection_active q);
    [apply update_plot_keeps_manager|apply stable_ret].
Qed.

Lemma charge_keeps_manager (manager : list nat * list nat) only_fixed :
  stable (fun w => (navigation_shape (model w), _indexes (model w)) = manager)
         (charge only_fixed).
Proof.
  unfold charge. apply stable_get_model_bind. intros w r w' HI Hrun.
  apply bind_run in Hrun as [(? & w1 & H1 & Hrun)|(e & H1 & ->)].
  2:{ destruct (auto_update_plot (model w)); discriminate H1. }
  assert (HI1 : (navigation_shape (model w1), _indexes (model w1)) = manager)
    by (destruct (auto_update_plot (model w)); by injection H1 as _ <-).
  apply bind_run in Hrun as [(? & w2 & H2 & Hrun)|(e & H2 & ->)].
  2:{ exact (charge_components_keeps_manager manager only_fixed w1 _ w'
               HI1 H2). }
  apply (charge_components_keeps_manager manager only_fixed w1 _ w2 HI1) in H2.
  destruct (auto_update_plot (model w)); [|by injection Hrun as _ <-].
  unfold mbind at 1, M_bind at 1, get_model at 1 in Hrun.
  unfold mbind at 1, M_bind at 1, put_model at 1 in Hrun.
  by apply (update_plot_keeps_manager manager _ r w') in Hrun.
Qed.

(** X25.  For the axes manager of the model itself and a mask as long as
    the axis, [_model2plot] changes nothing and returns exactly when the
    evaluation of the active components does: with [out_of_range2nans] the
    curve has the length of the whole axis, carries the samples of the
    evaluation, in order, at the channels that are on and [nan] at every
    other channel; without it the curve is the evaluation itself. *)
Theorem model2plot_fills_nan (nan : R) w :
  length (channel_switches (model w)) = length (axis (model_axis (model w))) ->
  match __call__ (model w) false true with
  | Ok s =>
      _model2plot nan None false w = (Ok s, w)
      /\ exists ns,
           _model2plot nan None true w = (Ok ns, w)
           /\ length ns = length (axis (model_axis (model w)))
           /\ select (channel_switches (model w)) ns = s
           /\ forall k, channel_switches (model w) !! k = Some false ->
                        ns !! k = Some nan
  | Raise e =>
      _model2plot nan None false w = (Raise e, w)
      /\ _model2plot nan None true w = (Raise e, w)
  end.
Proof.
  intros Hmask. unfold _model2plot, mbind, M_bind, mret, M_ret, get_model, lift.
  destruct (__call__ (model w) false true) as [s|e] eqn:Hcall; [|done].
  split; [done|].
  pose proof (call_samples _ _ _ _ Hcall) as Hs.
  unfold setitem_mask. rewrite length_replicate.
  rewrite decide_True by done. rewrite decide_True by done.
  eexists. split; [reflexivity|].
  split; [by rewrite scatter_length, length_replicate|].
  split; [apply select_scatter; [by rewrite length_replicate|done]|].
  intros k Hk. rewrite scatter_off by done.
  apply lookup_replicate. split; [done|].
  rewrite <- Hmask. by eapply lookup_lt_Some.
Qed.

(** X26.  With another axes manager, [_model2plot] binds the model to it,
    charges, evaluates and binds the model back.  When it returns, the
    model is at its own navigation shape and position again; but the way
    back is not protected: when the evaluation raises after the first
    charge, the call raises the same exception and leaves the model bound
    to the other axes manager, charged at its position. *)
Theorem model2plot_foreign_manager (nan : R) (manager : list nat * list nat)
    (out_of_range2nans : bool) w :
  (forall s w',
     _model2plot nan (Some manager) out_of_range2nans w = (Ok s, w') ->
     navigation_shape (model w') = navigation_shape (model w)
     /\ _indexes (model w') = _indexes (model w))
  /\ (forall w1 e,
        charge false (with_model (with_axes_manager manager (model w)) w)
        = (Ok (), w1) ->
        __call__ (model w1) false true = Raise e ->
        _model2plot nan (Some manager) out_of_range2nans w = (Raise e, w1)
        /\ navigation_shape (model w1) = fst manager
        /\ _indexes (model w1) = snd manager).
Proof.
  split.
  - intros s w' Hrun. unfold _model2plot in Hrun.
    unfold mbind at 1, M_bind at 1, get_model at 1 in Hrun.
    apply bind_run in Hrun as [(old & w1 & H1 & Hrun)|(e & _ & ?)]; [|done].
    apply bind_run in H1 as [(? & wa & Ha & H1)|(e & _ & ?)]; [|done].
    apply bind_run in H1 as [(? & wb & Hb & H1)|(e & _ & ?)]; [|done].
    injection H1 as <- <-.
    unfold mbind at 1, M_bind at 1, get_model at 1 in Hrun.
    apply bind_run in Hrun as [(s1 & w2 & H2 & Hrun)|(e & _ & ?)]; [|done].
    injection H2 as _ <-.
    apply bind_run in Hrun as [(? & w3 & H3 & Hrun)|(e & _ & ?)]; [|done].
    unfold mbind at 1, M_bind at 1, get_model at 1 in H3.
    apply bind_run in H3 as [(? & wc & Hc & H3)|(e & _ & ?)]; [|done].
    injection Hc as _ <-.
    apply (charge_keeps_manager
             (navigation_shape (model w), _indexes (model w)) false
             (with_model
                (with_axes_manager
                   (navigation_shape (model w), _indexes (model w)) (model wb))
                wb) _ w3 eq_refl) in H3.
    injection H3 as Hshape Hindex.
    assert (Hw' : model w' = model w3).
    { destruct out_of_range2nans.
      - unfold mbind, M_bind, get_model, lift in Hrun. by injection Hrun as _ <-.
      - by injection Hrun as _ <-. }
    by rewrite Hw'.
  - intros w1 e Hcharge Hcall.
    pose proof (charge_keeps_manager manager false
                  (with_model (with_axes_manager manager (model w)) w) _ w1
                  (eq_sym (surjective_pairing manager)) Hcharge) as Hkept.
    split; [|by rewrite <- Hkept].
    unfold _model2plot.
    unfold mbind at 1, M_bind at 1, get_model at 1.
    unfold mbind at 1, M_bind at 1.
    unfold mbind at 1, M_bind at 1, put_model at 1.
    unfold mbind at 1, M_bind at 1. rewrite Hcharge.
    unfold mret at 1, M_ret at 1.
    unfold mbind at 1, M_bind at 1, get_model at 1.
    unfold mbind at 1, M_bind at 1, lift at 1. by rewrite Hcall.
Qed.

End ModelToPlotProperties.

Lemma model2plot_fills_nan_witness :
  exists ns,
    _model2plot (-1)%Z None true (Example.world_of Example.plain_model)
    = (Ok ns, Example.world_of Example.plain_model)
    /\ length ns = 4
    /\ select [true; true; false; true] ns = [5; 8; 14]%Z
    /\ ns !! 2 = Some (-1)%Z.
Proof.
  pose proof (model2plot_fills_nan (-1)%Z
                (Example.world_of Example.plain_model) eq_refl) as Hplot.
  assert (Hcall : __call__ (model (Example.world_of Example.plain_model))
                    false true = Ok [5; 8; 14]%Z)
    by (vm_compute; reflexivity).
  rewrite Hcall in Hplot.
  destruct Hplot as (_ & ns & Hrun & Hlen & Hsel & Hoff).
  exists ns. split; [exact Hrun|]. split; [exact Hlen|].
  split; [exact Hsel|]. exact (Hoff 2 eq_refl).
Defined.

Lemma model2plot_foreign_manager_witness :
  exists w1,
    _model2plot (-1)%Z (Some ([3], [2])) true
      (Example.world_of Cases.ragged_model) = (Raise ValueError, w1)
    /\ _indexes (model (Example.world_of Cases.ragged_model)) = [0]
    /\ _indexes (model w1) = [2].
Proof.
  eexists.
  assert (Hcharge : charge false
                      (with_model
                         (with_axes_manager ([3], [2])
                            (model (Example.world_of Cases.ragged_model)))
                         (Example.world_of Cases.ragged_model))
                    = (Ok (), _))
    by (vm_compute; reflexivity).
  destruct (proj2 (model2plot_foreign_manager (-1)%Z ([3], [2]) true
                     (Example.world_of Cases.ragged_model))
              _ ValueError Hcharge eq_refl) as (Hrun & _ & Hindex).
  split; [exact Hrun|]. split; [reflexivity|exact Hindex].
Defined.

(** ** When the jacobian returns *)

Section JacobianReturns.
Context {R : Type} `{Arith R}.
Implicit Types (m : Model R) (c : Component R) (g : GradArray R).

Lemma charge_parameters_no_free (ps : list (Param R)) (l : list R) :
  filter (fun p => free p = true) ps = [] ->
  charge_parameters ps l true = Ok ps.
Proof.
  induction ps as [|q ps IH]; [done|].
  destruct (free q) eqn:Hfree.
  - by rewrite filter_cons_True by done.
  - rewrite filter_cons_False by (by rewrite Hfree). intros Hps.
    cbn [charge_parameters]. rewrite Hfree. cbn [andb negb].
    by rewrite IH.
Qed.

Lemma jacobian_loop_no_free
    (eval : Values R -> Component R -> list R -> Param R
            -> result (GradResult R))
    (grad_is_axis : bool) (param : list R)
    (charged todo : list (Component R)) (counter : nat)
    (state : list R * GradArray R) :
  Forall (fun c => active c = true -> free_parameters c = []) todo ->
  jacobian_loop eval grad_is_axis param charged todo counter state
  = Ok (charged ++ todo, state).
Proof.
  revert charged counter.
  induction todo as [|c todo IH]; intros charged counter Hnone.
  - by rewrite app_nil_r.
  - apply Forall_cons in Hnone as [Hc Htodo].
    cbn [jacobian_loop]. destruct (active c).
    + specialize (Hc eq_refl). unfold component_charge.
      rewrite charge_parameters_no_free by exact Hc.
      cbn [mbind result_bind]. rewrite with_parameters_same.
      rewrite Hc. unfold stack_parameter_rows. cbn [for_each mbind result_bind].
      rewrite IH by done. by rewrite <- app_assoc.
    + rewrite IH by done. by rewrite <- app_assoc.
Qed.

(** X27.  Without a free parameter among the active components there is no
    row to stack: the array [grad] stays one-dimensional, and taking
    [grad[1:, ...]] raises [IndexError], in a convolved model as in any
    other, whatever [param] and the weights are. *)
Theorem jacobian_needs_free_parameter m (param : list R)
    (weights : option (list R)) :
  active_free_parameters m = [] ->
  _jacobian m param weights = Raise IndexError.
Proof.
  intros Hfree.
  pose proof (proj1 (active_free_parameters_nil m) Hfree) as Hnone.
  assert (Hall : Forall (fun c => active c = true -> free_parameters c = [])
                        (components m))
    by (apply Forall_forall; intros c Hc; by apply Hnone).
  unfold _jacobian. destruct (model_convolved m).
  - by rewrite jacobian_loop_no_free.
  - unfold getitem_mask. case_decide; cbn [mbind result_bind]; [|done].
    by rewrite jacobian_loop_no_free.
Qed.

(** The loop of [_jacobian] stacks the rows of [charged_rows] whenever they
    all have the width of [grad] and no sum of twins is written into the
    axis. *)
Lemma jacobian_loop_total m
    (eval : Values R -> Component R -> list R -> Param R
            -> result (GradResult R))
    (grad_is_axis : bool) param charged todo counter ax g cs prs :
  evaluates_gradients m eval ->
  Forall (fun c => Forall own_gradient_array (parameters c)) todo ->
  charged_rows m ax param charged todo counter = Ok (cs, prs) ->
  grad_nonempty g ->
  Forall (fun pr => length (snd pr) = grad_width g) prs ->
  jacobian_loop eval grad_is_axis param charged todo counter (ax, g)
  = Ok (cs, (ax, stacked g (map snd prs))).
Proof.
  intros Heval. revert charged counter g cs prs.
  induction todo as [|c rest IH]; intros charged counter g cs prs Hown.
  - intros [= <- <-] _ _. cbn [map jacobian_loop]. by rewrite stacked_nil.
  - apply Forall_cons in Hown as [Hc Hrest].
    cbn [jacobian_loop charged_rows]. destruct (active c); [|by apply IH].
    destruct (component_charge c _ true) as [c'|] eqn:Hc';
      cbn [mbind result_bind]; [|done].
    pose proof (component_charge_own_arrays _ _ _ _ Hc' Hc) as Hown'.
    destruct (traverse _ (free_parameters c')) as [rows|] eqn:Hrows;
      cbn [mbind result_bind]; [|done].
    destruct (charged_rows m ax param (charged ++ [c']) rest _)
      as [[cs' more]|] eqn:Hmore; cbn [mbind result_bind]; [|done].
    intros [= <- <-] Hg [Hwrows Hwmore]%Forall_app.
    rewrite (traverse_ext _
      (fun p => row ← coupled_row
                        (fun q =>
                           x ← eval (live_values (charged ++ c' :: rest)) c'
                                 ax q;
                           Ok (array_of ax x)) p;
                Ok (p, row))) in Hrows.
    2:{ intros p. unfold twin_coupled_row.
        by rewrite (coupled_row_ext _ _ _ (proj1 Heval _ c' ax)). }
    rewrite (stack_parameter_rows_total _ _ _ ax g rows
               (free_parameters_own _ c' ax eval m Heval Hown')
               Hrows Hg Hwrows).
    cbn [mbind result_bind].
    destruct (stacked_width g (map snd rows) Hg) as [Hwidth Hne].
    rewrite (IH _ _ _ _ _ Hrest Hmore Hne) by (by rewrite Hwidth).
    by rewrite map_app, stacked_app.
Qed.

(** X28.  [_jacobian] returns whenever the rows can be built and fit:
    while no gradient of a parameter with twins hands back the array it is
    given, when the rows of the free parameters of the active components -
    each with its twins added - can all be evaluated, there is at least
    one, and each has one sample per point of the axis the gradients are
    evaluated on, [_jacobian] is exactly those rows restricted to the
    channels in use and multiplied by the weights, together with the
    charged components. *)
Theorem jacobian_from_rows m (param : list R) (weights : option (list R))
    cs prs :
  gradients_unshared m ->
  (model_convolved m = false ->
   length (channel_switches m) = length (axis (model_axis m))) ->
  charged_rows m (evaluation_axis m) param [] (components m) 0 = Ok (cs, prs) ->
  prs <> [] ->
  Forall (fun pr => length (snd pr) = length (evaluation_axis m)) prs ->
  _jacobian m param weights
  = (matrix ← restrict_and_weigh m weights (map snd prs);
     Ok (matrix, with_components cs m)).
Proof.
  intros Hown%gradients_unshared_components Hmask Hrows Hne Hwidth.
  unfold _jacobian, restrict_and_weigh, evaluation_axis in *.
  destruct (model_convolved m) eqn:Hconv.
  - rewrite (jacobian_loop_total m (grad_convolved_model m) false param []
               (components m) 0 (axis (model_axis m))
               (Grad1 (np_zeros (length (axis (model_axis m))))) cs prs);
      [|by apply grad_convolved_model_evaluates|done|done|done|].
    2:{ cbn [grad_width]. by rewrite length_np_zeros. }
    cbn [mbind result_bind].
    destruct prs as [|pr prs]; [done|]. cbn [map stacked getitem_rows_from_1 drop].
    destruct (traverse _ _) as [restricted|]; cbn [mbind result_bind]; [|done].
    pose proof (with_axis_samples_same (with_components cs m)) as Hsame.
    cbn [model_axis with_components] in Hsame. rewrite Hsame.
    by destruct (times_weights weights restricted).
  - rewrite getitem_mask_same by (by apply Hmask). cbn [mbind result_bind].
    rewrite (jacobian_loop_total m
               (fun vals _ axis parameter => Ok (grad parameter vals axis))
               true param [] (components m) 0
               (select (channel_switches m) (axis (model_axis m)))
               (Grad1 (select (channel_switches m) (axis (model_axis m))))
               cs prs);
      [|by apply grad_plain_evaluates|done|done|done|done].
    cbn [mbind result_bind].
    destruct prs as [|pr prs]; [done|]. cbn [map stacked getitem_rows_from_1 drop].
    rewrite traverse_id. cbn [mbind result_bind].
    by destruct (times_weights weights _).
Qed.

End JacobianReturns.

Lemma jacobian_needs_free_parameter_witness :
  active_free_parameters Example.fixed_model = []
  /\ _jacobian Example.fixed_model [1]%Z None = Raise IndexError.
Proof.
  assert (Hnone : active_free_parameters Example.fixed_model = [])
    by reflexivity.
  exact (conj Hnone
           (jacobian_needs_free_parameter Example.fixed_model [1]%Z None Hnone)).
Defined.

Lemma jacobian_from_rows_witness :
  exists cs prs,
    charged_rows Example.convolved_model
      (evaluation_axis Example.convolved_model) [5; 3]%Z []
      (components Example.convolved_model) 0 = Ok (cs, prs)
    /\ _jacobian Example.convolved_model [5; 3]%Z None
       = (matrix ← restrict_and_weigh Example.convolved_model None
                     (map snd prs);
          Ok (matrix, with_components cs Example.convolved_model)).
Proof.
  eexists _, _. split; [vm_compute; reflexivity|].
  apply jacobian_from_rows.
  - by apply example_gradients_unshared.
  - intros Hconv. vm_compute in Hconv. discriminate Hconv.
  - vm_compute. reflexivity.
  - discriminate.
  - repeat constructor.
Defined.

(** ** Parameters whose names collide in the archive *)

Section ArchiveCollisions.
Context {R : Type} `{Arith R}.
Implicit Types (c : Component R) (p q : Param R) (m : Model R).
Implicit Types (kw : Archive R).

Lemma archive_parameters_last (i : nat) c (ps1 ps2 : list (Param R)) q kw :
  (forall p', p' ∈ ps2 ->
     replace_spaces (lower (name p')) <> replace_spaces (lower (name q))) ->
  foldl (fun kwds param =>
           <[archive_key i (comp_name c) (name param) := map_ param]> kwds)
        kw (ps1 ++ q :: ps2) !! archive_key i (comp_name c) (name q)
  = Some (map_ q).
Proof.
  intros Hlast. rewrite foldl_app. cbn [foldl].
  rewrite archive_parameters_other; [apply lookup_insert_eq|].
  intros p' Hp' Hkey. apply archive_key_parameter in Hkey.
  by apply (Hlast p').
Qed.

Lemma archive_components_at (cs : list (Component R)) (n : nat) kw (k : nat)
    c (pn : string) v :
  cs !! k = Some c ->
  (forall kw',
     foldl (fun kwds param =>
              <[archive_key (n + k) (comp_name c) (name param)
                := map_ param]> kwds)
           kw' (parameters c) !! archive_key (n + k) (comp_name c) pn
     = Some v) ->
  snd (foldl (fun '(i, kwds) component =>
                (i + 1,
                 foldl (fun kwds param =>
                          <[archive_key i (comp_name component) (name param)
                            := map_ param]> kwds)
                       kwds (parameters component)))
             (n, kw) cs) !! archive_key (n + k) (comp_name c) pn
  = Some v.
Proof.
  revert n kw k. induction cs as [|c0 cs IH]; intros n kw k Hc Hinner; [done|].
  cbn [foldl]. destruct k as [|k].
  - injection Hc as ->. rewrite Nat.add_0_r in Hinner |- *.
    rewrite archive_components_other; [apply Hinner|].
    intros i cn pn' Hi Hkey. apply archive_key_index in Hkey. lia.
  - replace (n + S k) with (n + 1 + k) in Hinner |- * by lia. by apply IH.
Qed.

(** X29.  In the archive of [save_parameters2file] the key of a parameter
    is made of the index and the name of its component and of its own
    name, in lower case with underscores for spaces.  Of the parameters of
    one component whose names agree once so normalised, only the last is
    kept: under the key of each of them the archive holds the map of the
    last one, and the maps of the others are not saved. *)
Theorem archive_last_name_wins m (i : nat) c (ps1 ps2 : list (Param R)) q p :
  components m !! i = Some c ->
  parameters c = ps1 ++ q :: ps2 ->
  (forall p', p' ∈ ps2 ->
     replace_spaces (lower (name p')) <> replace_spaces (lower (name q))) ->
  replace_spaces (lower (name p)) = replace_spaces (lower (name q)) ->
  parameter_archive m !! archive_key i (comp_name c) (name p) = Some (map_ q).
Proof.
  intros Hc Hps Hlast Hsame. unfold parameter_archive.
  apply (archive_components_at _ 0 ∅ i); [done|].
  intros kw'. rewrite Hps. cbn [Nat.add].
  replace (archive_key i (comp_name c) (name p))
    with (archive_key i (comp_name c) (name q))
    by (unfold archive_key; by rewrite Hsame).
  by apply archive_parameters_last.
Qed.

End ArchiveCollisions.

Lemma archive_last_name_wins_witness :
  parameter_archive Cases.clashing_model !! archive_key 0 "Peak" "A b"
  = Some (Example.maps_of 2 2 2).
Proof.
  refine (archive_last_name_wins Cases.clashing_model 0 _
            [mkParameter "A b" (Scalar 1%Z) true 1 None None
               (BoundsPair None None) (fun _ x => NewArray x) [] false false
               (Example.maps_of 1 1 1)]
            []
            (mkParameter "a_b" (Scalar 2%Z) true 1 None None
               (BoundsPair None None) (fun _ x => NewArray x) [] false false
               (Example.maps_of 2 2 2))
            (mkParameter "A b" (Scalar 1%Z) true 1 None None
               (BoundsPair None None) (fun _ x => NewArray x) [] false false
               (Example.maps_of 1 1 1))
            eq_refl eq_refl _ eq_refl).
  intros p' Hp'. by apply elem_of_nil in Hp'.
Defined.

(** ** The choice of the bounding mode *)

Section BoundingProperties.
Context {R : Type} `{Arith R} `{Optimizers R}.
Implicit Types (w : World R).

(** What the bounded fitters read: the boundary list and the parameter
    info of the model. *)
Local Abbreviation bounding_of w :=
  (free_parameters_boundaries (model w), mpfit_parinfo (model w)).






End BoundingProperties.

